(** * prowgen: configuration resolution and job materialization

    A shallow embedding of the job generator of istio/test-infra
    ([tools/prowgen/pkg/generate.go] and its earlier and later
    evolutions) together with the properties its specification states.

    Go values are embedded as follows.
    - [string] is a Go string, a sequence of bytes; [String.length] is
      Go's [len].
    - [map[string]V] is [gmap string V].  A nil map and an empty map are
      both [∅]; the program only ever asks [len(m)] and [m[k]] of a map
      it did not create, and these agree on the two.
    - [[]T] is [list T], a nil slice being [[]].
    - [*T] is [option T].
    - [int] and [int64] are [Z]; the program never does arithmetic on
      them.
    - A function that may call [exit] or return an [error] returns an
      [outcome]. *)

From Stdlib Require Import ZArith String Ascii List.
From stdpp Require Import base option list strings gmap fin_maps sorting.

Open Scope string_scope.

(** ** imdario/mergo

    [mergo.Merge(dst, src, opts...)] walks [dst] and [src] by reflection.
    The model has one function per kind of field the program merges;
    each is the corresponding case of the library's [deepMerge]. *)
Module mergo.

Record Config := mkConfig {
  Overwrite : bool;
  AppendSlice : bool;
  sliceDeepCopy : bool
}.

Definition noOptions : Config := mkConfig false false false.

Definition WithAppendSlice (config : Config) : Config :=
  mkConfig (Overwrite config) true (sliceDeepCopy config).

(** "WithSliceDeepCopy will merge slice element one by one with Overwrite
    flag": the option sets both [sliceDeepCopy] and [Overwrite]. *)
Definition WithSliceDeepCopy (config : Config) : Config :=
  mkConfig true (AppendSlice config) true.

Definition configure (opts : list (Config → Config)) : Config :=
  foldl (λ config opt, opt config) noOptions opts.

(** [isEmptyValue]: length zero for strings, zero for integers, [false]
    for structs. *)
Class Emptiness (A : Type) := isEmptyValue : A → bool.

#[global] Instance string_emptiness : Emptiness string :=
  λ s, bool_decide (s = "").
#[global] Instance Z_emptiness : Emptiness Z :=
  λ n, bool_decide (n = 0%Z).

(** The [default:] case of [deepMerge], taken by strings and integers. *)
Definition mergeValue {A} `{Emptiness A} (config : Config) (dst src : A) : A :=
  if (isEmptyValue dst || Overwrite config) && negb (isEmptyValue src)
  then src else dst.

(** The [reflect.Ptr] case for a pointer to a struct with one mergeable
    field: a nil [src] changes nothing, a nil [dst] takes [src], and two
    non-nil pointers merge what they point to. *)
Definition mergePtr {A} `{Emptiness A} (config : Config)
    (dst src : option A) : option A :=
  match src with
  | None => dst
  | Some s =>
      match dst with
      | None => Some s
      | Some d => Some (mergeValue config d s)
      end
  end.

(** The [reflect.Slice] case.  With [AppendSlice] the slices are
    concatenated.  (With [sliceDeepCopy] alone the library merges element
    by element; no call of this program configures that.) *)
Definition mergeSlice {A} (config : Config) (dst src : list A) : list A :=
  if AppendSlice config then dst ++ src
  else if negb (length src =? 0)%nat &&
          (Overwrite config || (length dst =? 0)%nat)
       then src else dst.

(** The [reflect.Map] case: every key of [src] is written to [dst] when
    [Overwrite] is set, or when [dst] has no value or an empty value
    under that key.  Keys are handled independently of one another, so
    the iteration order of [src.MapKeys()] does not show. *)
Definition mergeMap {V} `{Emptiness V} (config : Config)
    (dst src : gmap string V) : gmap string V :=
  union_with
    (λ d s, Some (if Overwrite config || isEmptyValue d then s else d))
    dst src.

End mergo.

(** ** Kubernetes and prow types the generator fills in *)

Module ResourceRequirements.
(** [v1.ResourceRequirements]; a [resource.Quantity] is kept as its
    text. *)
Record t := mk {
  Limits : gmap string string;
  Requests : gmap string string
}.
Definition zero : t := mk ∅ ∅.
End ResourceRequirements.

#[global] Instance ResourceRequirements_emptiness :
  mergo.Emptiness ResourceRequirements.t := λ _, false.

Module EnvVar.
(** [v1.EnvVar]; [ValueFrom] is kept as the name of its source. *)
Record t := mk {
  Name : string;
  Value : string;
  ValueFrom : option string
}.
End EnvVar.

Module RequirementPreset.
(** Modelled from the spec: the declaration of [RequirementPreset] is
    not in the sources; the specification describes a preset as a named
    mutation of a job's execution environment (extra labels and
    annotations, environment, arguments), and the later evolution reads
    a [Cron] override from it. *)
Record t := mk {
  Annotations : gmap string string;
  Labels : gmap string string;
  Env : list EnvVar.t;
  Args : list string;
  Cron : string
}.
Definition zero : t := mk ∅ ∅ [] [] "".
End RequirementPreset.

#[global] Instance RequirementPreset_emptiness :
  mergo.Emptiness RequirementPreset.t := λ _, false.

(** ** generate.go: the configuration types *)

Module CommonConfig.
Record t := mk {
  GCSLogBucket : string;
  TerminationGracePeriodSeconds : Z;
  Interval : string;
  Cron : string;
  Cluster : string;
  NodeSelector : gmap string string;
  Annotations : gmap string string;
  Labels : gmap string string;
  ResourcePresets : gmap string ResourceRequirements.t;
  RequirementPresets : gmap string RequirementPreset.t;
  Requirements : list string;
  ExcludedRequirements : list string;
  Env : list EnvVar.t;
  Image : string;
  ImagePullPolicy : string;
  ImagePullSecrets : list string;
  ServiceAccountName : string;
  Regex : string;
  Trigger : string;
  Timeout : option Z;
  MaxConcurrency : Z;
  Resources : string;
  Modifiers : list string
}.

(** [CommonConfig{}] *)
Definition zero : t :=
  mk "" 0 "" "" "" ∅ ∅ ∅ ∅ ∅ [] [] [] "" "" [] "" "" "" None 0 "" [].

Definition withNodeSelector (c : t) (nodeSelector : gmap string string) : t :=
  mk (GCSLogBucket c) (TerminationGracePeriodSeconds c) (Interval c) (Cron c)
     (Cluster c) nodeSelector (Annotations c) (Labels c) (ResourcePresets c)
     (RequirementPresets c) (Requirements c) (ExcludedRequirements c) (Env c)
     (Image c) (ImagePullPolicy c) (ImagePullSecrets c) (ServiceAccountName c)
     (Regex c) (Trigger c) (Timeout c) (MaxConcurrency c) (Resources c)
     (Modifiers c).

(** [mergo.Merge(&dst, src, opts...)] on two [CommonConfig] structs: the
    [reflect.Struct] case merges field by field. *)
Definition Merge (config : mergo.Config) (dst src : t) : t :=
  mk (mergo.mergeValue config (GCSLogBucket dst) (GCSLogBucket src))
     (mergo.mergeValue config (TerminationGracePeriodSeconds dst)
        (TerminationGracePeriodSeconds src))
     (mergo.mergeValue config (Interval dst) (Interval src))
     (mergo.mergeValue config (Cron dst) (Cron src))
     (mergo.mergeValue config (Cluster dst) (Cluster src))
     (mergo.mergeMap config (NodeSelector dst) (NodeSelector src))
     (mergo.mergeMap config (Annotations dst) (Annotations src))
     (mergo.mergeMap config (Labels dst) (Labels src))
     (mergo.mergeMap config (ResourcePresets dst) (ResourcePresets src))
     (mergo.mergeMap config (RequirementPresets dst) (RequirementPresets src))
     (mergo.mergeSlice config (Requirements dst) (Requirements src))
     (mergo.mergeSlice config (ExcludedRequirements dst)
        (ExcludedRequirements src))
     (mergo.mergeSlice config (Env dst) (Env src))
     (mergo.mergeValue config (Image dst) (Image src))
     (mergo.mergeValue config (ImagePullPolicy dst) (ImagePullPolicy src))
     (mergo.mergeSlice config (ImagePullSecrets dst) (ImagePullSecrets src))
     (mergo.mergeValue config (ServiceAccountName dst)
        (ServiceAccountName src))
     (mergo.mergeValue config (Regex dst) (Regex src))
     (mergo.mergeValue config (Trigger dst) (Trigger src))
     (mergo.mergePtr config (Timeout dst) (Timeout src))
     (mergo.mergeValue config (MaxConcurrency dst) (MaxConcurrency src))
     (mergo.mergeValue config (Resources dst) (Resources src))
     (mergo.mergeSlice config (Modifiers dst) (Modifiers src)).
End CommonConfig.

(** ** generate.go: hierarchical merge *)

(** [deepCopyCommonConfig] and [deepCopyMap] marshal to YAML and
    unmarshal into a fresh value.  Values here are immutable, so the
    copy is the value itself. *)
Definition deepCopyCommonConfig (commonConfig : CommonConfig.t) : CommonConfig.t :=
  commonConfig.

Definition deepCopyMap (mp : gmap string string) : gmap string string := mp.

(** The options [mergeCommonConfig] passes to [mergo.Merge]. *)
Definition mergeOptions : mergo.Config :=
  mergo.configure [mergo.WithAppendSlice; mergo.WithSliceDeepCopy].

(** One round of the loop of [mergeCommonConfig]. *)
Definition mergeCommonConfig_step (mergedCommonConfig : CommonConfig.t)
    (configs_i : CommonConfig.t) : CommonConfig.t :=
  let config := deepCopyCommonConfig configs_i in
  let mergedCommonConfig :=
    CommonConfig.Merge mergeOptions mergedCommonConfig config in
  if negb (size (CommonConfig.NodeSelector configs_i) =? 0)%nat
  then CommonConfig.withNodeSelector mergedCommonConfig
         (deepCopyMap (CommonConfig.NodeSelector configs_i))
  else mergedCommonConfig.

Definition mergeCommonConfig (configs : list CommonConfig.t) : CommonConfig.t :=
  foldl mergeCommonConfig_step CommonConfig.zero configs.

(** The selector after one round: the round's own selector when it has
    one, the accumulated selector otherwise. *)
Definition chooseNodeSelector (accumulated own : gmap string string)
    : gmap string string :=
  if negb (size own =? 0)%nat then own else accumulated.

(** *** What "the last input that sets it" means *)

(** The value of the last element of [values] that is not the zero value,
    and the zero value when there is none. *)
Definition lastSet {A} `{mergo.Emptiness A} (zero : A) (values : list A) : A :=
  default zero (last (filter (λ v, mergo.isEmptyValue v = false) values)).

(** The value under [key] in the last of [maps] that has the key. *)
Definition lastBinding {V} (key : string) (maps : list (gmap string V))
    : option V :=
  last (omap (λ m, m !! key) maps).

(** The last of [maps] that is not empty, and the empty map when there is
    none. *)
Definition lastNonEmptyOr {V} (otherwise : gmap string V)
    (maps : list (gmap string V)) : gmap string V :=
  default otherwise (last (filter (λ m, m ≠ ∅) maps)).

Definition lastNonEmpty {V} (maps : list (gmap string V)) : gmap string V :=
  lastNonEmptyOr ∅ maps.

(** ** The Go standard library functions the generator calls *)
Module strings.

(** [HasPrefix(s, prefix)] *)
Definition HasPrefix (s prefix : string) : bool := String.prefix prefix s.

(** [s[n:]] *)
Fixpoint sliceFrom (n : nat) (s : string) : string :=
  match n, s with
  | O, _ => s
  | S n, String _ rest => sliceFrom n rest
  | S _, EmptyString => EmptyString
  end.

(** [s[:n]] *)
Fixpoint sliceTo (n : nat) (s : string) : string :=
  match n, s with
  | O, _ => EmptyString
  | S n, String c rest => String c (sliceTo n rest)
  | S _, EmptyString => EmptyString
  end.

Definition TrimPrefix (s prefix : string) : string :=
  if HasPrefix s prefix then sliceFrom (String.length prefix) s else s.

Definition HasSuffix (s suffix : string) : bool :=
  (String.length suffix <=? String.length s)%nat &&
  bool_decide (sliceFrom (String.length s - String.length suffix) s = suffix).

Definition TrimSuffix (s suffix : string) : string :=
  if HasSuffix s suffix
  then sliceTo (String.length s - String.length suffix) s else s.

(** [Contains(s, substr)] *)
Fixpoint Contains (s substr : string) : bool :=
  String.prefix substr s ||
  match s with
  | EmptyString => false
  | String _ rest => Contains rest substr
  end.

(** [LastIndex(s, substr)]: the index of the last occurrence, [-1] when
    there is none. *)
Fixpoint lastIndexFrom (substr : string) (i found : Z) (s : string) : Z :=
  let found := if String.prefix substr s then i else found in
  match s with
  | EmptyString => found
  | String _ rest => lastIndexFrom substr (i + 1) found rest
  end.

Definition LastIndex (s substr : string) : Z :=
  lastIndexFrom substr 0 (-1) s.

(** [Split(s, sep)] for a non-empty [sep].  [skip] counts the bytes of
    the separator just found that are still to be passed over, [current]
    is the piece read so far. *)
Fixpoint splitFrom (sep : string) (skip : nat) (current s : string)
    : list string :=
  match s with
  | EmptyString => [current]
  | String c rest =>
      match skip with
      | S skip => splitFrom sep skip current rest
      | O =>
          if String.prefix sep s
          then current :: splitFrom sep (String.length sep - 1) "" rest
          else splitFrom sep 0 (current +:+ String c "") rest
      end
  end.

Definition Split (s sep : string) : list string := splitFrom sep 0 "" s.

(** [ReplaceAll(s, old, new)] for a non-empty [old]: the occurrences of
    [old] are replaced from left to right, without overlap. *)
Fixpoint replaceFrom (old new : string) (skip : nat) (s : string) : string :=
  match s with
  | EmptyString => EmptyString
  | String c rest =>
      match skip with
      | S skip => replaceFrom old new skip rest
      | O =>
          if String.prefix old s
          then new +:+ replaceFrom old new (String.length old - 1) rest
          else String c (replaceFrom old new 0 rest)
      end
  end.

Definition ReplaceAll (s old new : string) : string := replaceFrom old new 0 s.

(** [Join(elems, sep)] *)
Fixpoint Join (elems : list string) (sep : string) : string :=
  match elems with
  | [] => ""
  | [e] => e
  | e :: rest => e +:+ sep +:+ Join rest sep
  end.

End strings.

(** [sets.NewString(items...).Has(item)] *)
Module sets.
Definition NewString (items : list string) : gset string := list_to_set items.
Definition Has (s : gset string) (item : string) : bool :=
  bool_decide (item ∈ s).
End sets.

(** [multierror.Append(err, e)]: a nil [err] is the empty list. *)
Module multierror.
Definition Append (err : list string) (e : string) : list string :=
  (err ++ [e])%list.
End multierror.

(** ** How a call ends

    [Returned a] is a normal return, [Failed err] the return of a non-nil
    [error], and [Exited context errs] a call of [exit(err, context)],
    which prints the errors and ends the process with status 1. *)
Inductive outcome (A : Type) : Type :=
| Returned (a : A)
| Failed (err : string)
| Exited (context : string) (errs : list string).
Arguments Returned {A} a.
Arguments Failed {A} err.
Arguments Exited {A} context errs.

#[global] Instance outcome_ret : MRet outcome := λ A a, Returned a.

#[global] Instance outcome_bind : MBind outcome := λ A B f m,
  match m with
  | Returned a => f a
  | Failed err => Failed err
  | Exited context errs => Exited context errs
  end.

(** A loop whose body may fail: [for _, x := range xs { acc = body(acc, x) }] *)
Fixpoint forEach {A B} (body : A → B → outcome A) (acc : A) (xs : list B)
    : outcome A :=
  match xs with
  | [] => Returned acc
  | x :: rest => acc ← body acc x; forEach body acc rest
  end.

(** ** prow job types *)

Module SlackReporterConfig.
Record t := mk {
  Channel : string;
  JobStatesToReport : option (list string);
  Report : option bool
}.
End SlackReporterConfig.

Module ReporterConfig.
Record t := mk { Slack : option SlackReporterConfig.t }.
End ReporterConfig.

Module Container.
Record t := mk {
  Image : string;
  Privileged : option bool;
  Command : list string;
  Args : list string;
  Env : list EnvVar.t;
  ImagePullPolicy : string;
  Resources : ResourceRequirements.t
}.
Definition withImagePullPolicy (c : t) (policy : string) : t :=
  mk (Image c) (Privileged c) (Command c) (Args c) (Env c) policy (Resources c).
Definition withResources (c : t) (resources : ResourceRequirements.t) : t :=
  mk (Image c) (Privileged c) (Command c) (Args c) (Env c) (ImagePullPolicy c)
     resources.
End Container.

Module PodSpec.
Record t := mk {
  Containers : list Container.t;
  NodeSelector : gmap string string;
  ImagePullSecrets : option (list string);
  ServiceAccountName : string;
  TerminationGracePeriodSeconds : option Z
}.
End PodSpec.

Module Refs.
Record t := mk {
  Org : string;
  Repo : string;
  BaseRef : string;
  PathAlias : string;
  CloneURI : string
}.
End Refs.

Module GCSConfiguration.
Record t := mk { Bucket : string; PathStrategy : string }.
End GCSConfiguration.

Module DecorationConfig.
Record t := mk {
  Timeout : option Z;
  GCSConfiguration : option GCSConfiguration.t
}.
Definition zero : t := mk None None.
End DecorationConfig.

Module UtilityConfig.
Record t := mk {
  Decorate : option bool;
  PathAlias : string;
  ExtraRefs : list Refs.t;
  DecorationConfig : option DecorationConfig.t
}.
End UtilityConfig.

Module JobBase.
Record t := mk {
  Name : string;
  Labels : gmap string string;
  Annotations : gmap string string;
  MaxConcurrency : Z;
  Cluster : string;
  Spec : option PodSpec.t;
  UtilityConfig : UtilityConfig.t;
  ReporterConfig : option ReporterConfig.t
}.
Definition withLabels (jb : t) (labels : gmap string string) : t :=
  mk (Name jb) labels (Annotations jb) (MaxConcurrency jb) (Cluster jb)
     (Spec jb) (UtilityConfig jb) (ReporterConfig jb).
Definition withAnnotations (jb : t) (annotations : gmap string string) : t :=
  mk (Name jb) (Labels jb) annotations (MaxConcurrency jb) (Cluster jb)
     (Spec jb) (UtilityConfig jb) (ReporterConfig jb).
Definition withSpec (jb : t) (spec : option PodSpec.t) : t :=
  mk (Name jb) (Labels jb) (Annotations jb) (MaxConcurrency jb) (Cluster jb)
     spec (UtilityConfig jb) (ReporterConfig jb).
Definition withReporterConfig (jb : t) (rc : option ReporterConfig.t) : t :=
  mk (Name jb) (Labels jb) (Annotations jb) (MaxConcurrency jb) (Cluster jb)
     (Spec jb) (UtilityConfig jb) rc.
Definition withPathAlias (jb : t) (pathAlias : string) : t :=
  mk (Name jb) (Labels jb) (Annotations jb) (MaxConcurrency jb) (Cluster jb)
     (Spec jb)
     (UtilityConfig.mk (UtilityConfig.Decorate (UtilityConfig jb)) pathAlias
        (UtilityConfig.ExtraRefs (UtilityConfig jb))
        (UtilityConfig.DecorationConfig (UtilityConfig jb)))
     (ReporterConfig jb).
Definition ExtraRefs (jb : t) : list Refs.t :=
  UtilityConfig.ExtraRefs (UtilityConfig jb).
End JobBase.

Module Presubmit.
Record t := mk {
  JobBase : JobBase.t;
  AlwaysRun : bool;
  Optional : bool;
  Trigger : string;
  Branches : list string;
  RunIfChanged : string;
  SkipReport : bool
}.
Definition withJobBase (p : t) (jb : JobBase.t) : t :=
  mk jb (AlwaysRun p) (Optional p) (Trigger p) (Branches p) (RunIfChanged p)
     (SkipReport p).
Definition withAlwaysRun (p : t) (alwaysRun : bool) : t :=
  mk (JobBase p) alwaysRun (Optional p) (Trigger p) (Branches p)
     (RunIfChanged p) (SkipReport p).
Definition withOptional (p : t) (optional : bool) : t :=
  mk (JobBase p) (AlwaysRun p) optional (Trigger p) (Branches p)
     (RunIfChanged p) (SkipReport p).
Definition withTrigger (p : t) (trigger : string) : t :=
  mk (JobBase p) (AlwaysRun p) (Optional p) trigger (Branches p)
     (RunIfChanged p) (SkipReport p).
Definition withRunIfChanged (p : t) (regex : string) : t :=
  mk (JobBase p) (AlwaysRun p) (Optional p) (Trigger p) (Branches p) regex
     (SkipReport p).
Definition withSkipReport (p : t) (skipReport : bool) : t :=
  mk (JobBase p) (AlwaysRun p) (Optional p) (Trigger p) (Branches p)
     (RunIfChanged p) skipReport.
End Presubmit.

Module Postsubmit.
Record t := mk {
  JobBase : JobBase.t;
  Branches : list string;
  RunIfChanged : string;
  SkipReport : bool
}.
Definition withJobBase (p : t) (jb : JobBase.t) : t :=
  mk jb (Branches p) (RunIfChanged p) (SkipReport p).
Definition withRunIfChanged (p : t) (regex : string) : t :=
  mk (JobBase p) (Branches p) regex (SkipReport p).
Definition withSkipReport (p : t) (skipReport : bool) : t :=
  mk (JobBase p) (Branches p) (RunIfChanged p) skipReport.
End Postsubmit.

Module Periodic.
Record t := mk {
  JobBase : JobBase.t;
  Interval : string;
  Cron : string;
  Tags : list string
}.
Definition withJobBase (p : t) (jb : JobBase.t) : t :=
  mk jb (Interval p) (Cron p) (Tags p).
End Periodic.

(** [config.JobConfig] *)
Module JobConfig.
Record t := mk {
  PresubmitsStatic : gmap string (list Presubmit.t);
  PostsubmitsStatic : gmap string (list Postsubmit.t);
  Periodics : list Periodic.t
}.
Definition zero : t := mk ∅ ∅ [].
End JobConfig.

(** ** generate.go: the catalog types *)

Module Job.
Record t := mk {
  CommonConfig : CommonConfig.t;
  DisableReleaseBranching : bool;
  Name : string;
  Command : list string;
  Args : list string;
  Tags : list string;
  Types : list string;
  Repos : list string;
  GerritPresubmitLabel : string;
  GerritPostsubmitLabel : string;
  ReporterConfig : option ReporterConfig.t
}.
Definition withCommonConfig (job : t) (commonConfig : CommonConfig.t) : t :=
  mk commonConfig (DisableReleaseBranching job) (Name job) (Command job)
     (Args job) (Tags job) (Types job) (Repos job) (GerritPresubmitLabel job)
     (GerritPostsubmitLabel job) (ReporterConfig job).
Definition withRepos (job : t) (repos : list string) : t :=
  mk (CommonConfig job) (DisableReleaseBranching job) (Name job) (Command job)
     (Args job) (Tags job) (Types job) repos (GerritPresubmitLabel job)
     (GerritPostsubmitLabel job) (ReporterConfig job).
End Job.

Module JobsConfig.
Record t := mk {
  CommonConfig : CommonConfig.t;
  SupportReleaseBranching : bool;
  Repo : string;
  Org : string;
  CloneURI : string;
  Branches : list string;
  Matrix : gmap string (list string);
  Jobs : list Job.t
}.
End JobsConfig.

Module TestgridConfig.
Record t := mk {
  Enabled : bool;
  AlertEmail : string;
  NumFailuresToAlert : string
}.
End TestgridConfig.

Module BaseConfig.
Record t := mk {
  CommonConfig : CommonConfig.t;
  AutogenHeader : string;
  PathAliases : gmap string string;
  TestgridConfig : TestgridConfig.t
}.
End BaseConfig.

Module Client.
Record t := mk {
  BaseConfig : BaseConfig.t;
  LongJobNamesAllowed : bool
}.
End Client.

(** ** generate.go: constants *)

Definition TestGridDashboard : string := "testgrid-dashboards".
Definition TestGridAlertEmail : string := "testgrid-alert-email".
Definition TestGridNumFailures : string := "testgrid-num-failures-to-alert".
Definition DefaultResource : string := "default".
Definition ModifierHidden : string := "hidden".
Definition ModifierPresubmitOptional : string := "presubmit_optional".
Definition ModifierPresubmitSkipped : string := "presubmit_skipped".
Definition TypePostsubmit : string := "postsubmit".
Definition TypePresubmit : string := "presubmit".
Definition TypePeriodic : string := "periodic".

(** Kubernetes has a label limit of 63 characters *)
Definition maxJobNameLength : nat := 63.

(** [client.GerritReportLabel] of prow's gerrit client *)
Definition GerritReportLabel : string := "prow.k8s.io/gerrit-report-label".

(** ** External collaborators

    Functions the generator calls and whose code is outside it: the YAML
    codec applied to a [Job] (unmarshalling gives the job or the text of
    an error), the cron and duration parsers (an error is [Some] of its
    text), prow's [config.DefaultTriggerFor], and
    [resolveRequirements], which writes into the annotation and label
    maps and the pod spec it is handed and here returns what they hold
    afterwards. *)
Class External := {
  yamlMarshal : Job.t → string;
  yamlUnmarshal : string → Job.t + string;
  cronParse : string → option string;
  ParseDuration : string → option string;
  DefaultTriggerFor : string → string;
  resolveRequirements :
    gmap string string → gmap string string → option PodSpec.t →
    list RequirementPreset.t →
    gmap string string * gmap string string * option PodSpec.t
}.

(** ** generate.go: validation *)

Definition validate (input : string) (options : list string)
    (description : string) : option string :=
  let valid :=
    foldl (λ valid opt, if bool_decide (input = opt) then true else valid)
      false options in
  if negb valid
  then Some ("'" +:+ input +:+ "' is not a valid " +:+ description +:+
             ". Must be one of " +:+ strings.Join options ", ")
  else None.

(** [if e := validate(...); e != nil { err = multierror.Append(err, e) }] *)
Definition appendInvalid (options : list string) (description : string)
    (err : list string) (input : string) : list string :=
  match validate input options description with
  | Some e => multierror.Append err e
  | None => err
  end.

(** The check made of a job whose types include [TypePeriodic]. *)
Definition validatePeriodic `{External} (fileName : string) (job : Job.t)
    (err : list string) : list string :=
  let cron := CommonConfig.Cron (Job.CommonConfig job) in
  let interval := CommonConfig.Interval (Job.CommonConfig job) in
  if negb (bool_decide (cron = "")) && negb (bool_decide (interval = ""))
  then multierror.Append err
         (fileName +:+ ": cron and interval cannot be both set in periodic "
          +:+ Job.Name job)
  else if bool_decide (cron = "") && bool_decide (interval = "")
  then multierror.Append err
         (fileName +:+ ": cron and interval cannot be both empty in periodic "
          +:+ Job.Name job)
  else if negb (bool_decide (cron = ""))
  then match cronParse cron with
       | Some e =>
           multierror.Append err
             (fileName +:+ ": invalid cron string " +:+ cron +:+
              " in periodic " +:+ Job.Name job +:+ ": " +:+ e)
       | None => err
       end
  else if negb (bool_decide (interval = ""))
  then match ParseDuration interval with
       | Some e =>
           multierror.Append err
             (fileName +:+ ": cannot parse duration " +:+ interval +:+
              " in periodic " +:+ Job.Name job +:+ ": " +:+ e)
       | None => err
       end
  else err.

(** The body of the loop over [jobsConfig.Jobs] in [ValidateJobConfig]. *)
Definition validateJob `{External} (fileName : string)
    (jobsConfig : JobsConfig.t) (err : list string) (job : Job.t)
    : list string :=
  let common := Job.CommonConfig job in
  let err :=
    if bool_decide (CommonConfig.Image common = "")
    then multierror.Append err
           (fileName +:+ ": image must be set for job " +:+ Job.Name job)
    else err in
  let err :=
    if negb (bool_decide (CommonConfig.Resources common = ""))
    then match CommonConfig.ResourcePresets (JobsConfig.CommonConfig jobsConfig)
               !! CommonConfig.Resources common with
         | None =>
             multierror.Append err
               (fileName +:+ ": job '" +:+ Job.Name job +:+
                "' has nonexistant resource '" +:+
                CommonConfig.Resources common +:+ "'")
         | Some _ => err
         end
    else err in
  let err :=
    foldl
      (appendInvalid
         [ModifierHidden; ModifierPresubmitOptional; ModifierPresubmitSkipped]
         "status")
      err (CommonConfig.Modifiers common) in
  let err :=
    if sets.Has (sets.NewString (Job.Types job)) TypePeriodic
    then validatePeriodic fileName job err
    else err in
  let err :=
    foldl (appendInvalid [TypePostsubmit; TypePresubmit; TypePeriodic] "type")
      err (Job.Types job) in
  let err :=
    foldl
      (λ err repo,
         if negb (length (strings.Split repo "/") =? 2)%nat
         then multierror.Append err
                (fileName +:+ ": repo " +:+ repo +:+
                 " not valid, should take form org/repo")
         else err)
      err (Job.Repos job) in
  err.

(** The multi-error [ValidateJobConfig] has accumulated when it reaches
    its last statement. *)
Definition validationErrors `{External} (fileName : string)
    (jobsConfig : JobsConfig.t) : list string :=
  let err := [] in
  let err :=
    if bool_decide (JobsConfig.Org jobsConfig = "")
    then multierror.Append err (fileName +:+ ": org must be set")
    else err in
  let err :=
    if bool_decide (JobsConfig.Repo jobsConfig = "")
    then multierror.Append err (fileName +:+ ": repo must be set")
    else err in
  foldl (validateJob fileName jobsConfig) err (JobsConfig.Jobs jobsConfig).

Definition ValidateJobConfig `{External} (fileName : string)
    (jobsConfig : JobsConfig.t) : outcome unit :=
  match validationErrors fileName jobsConfig with
  | [] => Returned ()
  | err => Exited "validation failed" err
  end.

(** ** generate.go: containers, job bases and extra references *)

Definition createContainer (jobConfig : JobsConfig.t) (job : Job.t)
    (resources : gmap string ResourceRequirements.t) : list Container.t :=
  let envs := CommonConfig.Env (Job.CommonConfig job) in
  let envs :=
    if (length envs =? 0)%nat
    then CommonConfig.Env (JobsConfig.CommonConfig jobConfig)
    else (envs ++ CommonConfig.Env (JobsConfig.CommonConfig jobConfig))%list in
  let c :=
    Container.mk (CommonConfig.Image (Job.CommonConfig job)) (Some true)
      (Job.Command job) (Job.Args job) envs "" ResourceRequirements.zero in
  let c :=
    if negb (bool_decide (CommonConfig.ImagePullPolicy (Job.CommonConfig job) = ""))
    then Container.withImagePullPolicy c
           (CommonConfig.ImagePullPolicy (Job.CommonConfig job))
    else c in
  let jobResource := DefaultResource in
  let jobResource :=
    if negb (bool_decide (CommonConfig.Resources (Job.CommonConfig job) = ""))
    then CommonConfig.Resources (Job.CommonConfig job)
    else jobResource in
  let c :=
    match resources !! jobResource with
    | Some r => Container.withResources c r
    | None => c
    end in
  [c].

(** The body of the loop of [createExtraRefs]. *)
Definition createExtraRef (defaultBranch : string)
    (pathAliases : gmap string string) (extraRepo : string) : Refs.t :=
  let branch := defaultBranch in
  let repobranch := strings.Split extraRepo "@" in
  let branch :=
    if (1 <? length repobranch)%nat then default "" (repobranch !! 1)
    else branch in
  let orgrepo := default "" (repobranch !! 0) in
  let repo :=
    strings.sliceFrom (Z.to_nat (strings.LastIndex orgrepo "/" + 1)) orgrepo in
  let org := strings.TrimSuffix orgrepo ("/" +:+ repo) in
  let pathAlias :=
    match pathAliases !! org with
    | Some pa => pa +:+ "/" +:+ repo
    | None => ""
    end in
  let cloneURI :=
    if strings.Contains org "." then "https://" +:+ orgrepo else "" in
  Refs.mk org repo branch pathAlias cloneURI.

Definition createExtraRefs (extraRepos : list string) (defaultBranch : string)
    (pathAliases : gmap string string) : list Refs.t :=
  foldl (λ refs extraRepo,
           (refs ++ [createExtraRef defaultBranch pathAliases extraRepo])%list)
    [] extraRepos.

(** The error [createJobBase] returns for a name that is too long. *)
Definition nameTooLong (name : string) : string :=
  "job name exceeds 63 character limit '" +:+ name +:+ "'".

Definition createJobBase (cli : Client.t) (baseConfig : BaseConfig.t)
    (jobConfig : JobsConfig.t) (job : Job.t) (name branch : string)
    (resources : gmap string ResourceRequirements.t) : outcome JobBase.t :=
  let common := Job.CommonConfig job in
  if (maxJobNameLength <? String.length name)%nat &&
     negb (Client.LongJobNamesAllowed cli)
  then Failed (nameTooLong name)
  else
    let imagePullSecrets :=
      if negb (length (CommonConfig.ImagePullSecrets common) =? 0)%nat
      then Some (CommonConfig.ImagePullSecrets common) else None in
    let terminationGracePeriodSeconds :=
      if negb (bool_decide (CommonConfig.TerminationGracePeriodSeconds common = 0%Z))
      then Some (CommonConfig.TerminationGracePeriodSeconds common)
      else None in
    let spec :=
      PodSpec.mk (createContainer jobConfig job resources)
        (CommonConfig.NodeSelector common) imagePullSecrets
        (CommonConfig.ServiceAccountName common)
        terminationGracePeriodSeconds in
    let decorationConfig := None in
    let decorationConfig :=
      match CommonConfig.Timeout common with
      | Some timeout =>
          Some (DecorationConfig.mk (Some timeout)
                  (DecorationConfig.GCSConfiguration
                     (default DecorationConfig.zero decorationConfig)))
      | None => decorationConfig
      end in
    let decorationConfig :=
      if negb (bool_decide (CommonConfig.GCSLogBucket common = ""))
      then Some (DecorationConfig.mk
                   (DecorationConfig.Timeout
                      (default DecorationConfig.zero decorationConfig))
                   (Some (GCSConfiguration.mk
                            (CommonConfig.GCSLogBucket common) "explicit")))
      else decorationConfig in
    Returned
      (JobBase.mk name (CommonConfig.Labels common)
         (CommonConfig.Annotations common)
         (CommonConfig.MaxConcurrency common) (CommonConfig.Cluster common)
         (Some spec)
         (UtilityConfig.mk (Some true) ""
            (createExtraRefs (Job.Repos job) branch
               (BaseConfig.PathAliases baseConfig))
            decorationConfig)
         (Job.ReporterConfig job)).

(** ** generate.go: requirements and modifiers *)

Definition applyRequirements `{External} (job : JobBase.t)
    (requirements blockedRequirements : list string)
    (presetMap : gmap string RequirementPreset.t) : outcome JobBase.t :=
  (* Go ranges over the map in no fixed order; the order only shows in the
     text of the error. *)
  let validRequirements := (map_to_list presetMap).*1 in
  let err := [] in
  let err :=
    foldl (appendInvalid validRequirements "requirements") err requirements in
  let err :=
    foldl (appendInvalid validRequirements "blocked_requirements") err
      blockedRequirements in
  match err with
  | _ :: _ => Exited "validation failed" err
  | [] =>
      let blocked := sets.NewString blockedRequirements in
      let presets :=
        foldl (λ presets req,
                 if negb (sets.Has blocked req)
                 then (presets ++
                       [default RequirementPreset.zero (presetMap !! req)])%list
                 else presets)
          [] requirements in
      let '(annotations, labels, spec) :=
        resolveRequirements (JobBase.Annotations job) (JobBase.Labels job)
          (JobBase.Spec job) presets in
      Returned
        (JobBase.withSpec
           (JobBase.withLabels (JobBase.withAnnotations job annotations) labels)
           spec)
  end.

Definition applyModifiersPresubmit (presubmit : Presubmit.t)
    (jobModifiers : list string) : Presubmit.t :=
  foldl
    (λ presubmit modifier,
       if bool_decide (modifier = ModifierPresubmitOptional)
       then Presubmit.withOptional presubmit true
       else if bool_decide (modifier = ModifierHidden)
       then Presubmit.withJobBase (Presubmit.withSkipReport presubmit true)
              (JobBase.withReporterConfig (Presubmit.JobBase presubmit)
                 (Some (ReporterConfig.mk
                          (Some (SlackReporterConfig.mk "" (Some []) None)))))
       else if bool_decide (modifier = ModifierPresubmitSkipped)
       then Presubmit.withAlwaysRun presubmit false
       else presubmit)
    presubmit jobModifiers.

Definition applyModifiersPostsubmit (postsubmit : Postsubmit.t)
    (jobModifiers : list string) : Postsubmit.t :=
  foldl
    (λ postsubmit modifier,
       if bool_decide (modifier = ModifierPresubmitOptional)
       then postsubmit (* Does not exist on postsubmit *)
       else if bool_decide (modifier = ModifierHidden)
       then Postsubmit.withJobBase (Postsubmit.withSkipReport postsubmit true)
              (JobBase.withReporterConfig (Postsubmit.JobBase postsubmit)
                 (Some (ReporterConfig.mk
                          (Some (SlackReporterConfig.mk "" None (Some false))))))
       else postsubmit)
    postsubmit jobModifiers.

(** ** generate.go: matrix expansion *)

(** The bytes of the class [[_a-zA-Z0-9.-]]. *)
Definition isVarChar (c : ascii) : bool :=
  let n := nat_of_ascii c in
  (n =? 95)%nat || ((97 <=? n)%nat && (n <=? 122)%nat) ||
  ((65 <=? n)%nat && (n <=? 90)%nat) || ((48 <=? n)%nat && (n <=? 57)%nat) ||
  (n =? 46)%nat || (n =? 45)%nat.

(** The longest run of class bytes at the head of [s], and the rest. *)
Fixpoint spanVarChars (s : string) : string * string :=
  match s with
  | String c rest =>
      if isVarChar c
      then let '(run, tail) := spanVarChars rest in (String c run, tail)
      else ("", s)
  | EmptyString => ("", "")
  end.

(** A match of [variableSubstitutionFormat],
    [\$\([_a-zA-Z0-9.-]+(\.[_a-zA-Z0-9.-]+)*\)], at the head of [s].  The
    dot is in the class, so the pattern matches a dollar sign, an opening
    parenthesis, one or more class bytes and a closing parenthesis; the
    closing parenthesis is not in the class, so the class bytes of a match
    are the whole run. *)
Definition matchVariableAt (s : string) : option string :=
  if strings.HasPrefix s "$("
  then
    match spanVarChars (strings.sliceFrom 2 s) with
    | (String c run, tail) =>
        if strings.HasPrefix tail ")"
        then Some ("$(" +:+ String c run +:+ ")")
        else None
    | (EmptyString, _) => None
    end
  else None.

(** [variableSubstitutionRegex.FindAllString(s, -1)]: the matches from
    left to right, each search starting where the last match ended. *)
Fixpoint findAllFrom (skip : nat) (s : string) : list string :=
  match s with
  | EmptyString => []
  | String _ rest =>
      match skip with
      | S skip => findAllFrom skip rest
      | O =>
          match matchVariableAt s with
          | Some m => m :: findAllFrom (String.length m - 1) rest
          | None => findAllFrom 0 rest
          end
      end
  end.

Definition FindAllString (s : string) : list string := findAllFrom 0 s.

Definition stripVarSubExpression (expression : string) : string :=
  strings.TrimSuffix (strings.TrimPrefix expression "$(") ")".

Definition validateString (value : string) : list string :=
  let expressions := FindAllString value in
  fst
    (foldl
       (λ '(result, set) expression,
          let expression := stripVarSubExpression expression in
          match (set : gmap string bool) !! expression with
          | None => ((result ++ [expression])%list, <[expression := true]> set)
          | Some _ => (result, set)
          end)
       ([], ∅) expressions).

(** getVarSubstitutionExpressions extracts all the value between "$(" and
    ")" *)
Definition getVarSubstitutionExpressions (yamlStr : string) : list string :=
  validateString yamlStr.

Definition replace (str expKey expVal : string) : string :=
  strings.ReplaceAll str ("$(matrix." +:+ expKey +:+ ")") expVal.

(** [resolveCombinations(combs, dest, start, matrix, res)]: the first
    argument here is [combs[start:]], and the result is what [*res] holds
    when the call returns. *)
Fixpoint resolveCombinations (combs : list string) (dest : string)
    (matrix : gmap string (list string)) (res : list string) : list string :=
  match combs with
  | [] => (res ++ [dest])%list
  | comb :: remaining =>
      let lst := default [] (matrix !! comb) in
      foldl (λ res value,
               let dest := replace dest comb value in
               resolveCombinations remaining dest matrix res)
        res lst
  end.

Definition applyMatrix (yamlStr : string) (matrix : gmap string (list string))
    : outcome (list string) :=
  let subsExps := getVarSubstitutionExpressions yamlStr in
  if (length subsExps =? 0)%nat then Returned [yamlStr]
  else
    combs ←
      forEach
        (λ combs exp,
           if strings.HasPrefix exp "matrix."
           then
             let exp := strings.TrimPrefix exp "matrix." in
             match matrix !! exp with
             | Some _ => Returned (combs ++ [exp])%list
             | None =>
                 Exited exp ["dimension is not configured in the matrix"]
             end
           else Returned combs)
        [] subsExps;
    Returned (resolveCombinations combs yamlStr matrix []).

Definition applyMatrixJob `{External} (job : Job.t)
    (matrix : gmap string (list string)) : outcome (list Job.t) :=
  let yamlStr := yamlMarshal job in
  expandedYamlStr ← applyMatrix yamlStr matrix;
  forEach
    (λ jobs jobYaml,
       match yamlUnmarshal jobYaml with
       | inl job => Returned (jobs ++ [job])%list
       | inr err => Exited "failed to unmarshal the yaml to Job" [err]
       end)
    [] expandedYamlStr.

(** mergeMaps will merge multiple maps into one.
    If there are duplicated keys in the maps, the value in the later maps
    will overwrite that of the previous ones. *)
Definition mergeMaps (mps : list (gmap string string)) : gmap string string :=
  foldl (λ newMap mp, map_fold (λ k v newMap, <[k := v]> newMap) newMap mp)
    ∅ mps.

(** ** generate.go: materialization

    The expanded job is handled through a pointer, and [createJobBase]
    hands the job's own label and annotation maps to the job base.  A
    write to the base's map is therefore a write to the job's map, unless
    the job had no map (the base then gets a fresh one) or the base's map
    was replaced.  Each of the three blocks below returns the job as it
    is after the block, next to what the block materializes. *)

(** What the job's own map holds after a block, given what the job base's
    map holds: the same when the two are one map. *)
Definition writtenThrough (own final : gmap string string) (shared : bool)
    : gmap string string :=
  if shared && negb (size own =? 0)%nat then final else own.

Definition afterBlock (job : Job.t) (jb : JobBase.t)
    (annotationsShared : bool) : Job.t :=
  let common := Job.CommonConfig job in
  Job.withCommonConfig job
    (CommonConfig.mk
       (CommonConfig.GCSLogBucket common)
       (CommonConfig.TerminationGracePeriodSeconds common)
       (CommonConfig.Interval common) (CommonConfig.Cron common)
       (CommonConfig.Cluster common) (CommonConfig.NodeSelector common)
       (writtenThrough (CommonConfig.Annotations common)
          (JobBase.Annotations jb) annotationsShared)
       (writtenThrough (CommonConfig.Labels common) (JobBase.Labels jb) true)
       (CommonConfig.ResourcePresets common)
       (CommonConfig.RequirementPresets common)
       (CommonConfig.Requirements common)
       (CommonConfig.ExcludedRequirements common) (CommonConfig.Env common)
       (CommonConfig.Image common) (CommonConfig.ImagePullPolicy common)
       (CommonConfig.ImagePullSecrets common)
       (CommonConfig.ServiceAccountName common) (CommonConfig.Regex common)
       (CommonConfig.Trigger common) (CommonConfig.Timeout common)
       (CommonConfig.MaxConcurrency common) (CommonConfig.Resources common)
       (CommonConfig.Modifiers common)).

(** [testgridJobPrefix] *)
Definition testgridJobPrefixOf (jobsConfig : JobsConfig.t) (branch : string)
    : string :=
  let testgridJobPrefix := JobsConfig.Org jobsConfig in
  let testgridJobPrefix :=
    if negb (bool_decide (branch = "master"))
    then testgridJobPrefix +:+ "_" +:+ branch else testgridJobPrefix in
  testgridJobPrefix +:+ "_" +:+ JobsConfig.Repo jobsConfig.

(** [if cond { x = change(x) }] *)
Definition when {A} (cond : bool) (change : A → A) (x : A) : A :=
  if cond then change x else x.

(** [if v, ok := m[k]; ok { x = change(v, x) }] *)
Definition whenFound {A V} (found : option V) (change : V → A → A) (x : A) : A :=
  match found with
  | Some v => change v x
  | None => x
  end.

(** [jb.Labels[key] = value] *)
Definition setLabel (key value : string) (jb : JobBase.t) : JobBase.t :=
  JobBase.withLabels jb (<[key := value]> (JobBase.Labels jb)).

(** [jb.UtilityConfig.PathAlias = fmt.Sprintf("%s/%s", pa, repo)] *)
Definition setPathAlias (repo pa : string) (jb : JobBase.t) : JobBase.t :=
  JobBase.withPathAlias jb (pa +:+ "/" +:+ repo).

(** [jb.Annotations = mergeMaps(jb.Annotations, injected)] *)
Definition injectAnnotations (injected : gmap string string) (jb : JobBase.t)
    : JobBase.t :=
  JobBase.withAnnotations jb (mergeMaps [JobBase.Annotations jb; injected]).

(** The annotations injected into a postsubmit ([suffix] is
    ["_postsubmit"]) and into a periodic ([suffix] is ["_periodic"]). *)
Definition alertingAnnotations (testgridConfig : TestgridConfig.t)
    (testgridJobPrefix suffix : string) : gmap string string :=
  <[TestGridDashboard := testgridJobPrefix +:+ suffix]>
    (<[TestGridAlertEmail := TestgridConfig.AlertEmail testgridConfig]>
       {[TestGridNumFailures :=
           TestgridConfig.NumFailuresToAlert testgridConfig]}).

Definition onPresubmitBase (change : JobBase.t → JobBase.t) (p : Presubmit.t)
    : Presubmit.t :=
  Presubmit.withJobBase p (change (Presubmit.JobBase p)).

Definition onPostsubmitBase (change : JobBase.t → JobBase.t)
    (p : Postsubmit.t) : Postsubmit.t :=
  Postsubmit.withJobBase p (change (Postsubmit.JobBase p)).

Definition onPeriodicBase (change : JobBase.t → JobBase.t) (p : Periodic.t)
    : Periodic.t :=
  Periodic.withJobBase p (change (Periodic.JobBase p)).

(** The block under
    [if len(job.Types) == 0 || sets.NewString(job.Types...).Has(TypePresubmit)]. *)
Definition convertPresubmit `{External} (cli : Client.t)
    (jobsConfig : JobsConfig.t) (branch : string) (job : Job.t)
    : outcome (Presubmit.t * Job.t) :=
  let baseConfig := Client.BaseConfig cli in
  let testgridConfig := BaseConfig.TestgridConfig baseConfig in
  let common := Job.CommonConfig job in
  let testgridJobPrefix := testgridJobPrefixOf jobsConfig branch in
  let name := Job.Name job +:+ "_" +:+ JobsConfig.Repo jobsConfig in
  let name :=
    when (negb (bool_decide (branch = "master")))
      (λ name, name +:+ "_" +:+ branch) name in
  base ← createJobBase cli baseConfig jobsConfig job name branch
           (CommonConfig.ResourcePresets (JobsConfig.CommonConfig jobsConfig));
  let presubmit :=
    Presubmit.mk base true false "" ["^" +:+ branch +:+ "$"] "" false in
  let presubmit :=
    when (negb (bool_decide (Job.GerritPresubmitLabel job = "")))
      (onPresubmitBase
         (setLabel GerritReportLabel (Job.GerritPresubmitLabel job)))
      presubmit in
  let presubmit :=
    whenFound
      (BaseConfig.PathAliases baseConfig !! JobsConfig.Org jobsConfig)
      (λ pa, onPresubmitBase (setPathAlias (JobsConfig.Repo jobsConfig) pa))
      presubmit in
  let presubmit :=
    when (negb (bool_decide (CommonConfig.Regex common = "")))
      (λ presubmit,
         Presubmit.withAlwaysRun
           (Presubmit.withRunIfChanged presubmit (CommonConfig.Regex common))
           false)
      presubmit in
  let presubmit :=
    when (negb (bool_decide (CommonConfig.Trigger common = "")))
      (λ presubmit,
         let defaultTrigger :=
           DefaultTriggerFor (JobBase.Name (Presubmit.JobBase presubmit)) in
         (* Match the default trigger + the new trigger. *)
         Presubmit.withTrigger presubmit
           ("(" +:+ defaultTrigger +:+ ")|((?m)^" +:+
            CommonConfig.Trigger common +:+ "(\s+|$))"))
      presubmit in
  let presubmit :=
    when (TestgridConfig.Enabled testgridConfig)
      (onPresubmitBase
         (injectAnnotations {[TestGridDashboard := testgridJobPrefix]}))
      presubmit in
  let presubmit :=
    applyModifiersPresubmit presubmit (CommonConfig.Modifiers common) in
  jb ← applyRequirements (Presubmit.JobBase presubmit)
         (CommonConfig.Requirements common)
         (CommonConfig.ExcludedRequirements common)
         (CommonConfig.RequirementPresets (JobsConfig.CommonConfig jobsConfig));
  Returned
    (Presubmit.withJobBase presubmit jb,
     afterBlock job jb (negb (TestgridConfig.Enabled testgridConfig))).

(** The block under
    [if len(job.Types) == 0 || sets.NewString(job.Types...).Has(TypePostsubmit)]. *)
Definition convertPostsubmit `{External} (cli : Client.t)
    (jobsConfig : JobsConfig.t) (branch : string) (job : Job.t)
    : outcome (Postsubmit.t * Job.t) :=
  let baseConfig := Client.BaseConfig cli in
  let testgridConfig := BaseConfig.TestgridConfig baseConfig in
  let common := Job.CommonConfig job in
  let testgridJobPrefix := testgridJobPrefixOf jobsConfig branch in
  let name := Job.Name job +:+ "_" +:+ JobsConfig.Repo jobsConfig in
  let name :=
    when (negb (bool_decide (branch = "master")))
      (λ name, name +:+ "_" +:+ branch) name in
  let name := name +:+ "_postsubmit" in
  base ← createJobBase cli baseConfig jobsConfig job name branch
           (CommonConfig.ResourcePresets (JobsConfig.CommonConfig jobsConfig));
  let postsubmit := Postsubmit.mk base ["^" +:+ branch +:+ "$"] "" false in
  let postsubmit :=
    when (negb (bool_decide (Job.GerritPostsubmitLabel job = "")))
      (onPostsubmitBase
         (setLabel GerritReportLabel (Job.GerritPostsubmitLabel job)))
      postsubmit in
  let postsubmit :=
    whenFound
      (BaseConfig.PathAliases baseConfig !! JobsConfig.Org jobsConfig)
      (λ pa, onPostsubmitBase (setPathAlias (JobsConfig.Repo jobsConfig) pa))
      postsubmit in
  let postsubmit :=
    when (negb (bool_decide (CommonConfig.Regex common = "")))
      (λ postsubmit,
         Postsubmit.withRunIfChanged postsubmit (CommonConfig.Regex common))
      postsubmit in
  let postsubmit :=
    when (TestgridConfig.Enabled testgridConfig)
      (onPostsubmitBase
         (injectAnnotations
            (alertingAnnotations testgridConfig testgridJobPrefix
               "_postsubmit")))
      postsubmit in
  let postsubmit :=
    applyModifiersPostsubmit postsubmit (CommonConfig.Modifiers common) in
  jb ← applyRequirements (Postsubmit.JobBase postsubmit)
         (CommonConfig.Requirements common)
         (CommonConfig.ExcludedRequirements common)
         (CommonConfig.RequirementPresets (JobsConfig.CommonConfig jobsConfig));
  Returned
    (Postsubmit.withJobBase postsubmit jb,
     afterBlock job jb (negb (TestgridConfig.Enabled testgridConfig))).

(** The block under [if sets.NewString(job.Types...).Has(TypePeriodic)]. *)
Definition convertPeriodic `{External} (cli : Client.t)
    (jobsConfig : JobsConfig.t) (branch : string) (job : Job.t)
    : outcome (Periodic.t * Job.t) :=
  let baseConfig := Client.BaseConfig cli in
  let testgridConfig := BaseConfig.TestgridConfig baseConfig in
  let testgridJobPrefix := testgridJobPrefixOf jobsConfig branch in
  let name := Job.Name job +:+ "_" +:+ JobsConfig.Repo jobsConfig in
  let name :=
    when (negb (bool_decide (branch = "master")))
      (λ name, name +:+ "_" +:+ branch) name in
  let name := name +:+ "_periodic" in
  (* For periodic jobs, the repo needs to be added to the clonerefs and its
     root directory should be set as the working directory, so add itself
     to the repo list here. *)
  let job :=
    Job.withRepos job
      ([JobsConfig.Org jobsConfig +:+ "/" +:+ JobsConfig.Repo jobsConfig]
       ++ Job.Repos job)%list in
  let common := Job.CommonConfig job in
  base ← createJobBase cli baseConfig jobsConfig job name branch
           (CommonConfig.ResourcePresets (JobsConfig.CommonConfig jobsConfig));
  let periodic :=
    Periodic.mk base (CommonConfig.Interval common) (CommonConfig.Cron common)
      (Job.Tags job) in
  let periodic :=
    when (TestgridConfig.Enabled testgridConfig)
      (onPeriodicBase
         (injectAnnotations
            (alertingAnnotations testgridConfig testgridJobPrefix
               "_periodic")))
      periodic in
  jb ← applyRequirements (Periodic.JobBase periodic)
         (CommonConfig.Requirements common)
         (CommonConfig.ExcludedRequirements common)
         (CommonConfig.RequirementPresets (JobsConfig.CommonConfig jobsConfig));
  Returned
    (Periodic.withJobBase periodic jb,
     afterBlock job jb (negb (TestgridConfig.Enabled testgridConfig))).

(** What [ConvertJobConfig] has collected so far. *)
Module Collected.
Record t := mk {
  presubmits : list Presubmit.t;
  postsubmits : list Postsubmit.t;
  periodics : list Periodic.t
}.
End Collected.

(** The body of the loop over [expandedJobs]. *)
Definition convertExpandedJob `{External} (cli : Client.t)
    (jobsConfig : JobsConfig.t) (branch : string) (acc : Collected.t)
    (job : Job.t) : outcome Collected.t :=
  '(presubmits, job) ←
    (if (length (Job.Types job) =? 0)%nat ||
        sets.Has (sets.NewString (Job.Types job)) TypePresubmit
     then
       '(presubmit, job) ← convertPresubmit cli jobsConfig branch job;
       Returned ((Collected.presubmits acc ++ [presubmit])%list, job)
     else Returned (Collected.presubmits acc, job));
  '(postsubmits, job) ←
    (if (length (Job.Types job) =? 0)%nat ||
        sets.Has (sets.NewString (Job.Types job)) TypePostsubmit
     then
       '(postsubmit, job) ← convertPostsubmit cli jobsConfig branch job;
       Returned ((Collected.postsubmits acc ++ [postsubmit])%list, job)
     else Returned (Collected.postsubmits acc, job));
  periodics ←
    (if sets.Has (sets.NewString (Job.Types job)) TypePeriodic
     then
       '(periodic, _) ← convertPeriodic cli jobsConfig branch job;
       Returned (Collected.periodics acc ++ [periodic])%list
     else Returned (Collected.periodics acc));
  Returned (Collected.mk presubmits postsubmits periodics).

(** The body of the loop over [jobsConfig.Jobs]. *)
Definition convertParentJob `{External} (cli : Client.t)
    (jobsConfig : JobsConfig.t) (branch : string)
    (state : Collected.t * JobConfig.t) (parentJob : Job.t)
    : outcome (Collected.t * JobConfig.t) :=
  let '(acc, output) := state in
  expandedJobs ← applyMatrixJob parentJob (JobsConfig.Matrix jobsConfig);
  acc ← forEach (convertExpandedJob cli jobsConfig branch) acc expandedJobs;
  let key :=
    JobsConfig.Org jobsConfig +:+ "/" +:+ JobsConfig.Repo jobsConfig in
  let presubmitsStatic :=
    if (0 <? length (Collected.presubmits acc))%nat
    then <[key := Collected.presubmits acc]> (JobConfig.PresubmitsStatic output)
    else JobConfig.PresubmitsStatic output in
  let postsubmitsStatic :=
    if (0 <? length (Collected.postsubmits acc))%nat
    then <[key := Collected.postsubmits acc]>
           (JobConfig.PostsubmitsStatic output)
    else JobConfig.PostsubmitsStatic output in
  let periodics :=
    if (0 <? length (Collected.periodics acc))%nat
    then Collected.periodics acc else JobConfig.Periodics output in
  Returned (acc, JobConfig.mk presubmitsStatic postsubmitsStatic periodics).

Definition ConvertJobConfig `{External} (cli : Client.t)
    (jobsConfig : JobsConfig.t) (branch : string) : outcome JobConfig.t :=
  '(_, output) ←
    forEach (convertParentJob cli jobsConfig branch)
      (Collected.mk [] [] [], JobConfig.zero) (JobsConfig.Jobs jobsConfig);
  Returned output.

(** ** The generator after its split into packages

    In this evolution the catalog types live in package [spec] and the
    modifier, requirement, resource and variable handling in package
    [decorator]; neither package is among the sources.  What follows is
    the part of [ConvertJobConfig] and [validateJobsConfig] that is
    written out in the generator itself. *)
Module Refactored.

Definition ArchAMD64 : string := "amd64".
Definition ArchARM64 : string := "arm64".

(** [spec.Job] as far as [validateJobsConfig] reads it: the fields of
    [Job], and the architectures. *)
Module SpecJob.
Record t := mk {
  Base : Job.t;
  Architectures : list string
}.
End SpecJob.

(** [validate(input, options, description)] with [options] a
    [sets.String]; [options] is the set in the order of [options.List()]. *)
Definition validate (input : string) (options : list string)
    (description : string) : option string :=
  if negb (sets.Has (sets.NewString options) input)
  then Some ("'" +:+ input +:+ "' is not a valid " +:+ description +:+
             ". Must be one of " +:+ strings.Join options ", ")
  else None.

Definition appendInvalid (options : list string) (description : string)
    (err : list string) (input : string) : list string :=
  match validate input options description with
  | Some e => multierror.Append err e
  | None => err
  end.

(** The body of the loop over [jobsConfig.Jobs] in [validateJobsConfig]. *)
Definition validateJob `{External} (fileName : string) (org : string)
    (resourcePresets : gmap string ResourceRequirements.t)
    (err : list string) (job : SpecJob.t) : list string :=
  let base := SpecJob.Base job in
  let common := Job.CommonConfig base in
  let err :=
    if bool_decide (org = "istio") || bool_decide (org = "istio-private")
    then
      (* Some other orgs may have other naming conventions, but for Istio
         we use _ as divider between job name, repo, and type. So exclude
         it from the name. *)
      if strings.Contains (Job.Name base) "_"
      then multierror.Append err
             (fileName +:+ ": job may not contain '_' " +:+ Job.Name base)
      else err
    else err in
  let err :=
    if bool_decide (CommonConfig.Image common = "")
    then multierror.Append err
           (fileName +:+ ": image must be set for job " +:+ Job.Name base)
    else err in
  let err :=
    if negb (bool_decide (CommonConfig.Resources common = ""))
    then match resourcePresets !! CommonConfig.Resources common with
         | None =>
             multierror.Append err
               (fileName +:+ ": job '" +:+ Job.Name base +:+
                "' has nonexistant resource '" +:+
                CommonConfig.Resources common +:+ "'")
         | Some _ => err
         end
    else err in
  let err :=
    if sets.Has (sets.NewString (Job.Types base)) TypePeriodic
    then validatePeriodic fileName base err
    else err in
  let err :=
    foldl (appendInvalid [TypePeriodic; TypePostsubmit; TypePresubmit] "type")
      err (Job.Types base) in
  let err :=
    foldl (appendInvalid [ArchAMD64; ArchARM64; TypePeriodic] "architectures")
      err (SpecJob.Architectures job) in
  let err :=
    foldl
      (λ err repo,
         if negb (length (strings.Split repo "/") =? 2)%nat
         then multierror.Append err
                (fileName +:+ ": repo " +:+ repo +:+
                 " not valid, should take form org/repo")
         else err)
      err (Job.Repos base) in
  err.

(** [validateJobsConfig] returns the multi-error; [[]] is [nil]. *)
Definition validateJobsConfig `{External} (fileName : string)
    (org repo : string)
    (resourcePresets : gmap string ResourceRequirements.t)
    (jobs : list SpecJob.t) : list string :=
  let err := [] in
  let err :=
    if bool_decide (org = "")
    then multierror.Append err (fileName +:+ ": org must be set") else err in
  let err :=
    if bool_decide (repo = "")
    then multierror.Append err (fileName +:+ ": repo must be set") else err in
  foldl (validateJob fileName org resourcePresets) err jobs.

(** The [triggers] of the presubmit block, joined. *)
Definition presubmitTrigger `{External} (job : SpecJob.t) (name : string)
    : string :=
  let base := SpecJob.Base job in
  let triggers :=
    [ (* Allow "/test job" *)
      "(" +:+ DefaultTriggerFor (Job.Name base) +:+ ")";
      (* Allow "/test job_repo_branch" *)
      "(" +:+ DefaultTriggerFor name +:+ ")" ] in
  let triggers :=
    if negb (bool_decide
               (CommonConfig.Trigger (Job.CommonConfig base) = ""))
    then (* Allow custom trigger *)
      (triggers ++
       ["((?m)^" +:+ CommonConfig.Trigger (Job.CommonConfig base)
        +:+ "(\s+|$))"])%list
    else triggers in
  strings.Join triggers "|".

(** [mergo.Merge(&jobBase.Annotations, injected)], called without
    options.  The map merged into is the job base's, which
    [createJobBase] has made non-nil. *)
Definition mergeAnnotations (annotations injected : gmap string string)
    : gmap string string :=
  mergo.mergeMap mergo.noOptions annotations injected.

Definition presubmitAnnotations (testgridConfig : TestgridConfig.t)
    (testgridJobPrefix : string) (annotations : gmap string string)
    : gmap string string :=
  if TestgridConfig.Enabled testgridConfig
  then mergeAnnotations annotations {[TestGridDashboard := testgridJobPrefix]}
  else annotations.

(** The injection of the postsubmit ([suffix] is ["_postsubmit"]) and of
    the periodic block ([suffix] is ["_periodic"]). *)
Definition alertedAnnotations (testgridConfig : TestgridConfig.t)
    (testgridJobPrefix suffix : string) (annotations : gmap string string)
    : gmap string string :=
  if TestgridConfig.Enabled testgridConfig
  then mergeAnnotations annotations
         (<[TestGridDashboard := testgridJobPrefix +:+ suffix]>
            (<[TestGridAlertEmail := TestgridConfig.AlertEmail testgridConfig]>
               {[TestGridNumFailures :=
                   TestgridConfig.NumFailuresToAlert testgridConfig]}))
  else annotations.

End Refactored.

(** ** The first generator (package [config]) *)
Module Legacy.

Definition BuilderImage : string :=
  "gcr.io/istio-testing/istio-builder:v20190807-7d818206".

Module Job.
Record t := mk {
  Name : string;
  PostsubmitName : string;
  Command : list string;
  Env : list EnvVar.t;
  Resources : string;
  Modifiers : list string;
  Requirements : list string;
  Type_ : string;
  Timeout : option Z;
  Repos : list string
}.
End Job.

Definition createContainer (job : Job.t)
    (resources : gmap string ResourceRequirements.t) : list Container.t :=
  let c :=
    Container.mk BuilderImage (Some true) (Job.Command job) [] (Job.Env job)
      "" ResourceRequirements.zero in
  let resource := DefaultResource in
  let resource :=
    if negb (bool_decide (Job.Resources job = "")) then Job.Resources job
    else resource in
  (* indexing a map with a key it does not have gives the zero value *)
  let c :=
    Container.withResources c
      (default ResourceRequirements.zero (resources !! resource)) in
  [c].

End Legacy.

(** ** The validation rules, as the specification words them

    Each function lists the violations of one rule, as the messages the
    validator words them. *)
Module Rules.

Definition invalidOption (options : list string) (description input : string)
    : string :=
  "'" +:+ input +:+ "' is not a valid " +:+ description +:+
  ". Must be one of " +:+ strings.Join options ", ".

(** The values of [inputs] that are not drawn from [options]. *)
Definition notDrawnFrom (options : list string) (description : string)
    (inputs : list string) : list string :=
  invalidOption options description <$> filter (λ input, input ∉ options) inputs.

(** organization and repository name must be non-empty *)
Definition orgUnset (fileName : string) (jobsConfig : JobsConfig.t)
    : list string :=
  if decide (JobsConfig.Org jobsConfig = "")
  then [fileName +:+ ": org must be set"] else [].

Definition repoUnset (fileName : string) (jobsConfig : JobsConfig.t)
    : list string :=
  if decide (JobsConfig.Repo jobsConfig = "")
  then [fileName +:+ ": repo must be set"] else [].

(** every job must declare a non-empty image reference *)
Definition imageUnset (fileName : string) (job : Job.t) : list string :=
  if decide (CommonConfig.Image (Job.CommonConfig job) = "")
  then [fileName +:+ ": image must be set for job " +:+ Job.Name job]
  else [].

(** a job's resource-preset reference, if set, must exist in the
    repository's preset table *)
Definition unknownResources (fileName : string)
    (resourcePresets : gmap string ResourceRequirements.t) (job : Job.t)
    : list string :=
  let resources := CommonConfig.Resources (Job.CommonConfig job) in
  if decide (resources ≠ "" ∧ resourcePresets !! resources = None)
  then [fileName +:+ ": job '" +:+ Job.Name job +:+
        "' has nonexistant resource '" +:+ resources +:+ "'"]
  else [].

(** a job's modifier tags must be drawn from a fixed enumerated set *)
Definition invalidModifiers (job : Job.t) : list string :=
  notDrawnFrom
    [ModifierHidden; ModifierPresubmitOptional; ModifierPresubmitSkipped]
    "status" (CommonConfig.Modifiers (Job.CommonConfig job)).

(** a job's declared types must be drawn from presubmit, postsubmit and
    periodic *)
Definition invalidTypes (job : Job.t) : list string :=
  notDrawnFrom [TypePostsubmit; TypePresubmit; TypePeriodic] "type"
    (Job.Types job).

(** a periodic job must declare exactly one of cron expression and
    interval, never both, never neither; a declared cron expression must
    parse, a declared interval must parse as a duration *)
Definition invalidSchedule `{External} (fileName : string) (job : Job.t)
    : list string :=
  let cron := CommonConfig.Cron (Job.CommonConfig job) in
  let interval := CommonConfig.Interval (Job.CommonConfig job) in
  if decide (TypePeriodic ∈ Job.Types job) then
    match decide (cron = ""), decide (interval = "") with
    | right _, right _ =>
        [fileName +:+ ": cron and interval cannot be both set in periodic "
         +:+ Job.Name job]
    | left _, left _ =>
        [fileName +:+ ": cron and interval cannot be both empty in periodic "
         +:+ Job.Name job]
    | right _, left _ =>
        match cronParse cron with
        | Some e =>
            [fileName +:+ ": invalid cron string " +:+ cron +:+
             " in periodic " +:+ Job.Name job +:+ ": " +:+ e]
        | None => []
        end
    | left _, right _ =>
        match ParseDuration interval with
        | Some e =>
            [fileName +:+ ": cannot parse duration " +:+ interval +:+
             " in periodic " +:+ Job.Name job +:+ ": " +:+ e]
        | None => []
        end
    end
  else [].

(** The number of slashes in [s]. *)
Fixpoint slashes (s : string) : nat :=
  match s with
  | EmptyString => 0
  | String c rest => (if Ascii.eqb c "/" then 1 else 0) + slashes rest
  end.

(** every extra-repository reference must have the form
    organization/repository: one slash *)
Definition malformedRepos (fileName : string) (job : Job.t) : list string :=
  (λ repo, fileName +:+ ": repo " +:+ repo +:+
           " not valid, should take form org/repo")
  <$> filter (λ repo, slashes repo ≠ 1) (Job.Repos job).

Definition ofJob `{External} (fileName : string) (jobsConfig : JobsConfig.t)
    (job : Job.t) : list string :=
  (imageUnset fileName job ++
   unknownResources fileName
     (CommonConfig.ResourcePresets (JobsConfig.CommonConfig jobsConfig)) job ++
   invalidModifiers job ++ invalidSchedule fileName job ++ invalidTypes job ++
   malformedRepos fileName job)%list.

(** All violations of a catalog: those of the catalog itself, then those
    of each job in turn. *)
Definition ofCatalog `{External} (fileName : string) (jobsConfig : JobsConfig.t)
    : list string :=
  (orgUnset fileName jobsConfig ++ repoUnset fileName jobsConfig ++
   flat_map (ofJob fileName jobsConfig) (JobsConfig.Jobs jobsConfig))%list.

(** How many rules a catalog breaks, each broken rule counted once for
    each value that breaks it. *)
Definition count `{External} (fileName : string) (jobsConfig : JobsConfig.t)
    : nat :=
  length (orgUnset fileName jobsConfig) +
  length (repoUnset fileName jobsConfig) +
  sum_list
    ((λ job,
        length (imageUnset fileName job) +
        length (unknownResources fileName
                  (CommonConfig.ResourcePresets
                     (JobsConfig.CommonConfig jobsConfig)) job) +
        length (invalidModifiers job) +
        length (invalidSchedule fileName job) +
        length (invalidTypes job) +
        length (malformedRepos fileName job))
     <$> JobsConfig.Jobs jobsConfig).

End Rules.

(** The rules [Refactored.validateJobsConfig] checks, as the specification words
    them. *)
Module RefactoredRules.

(** for the istio organizations, the underscore divides job name,
    repository and type, and may not be part of the job name *)
Definition underscoreInName (fileName org : string) (job : Refactored.SpecJob.t)
    : list string :=
  if decide ((org = "istio" ∨ org = "istio-private") ∧
             strings.Contains (Job.Name (Refactored.SpecJob.Base job)) "_" = true)
  then [fileName +:+ ": job may not contain '_' " +:+
        Job.Name (Refactored.SpecJob.Base job)]
  else [].

Definition invalidTypes (job : Refactored.SpecJob.t) : list string :=
  Rules.notDrawnFrom [TypePeriodic; TypePostsubmit; TypePresubmit] "type"
    (Job.Types (Refactored.SpecJob.Base job)).

(** a job's declared architectures must be drawn from a fixed enumerated
    set *)
Definition invalidArchitectures (job : Refactored.SpecJob.t) : list string :=
  Rules.notDrawnFrom [Refactored.ArchAMD64; Refactored.ArchARM64; TypePeriodic] "architectures"
    (Refactored.SpecJob.Architectures job).

Definition ofJob `{External} (fileName org : string)
    (resourcePresets : gmap string ResourceRequirements.t) (job : Refactored.SpecJob.t)
    : list string :=
  (underscoreInName fileName org job ++
   Rules.imageUnset fileName (Refactored.SpecJob.Base job) ++
   Rules.unknownResources fileName resourcePresets (Refactored.SpecJob.Base job) ++
   Rules.invalidSchedule fileName (Refactored.SpecJob.Base job) ++
   invalidTypes job ++ invalidArchitectures job ++
   Rules.malformedRepos fileName (Refactored.SpecJob.Base job))%list.

Definition ofCatalog `{External} (fileName org repo : string)
    (resourcePresets : gmap string ResourceRequirements.t)
    (jobs : list Refactored.SpecJob.t) : list string :=
  ((if decide (org = "") then [fileName +:+ ": org must be set"] else []) ++
   (if decide (repo = "") then [fileName +:+ ": repo must be set"] else []) ++
   flat_map (ofJob fileName org resourcePresets) jobs)%list.

End RefactoredRules.

(** ** Job names *)

(** The name the three blocks of [ConvertJobConfig] compute: the job's
    name and the repository, the branch unless it is [master], and the
    suffix of the kind of job. *)
Definition materializedName (job : Job.t) (jobsConfig : JobsConfig.t)
    (branch suffix : string) : string :=
  when (negb (bool_decide (branch = "master")))
    (λ name, name +:+ "_" +:+ branch)
    (Job.Name job +:+ "_" +:+ JobsConfig.Repo jobsConfig) +:+ suffix.

(** ** Sample collaborators

    Simple stand-ins for the external functions, to run the generator on
    sample catalogs: a job is marshalled to its name alone, a cron
    expression is accepted when it has five or six fields or starts with
    [@], a duration when it ends in a unit, the default trigger is the
    one of prow, and a requirement preset adds its labels and
    annotations. *)
Module Sample.

Definition emptyJob (name : string) : Job.t :=
  Job.mk CommonConfig.zero false name [] [] [] [] [] "" "" None.

Definition marshal (job : Job.t) : string := "name: " +:+ Job.Name job.

Definition unmarshal (text : string) : Job.t + string :=
  if strings.HasPrefix text "name: "
  then inl (emptyJob (strings.TrimPrefix text "name: "))
  else inr "yaml: unmarshal errors".

Definition cron (expression : string) : option string :=
  let fields := length (String.words expression) in
  if strings.HasPrefix expression "@" || (fields =? 5)%nat || (fields =? 6)%nat
  then None else Some "Expected 5 or 6 fields".

Definition duration (text : string) : option string :=
  if strings.HasSuffix text "s" || strings.HasSuffix text "m" ||
     strings.HasSuffix text "h"
  then None else Some "time: invalid duration".

Definition defaultTrigger (name : string) : string :=
  "(?m)^/test( | .* )" +:+ name +:+ ",?($|\s.*)".

Definition resolve (annotations labels : gmap string string)
    (spec : option PodSpec.t) (presets : list RequirementPreset.t)
    : gmap string string * gmap string string * option PodSpec.t :=
  (foldl (λ m preset, RequirementPreset.Annotations preset ∪ m) annotations
     presets,
   foldl (λ m preset, RequirementPreset.Labels preset ∪ m) labels presets,
   spec).

Definition collaborators : External :=
  Build_External marshal unmarshal cron duration defaultTrigger resolve.

End Sample.

(** The annotations a block hands to the requirement presets: with
    dashboard integration enabled the job's annotations merged with the
    [injected] ones by [mergeMaps], the job's annotations otherwise. *)
Definition annotationsForPresets (cli : Client.t)
    (injected : gmap string string) (job : Job.t) : gmap string string :=
  if TestgridConfig.Enabled (BaseConfig.TestgridConfig (Client.BaseConfig cli))
  then mergeMaps [CommonConfig.Annotations (Job.CommonConfig job); injected]
  else CommonConfig.Annotations (Job.CommonConfig job).

(** The requirement names a job refers to all name presets of the
    catalog. *)
Definition requirementsKnown (jobsConfig : JobsConfig.t) (job : Job.t) : Prop :=
  ∀ name,
    name ∈ CommonConfig.Requirements (Job.CommonConfig job)
    ∨ name ∈ CommonConfig.ExcludedRequirements (Job.CommonConfig job) →
    is_Some (CommonConfig.RequirementPresets
               (JobsConfig.CommonConfig jobsConfig) !! name).

(** What a call returned, if it did. *)
Definition returned {A} (o : outcome A) : option A :=
  match o with
  | Returned a => Some a
  | _ => None
  end.

(** ** Sample catalogs *)
Module Catalog.

(** A job that sets nothing but a name, an image and its types. *)
Definition job (name image : string) (types : list string) : Job.t :=
  Job.mk
    (CommonConfig.mk "" 0 "" "" "" ∅ ∅ ∅ ∅ ∅ [] [] [] image "" [] "" "" ""
       None 0 "" [])
    false name [] [] [] types [] "" "" None.

Definition withAnnotations (j : Job.t) (annotations : gmap string string)
    : Job.t :=
  let c := Job.CommonConfig j in
  Job.withCommonConfig j
    (CommonConfig.mk (CommonConfig.GCSLogBucket c)
       (CommonConfig.TerminationGracePeriodSeconds c)
       (CommonConfig.Interval c) (CommonConfig.Cron c) (CommonConfig.Cluster c)
       (CommonConfig.NodeSelector c) annotations (CommonConfig.Labels c)
       (CommonConfig.ResourcePresets c) (CommonConfig.RequirementPresets c)
       (CommonConfig.Requirements c) (CommonConfig.ExcludedRequirements c)
       (CommonConfig.Env c) (CommonConfig.Image c)
       (CommonConfig.ImagePullPolicy c) (CommonConfig.ImagePullSecrets c)
       (CommonConfig.ServiceAccountName c) (CommonConfig.Regex c)
       (CommonConfig.Trigger c) (CommonConfig.Timeout c)
       (CommonConfig.MaxConcurrency c) (CommonConfig.Resources c)
       (CommonConfig.Modifiers c)).

Definition withSchedule (j : Job.t) (cron interval : string) : Job.t :=
  let c := Job.CommonConfig j in
  Job.withCommonConfig j
    (CommonConfig.mk (CommonConfig.GCSLogBucket c)
       (CommonConfig.TerminationGracePeriodSeconds c)
       interval cron (CommonConfig.Cluster c)
       (CommonConfig.NodeSelector c) (CommonConfig.Annotations c)
       (CommonConfig.Labels c)
       (CommonConfig.ResourcePresets c) (CommonConfig.RequirementPresets c)
       (CommonConfig.Requirements c) (CommonConfig.ExcludedRequirements c)
       (CommonConfig.Env c) (CommonConfig.Image c)
       (CommonConfig.ImagePullPolicy c) (CommonConfig.ImagePullSecrets c)
       (CommonConfig.ServiceAccountName c) (CommonConfig.Regex c)
       (CommonConfig.Trigger c) (CommonConfig.Timeout c)
       (CommonConfig.MaxConcurrency c) (CommonConfig.Resources c)
       (CommonConfig.Modifiers c)).

Definition withResourcesAndModifiers (j : Job.t) (resources : string)
    (modifiers : list string) : Job.t :=
  let c := Job.CommonConfig j in
  Job.withCommonConfig j
    (CommonConfig.mk (CommonConfig.GCSLogBucket c)
       (CommonConfig.TerminationGracePeriodSeconds c)
       (CommonConfig.Interval c) (CommonConfig.Cron c) (CommonConfig.Cluster c)
       (CommonConfig.NodeSelector c) (CommonConfig.Annotations c)
       (CommonConfig.Labels c)
       (CommonConfig.ResourcePresets c) (CommonConfig.RequirementPresets c)
       (CommonConfig.Requirements c) (CommonConfig.ExcludedRequirements c)
       (CommonConfig.Env c) (CommonConfig.Image c)
       (CommonConfig.ImagePullPolicy c) (CommonConfig.ImagePullSecrets c)
       (CommonConfig.ServiceAccountName c) (CommonConfig.Regex c)
       (CommonConfig.Trigger c) (CommonConfig.Timeout c)
       (CommonConfig.MaxConcurrency c) resources modifiers).

(** The catalog of repository [org/sample] with the given jobs. *)
Definition sample (jobs : list Job.t) : JobsConfig.t :=
  JobsConfig.mk CommonConfig.zero false "sample" "org" "" ["master"] ∅ jobs.

Definition withTrigger (j : Job.t) (trigger : string) : Job.t :=
  let c := Job.CommonConfig j in
  Job.withCommonConfig j
    (CommonConfig.mk (CommonConfig.GCSLogBucket c)
       (CommonConfig.TerminationGracePeriodSeconds c)
       (CommonConfig.Interval c) (CommonConfig.Cron c) (CommonConfig.Cluster c)
       (CommonConfig.NodeSelector c) (CommonConfig.Annotations c)
       (CommonConfig.Labels c)
       (CommonConfig.ResourcePresets c) (CommonConfig.RequirementPresets c)
       (CommonConfig.Requirements c) (CommonConfig.ExcludedRequirements c)
       (CommonConfig.Env c) (CommonConfig.Image c)
       (CommonConfig.ImagePullPolicy c) (CommonConfig.ImagePullSecrets c)
       (CommonConfig.ServiceAccountName c) (CommonConfig.Regex c)
       trigger (CommonConfig.Timeout c)
       (CommonConfig.MaxConcurrency c) (CommonConfig.Resources c)
       (CommonConfig.Modifiers c)).

(** The job [unit] of the specification's end-to-end example. *)
Definition unit : Job.t := job "unit" "img:1" ["presubmit"].

(** [unit] with a dashboard annotation of its own. *)
Definition annotated : Job.t :=
  withAnnotations unit {[TestGridDashboard := "custom"]}.

(** The periodic job of the specification's end-to-end example, with
    the extra repository [other/dep]. *)
Definition nightly : Job.t :=
  Job.withRepos
    (withSchedule (job "nightly" "img:1" ["periodic"]) "0 3 * * *" "")
    ["other/dep"].

(** A job whose name refers to the matrix dimension [arch]. *)
Definition perArch : Job.t := Sample.emptyJob "build-$(matrix.arch)".

(** A client with no path aliases, dashboard integration as given. *)
Definition client (testgrid longJobNamesAllowed : bool) : Client.t :=
  Client.mk
    (BaseConfig.mk CommonConfig.zero "" ∅
       (TestgridConfig.mk testgrid "oncall@example.com" "1"))
    longJobNamesAllowed.

End Catalog.

(** ** Matrix expansion, as the specification words it *)

(** The distinct matrix dimensions a template refers to: for every
    placeholder [$(matrix.<dimension>)] found in the text, the dimension,
    in the order of first appearance. *)
Definition referencedDimensions (yamlStr : string) : list string :=
  (λ exp, strings.TrimPrefix exp "matrix.")
  <$> filter (λ exp, strings.HasPrefix exp "matrix." = true)
        (getVarSubstitutionExpressions yamlStr).

(** [n1 * n2 * ... * nk] for the sizes of the value lists of
    [dimensions]. *)
Definition expansionSize (matrix : gmap string (list string))
    (dimensions : list string) : nat :=
  foldr (λ dimension size, length (default [] (matrix !! dimension)) * size)
    1 dimensions.

(** ** Where a materialized job comes from *)

(** [presubmit] is what the presubmit block makes of some job. *)
Definition presubmitOf `{External} (cli : Client.t) (jobsConfig : JobsConfig.t)
    (branch : string) (presubmit : Presubmit.t) : Prop :=
  ∃ job job',
    convertPresubmit cli jobsConfig branch job = Returned (presubmit, job').

Definition postsubmitOf `{External} (cli : Client.t) (jobsConfig : JobsConfig.t)
    (branch : string) (postsubmit : Postsubmit.t) : Prop :=
  ∃ job job',
    convertPostsubmit cli jobsConfig branch job = Returned (postsubmit, job').

Definition periodicOf `{External} (cli : Client.t) (jobsConfig : JobsConfig.t)
    (branch : string) (periodic : Periodic.t) : Prop :=
  ∃ job job',
    convertPeriodic cli jobsConfig branch job = Returned (periodic, job').

(** All jobs collected so far come from the three blocks. *)
Definition collectedFromBlocks `{External} (cli : Client.t)
    (jobsConfig : JobsConfig.t) (branch : string) (acc : Collected.t) : Prop :=
  Forall (presubmitOf cli jobsConfig branch) (Collected.presubmits acc)
  ∧ Forall (postsubmitOf cli jobsConfig branch) (Collected.postsubmits acc)
  ∧ Forall (periodicOf cli jobsConfig branch) (Collected.periodics acc).

(** All jobs of a generated configuration come from the three blocks. *)
Definition generatedFromBlocks `{External} (cli : Client.t)
    (jobsConfig : JobsConfig.t) (branch : string) (output : JobConfig.t)
    : Prop :=
  (∀ key presubmits,
     JobConfig.PresubmitsStatic output !! key = Some presubmits →
     Forall (presubmitOf cli jobsConfig branch) presubmits)
  ∧ (∀ key postsubmits,
       JobConfig.PostsubmitsStatic output !! key = Some postsubmits →
       Forall (postsubmitOf cli jobsConfig branch) postsubmits)
  ∧ Forall (periodicOf cli jobsConfig branch) (JobConfig.Periodics output).

(** Every byte of [s] is of the class [[_a-zA-Z0-9.-]]. *)
Fixpoint allVarChars (s : string) : bool :=
  match s with
  | EmptyString => true
  | String c rest => isVarChar c && allVarChars rest
  end.

(** The text holds the placeholder [$(matrix.<dimension>)]. *)
Definition holdsPlaceholder (yamlStr dimension : string) : Prop :=
  ∃ before after,
    yamlStr = before +:+ "$(matrix." +:+ dimension +:+ ")" +:+ after.

(** ** generate.go: reading and resolving the configuration files *)

(** [resolveOverwrites]: the catalog's common configuration is merged
    over the base's, and each job's over the catalog's.  The loop writes
    the job back at its index. *)
Definition resolveOverwrites (baseCommonConfig : CommonConfig.t)
    (jobsConfig : JobsConfig.t) : JobsConfig.t :=
  let commonConfig :=
    mergeCommonConfig [baseCommonConfig; JobsConfig.CommonConfig jobsConfig] in
  let jobs :=
    foldl
      (λ jobs i,
         match jobs !! i with
         | Some job =>
             let job :=
               Job.withCommonConfig job
                 (mergeCommonConfig [commonConfig; Job.CommonConfig job]) in
             <[i := job]> jobs
         | None => jobs
         end)
      (JobsConfig.Jobs jobsConfig)
      (seq 0 (length (JobsConfig.Jobs jobsConfig))) in
  JobsConfig.mk commonConfig (JobsConfig.SupportReleaseBranching jobsConfig)
    (JobsConfig.Repo jobsConfig) (JobsConfig.Org jobsConfig)
    (JobsConfig.CloneURI jobsConfig) (JobsConfig.Branches jobsConfig)
    (JobsConfig.Matrix jobsConfig) jobs.

(** FilterReleaseBranchingJobs filters then returns jobs with release
    branching enabled. *)
Definition FilterReleaseBranchingJobs (jobs : list Job.t) : list Job.t :=
  foldl
    (λ jobsF j,
       if Job.DisableReleaseBranching j then jobsF else (jobsF ++ [j])%list)
    [] jobs.

(** The files the generator reads: [ioutil.ReadFile] gives the bytes of
    a file or the text of an error, and the YAML decoder a configuration
    or the text of an error. *)
Class Files := {
  ReadFile : string → string + string;
  unmarshalBaseConfig : string → BaseConfig.t + string;
  unmarshalJobsConfig : string → JobsConfig.t + string
}.

(** [deepCopyBaseConfig], a copy by way of YAML; see
    [deepCopyCommonConfig]. *)
Definition deepCopyBaseConfig (baseConfig : BaseConfig.t) : BaseConfig.t :=
  baseConfig.

(** [ReadBase(baseConfig, file)]; a nil [baseConfig] is [None]. *)
Definition ReadBase `{Files} (baseConfig : option BaseConfig.t) (file : string)
    : outcome BaseConfig.t :=
  match ReadFile file with
  | inr err => Exited ("failed to read " +:+ file) [err]
  | inl yamlFile =>
      match unmarshalBaseConfig yamlFile with
      | inr err => Exited ("failed to unmarshal " +:+ file) [err]
      | inl newBaseConfig =>
          match baseConfig with
          | None => Returned newBaseConfig
          | Some baseConfig =>
              let mergedBaseConfig := deepCopyBaseConfig baseConfig in
              Returned
                (BaseConfig.mk
                   (mergeCommonConfig
                      [BaseConfig.CommonConfig mergedBaseConfig;
                       BaseConfig.CommonConfig newBaseConfig])
                   (BaseConfig.AutogenHeader mergedBaseConfig)
                   (BaseConfig.PathAliases mergedBaseConfig)
                   (BaseConfig.TestgridConfig mergedBaseConfig))
          end
      end
  end.

(** [cli.ReadJobsConfig(file)]: Reads the jobs yaml *)
Definition ReadJobsConfig `{Files} (cli : Client.t) (file : string)
    : outcome JobsConfig.t :=
  match ReadFile file with
  | inr err => Exited ("failed to read " +:+ file) [err]
  | inl yamlFile =>
      match unmarshalJobsConfig yamlFile with
      | inr err => Exited ("failed to unmarshal " +:+ file) [err]
      | inl jobsConfig =>
          let jobsConfig :=
            if (length (JobsConfig.Branches jobsConfig) =? 0)%nat
            then JobsConfig.mk (JobsConfig.CommonConfig jobsConfig)
                   (JobsConfig.SupportReleaseBranching jobsConfig)
                   (JobsConfig.Repo jobsConfig) (JobsConfig.Org jobsConfig)
                   (JobsConfig.CloneURI jobsConfig) ["master"]
                   (JobsConfig.Matrix jobsConfig) (JobsConfig.Jobs jobsConfig)
            else jobsConfig in
          Returned
            (resolveOverwrites
               (deepCopyCommonConfig
                  (BaseConfig.CommonConfig (Client.BaseConfig cli)))
               jobsConfig)
      end
  end.

(** What a job inherits: its own value when it sets one, else the
    catalog's when that sets one, else the base's. *)
Definition inherited {A} `{mergo.Emptiness A} (base catalog job : A) : A :=
  if negb (mergo.isEmptyValue job) then job
  else if negb (mergo.isEmptyValue catalog) then catalog
  else base.

(** The selector a job inherits: the last non-empty one of base, catalog
    and job. *)
Definition inheritedSelector (base catalog job : gmap string string)
    : gmap string string :=
  if decide (job ≠ ∅) then job
  else if decide (catalog ≠ ∅) then catalog
  else base.

(** What a job's resolved configuration [got] is, given its [own]
    configuration and those of the [catalog] and of the [base]: every
    string and integer field is inherited, the selector is the last one
    declared, and the lists are those of base, catalog and job, one
    after the other. *)
Definition resolvedFrom (base catalog own got : CommonConfig.t) : Prop :=
  CommonConfig.Image got
  = inherited (CommonConfig.Image base) (CommonConfig.Image catalog)
      (CommonConfig.Image own)
  ∧ CommonConfig.ImagePullPolicy got
    = inherited (CommonConfig.ImagePullPolicy base)
        (CommonConfig.ImagePullPolicy catalog)
        (CommonConfig.ImagePullPolicy own)
  ∧ CommonConfig.Cluster got
    = inherited (CommonConfig.Cluster base) (CommonConfig.Cluster catalog)
        (CommonConfig.Cluster own)
  ∧ CommonConfig.GCSLogBucket got
    = inherited (CommonConfig.GCSLogBucket base)
        (CommonConfig.GCSLogBucket catalog) (CommonConfig.GCSLogBucket own)
  ∧ CommonConfig.ServiceAccountName got
    = inherited (CommonConfig.ServiceAccountName base)
        (CommonConfig.ServiceAccountName catalog)
        (CommonConfig.ServiceAccountName own)
  ∧ CommonConfig.Resources got
    = inherited (CommonConfig.Resources base) (CommonConfig.Resources catalog)
        (CommonConfig.Resources own)
  ∧ CommonConfig.Interval got
    = inherited (CommonConfig.Interval base) (CommonConfig.Interval catalog)
        (CommonConfig.Interval own)
  ∧ CommonConfig.Cron got
    = inherited (CommonConfig.Cron base) (CommonConfig.Cron catalog)
        (CommonConfig.Cron own)
  ∧ CommonConfig.Regex got
    = inherited (CommonConfig.Regex base) (CommonConfig.Regex catalog)
        (CommonConfig.Regex own)
  ∧ CommonConfig.Trigger got
    = inherited (CommonConfig.Trigger base) (CommonConfig.Trigger catalog)
        (CommonConfig.Trigger own)
  ∧ CommonConfig.MaxConcurrency got
    = inherited (CommonConfig.MaxConcurrency base)
        (CommonConfig.MaxConcurrency catalog) (CommonConfig.MaxConcurrency own)
  ∧ CommonConfig.TerminationGracePeriodSeconds got
    = inherited (CommonConfig.TerminationGracePeriodSeconds base)
        (CommonConfig.TerminationGracePeriodSeconds catalog)
        (CommonConfig.TerminationGracePeriodSeconds own)
  ∧ CommonConfig.NodeSelector got
    = inheritedSelector (CommonConfig.NodeSelector base)
        (CommonConfig.NodeSelector catalog) (CommonConfig.NodeSelector own)
  ∧ CommonConfig.Requirements got
    = (CommonConfig.Requirements base ++ CommonConfig.Requirements catalog
       ++ CommonConfig.Requirements own)%list
  ∧ CommonConfig.ExcludedRequirements got
    = (CommonConfig.ExcludedRequirements base
       ++ CommonConfig.ExcludedRequirements catalog
       ++ CommonConfig.ExcludedRequirements own)%list
  ∧ CommonConfig.Modifiers got
    = (CommonConfig.Modifiers base ++ CommonConfig.Modifiers catalog
       ++ CommonConfig.Modifiers own)%list
  ∧ CommonConfig.Env got
    = (CommonConfig.Env base ++ CommonConfig.Env catalog
       ++ CommonConfig.Env own)%list.

(** What is left of a job when its common configuration is set aside. *)
Definition sameJobApart (job resolved : Job.t) : Prop :=
  Job.Name resolved = Job.Name job
  ∧ Job.Types resolved = Job.Types job
  ∧ Job.Command resolved = Job.Command job
  ∧ Job.Args resolved = Job.Args job
  ∧ Job.Repos resolved = Job.Repos job.

(** Sample files: a base configuration, a configuration nested in it,
    and a catalog that declares no branch. *)
Module SampleFiles.

(** A configuration that sets the image and nothing else. *)
Definition imageOnly (image : string) : CommonConfig.t :=
  CommonConfig.mk "" 0 "" "" "" ∅ ∅ ∅ ∅ ∅ [] [] [] image "" [] "" "" ""
    None 0 "" [].

Definition base : BaseConfig.t :=
  BaseConfig.mk (imageOnly "img:base") "# generated" {["org" := "example.com"]}
    (TestgridConfig.mk true "oncall@example.com" "1").

Definition nested : BaseConfig.t :=
  BaseConfig.mk (imageOnly "img:nested") "# nested" ∅
    (TestgridConfig.mk false "" "").

Definition catalog : JobsConfig.t :=
  JobsConfig.mk CommonConfig.zero false "sample" "org" "" [] ∅
    [Catalog.job "unit" "" ["presubmit"]].

Definition read (file : string) : string + string :=
  if bool_decide (file = "base.yaml") then inl "base"
  else if bool_decide (file = "nested.yaml") then inl "nested"
  else if bool_decide (file = "jobs.yaml") then inl "jobs"
  else inr ("open " +:+ file +:+ ": no such file or directory").

Definition decodeBase (text : string) : BaseConfig.t + string :=
  if bool_decide (text = "base") then inl base
  else if bool_decide (text = "nested") then inl nested
  else inr "yaml: unmarshal errors".

Definition decodeJobs (text : string) : JobsConfig.t + string :=
  if bool_decide (text = "jobs") then inl catalog
  else inr "yaml: unmarshal errors".

Definition files : Files := Build_Files read decodeBase decodeJobs.

End SampleFiles.
(** ** Modifiers, as listed or not *)

(** The reporter configuration the modifier [hidden] gives a presubmit:
    Slack is to report no job state. *)
Definition hiddenPresubmitReporter : option ReporterConfig.t :=
  Some (ReporterConfig.mk (Some (SlackReporterConfig.mk "" (Some []) None))).

(** The reporter configuration the modifier [hidden] gives a
    postsubmit: Slack is not to report. *)
Definition hiddenPostsubmitReporter : option ReporterConfig.t :=
  Some (ReporterConfig.mk
          (Some (SlackReporterConfig.mk "" None (Some false)))).
(** ** What is generated for a job, by its types *)

(** A job with no types, or with the type presubmit, is generated as a
    presubmit. *)
Definition generatesPresubmit (job : Job.t) : Prop :=
  Job.Types job = [] ∨ TypePresubmit ∈ Job.Types job.

(** A job with no types, or with the type postsubmit, is generated as a
    postsubmit. *)
Definition generatesPostsubmit (job : Job.t) : Prop :=
  Job.Types job = [] ∨ TypePostsubmit ∈ Job.Types job.

(** Only a job with the type periodic is generated as a periodic. *)
Definition generatesPeriodic (job : Job.t) : Prop :=
  TypePeriodic ∈ Job.Types job.

#[global] Instance generatesPresubmit_dec job : Decision (generatesPresubmit job).
Proof. unfold generatesPresubmit. apply _. Defined.
#[global] Instance generatesPostsubmit_dec job :
  Decision (generatesPostsubmit job).
Proof. unfold generatesPostsubmit. apply _. Defined.
#[global] Instance generatesPeriodic_dec job : Decision (generatesPeriodic job).
Proof. unfold generatesPeriodic. apply _. Defined.

(** The names of the jobs collected or generated. *)
Definition presubmitNames (presubmits : list Presubmit.t) : list string :=
  (λ presubmit, JobBase.Name (Presubmit.JobBase presubmit)) <$> presubmits.

Definition postsubmitNames (postsubmits : list Postsubmit.t) : list string :=
  (λ postsubmit, JobBase.Name (Postsubmit.JobBase postsubmit)) <$> postsubmits.

Definition periodicNames (periodics : list Periodic.t) : list string :=
  (λ periodic, JobBase.Name (Periodic.JobBase periodic)) <$> periodics.

(** The key of a repository in the generated configuration. *)
Definition repositoryKey (jobsConfig : JobsConfig.t) : string :=
  JobsConfig.Org jobsConfig +:+ "/" +:+ JobsConfig.Repo jobsConfig.

(** The lists of a generated map hold nothing but under one key, and no
    empty list. *)
Definition onlyUnder {V} (key : string) (generated : gmap string (list V))
    : Prop :=
  (∀ other, other ≠ key → generated !! other = None)
  ∧ generated !! key ≠ Some [].

(** The generated configuration holds what has been collected. *)
Definition reflectsCollected (jobsConfig : JobsConfig.t)
    (state : Collected.t * JobConfig.t) : Prop :=
  default [] (JobConfig.PresubmitsStatic state.2 !! repositoryKey jobsConfig)
  = Collected.presubmits state.1
  ∧ onlyUnder (repositoryKey jobsConfig) (JobConfig.PresubmitsStatic state.2)
  ∧ default []
      (JobConfig.PostsubmitsStatic state.2 !! repositoryKey jobsConfig)
    = Collected.postsubmits state.1
  ∧ onlyUnder (repositoryKey jobsConfig) (JobConfig.PostsubmitsStatic state.2)
  ∧ JobConfig.Periodics state.2 = Collected.periodics state.1.
(** ** The first generator (package [config]): validation and conversion

    The first generator reads a catalog of its own shape ([JobConfig],
    with jobs of [Legacy.Job]) and fills in the prow types of its time.
    A run-time panic (an index out of range, a nil pointer) is [None]. *)
Module LegacyGenerator.

Definition ModifierOptional : string := "optional".
Definition ModifierSkipped : string := "skipped".
Definition RequirementRoot : string := "root".
Definition RequirementKind : string := "kind".
Definition RequirementGCP : string := "gcp".

(** The catalog, [JobConfig] *)
Module JobConfig.
Record t := mk {
  Jobs : list Legacy.Job.t;
  Repo : string;
  Org : string;
  Branches : list string;
  Resources : gmap string ResourceRequirements.t
}.
End JobConfig.

(** [v1.Volume] with a host path *)
Module Volume.
Record t := mk {
  Name : string;
  HostPath : string;
  HostPathType : string
}.
End Volume.

Module VolumeMount.
Record t := mk {
  MountPath : string;
  Name : string;
  ReadOnly : bool
}.
End VolumeMount.

(** [v1.Container] with its volume mounts, which [createContainer]
    leaves empty. *)
Module MountedContainer.
Record t := mk {
  Container : Container.t;
  VolumeMounts : list VolumeMount.t
}.
End MountedContainer.

Module PodSpec.
Record t := mk {
  NodeSelector : gmap string string;
  Containers : list MountedContainer.t;
  Volumes : list Volume.t
}.
End PodSpec.

Module UtilityConfig.
Record t := mk {
  Decorate : bool;
  PathAlias : string;
  ExtraRefs : list Refs.t;
  DecorationConfig : option DecorationConfig.t
}.
End UtilityConfig.

Module JobBase.
Record t := mk {
  Name : string;
  Labels : gmap string string;
  Annotations : gmap string string;
  MaxConcurrency : Z;
  Spec : option PodSpec.t;
  UtilityConfig : UtilityConfig.t
}.
Definition withLabels (jb : t) (labels : gmap string string) : t :=
  mk (Name jb) labels (Annotations jb) (MaxConcurrency jb) (Spec jb)
     (UtilityConfig jb).
Definition withAnnotations (jb : t) (annotations : gmap string string) : t :=
  mk (Name jb) (Labels jb) annotations (MaxConcurrency jb) (Spec jb)
     (UtilityConfig jb).
Definition withMaxConcurrency (jb : t) (maxConcurrency : Z) : t :=
  mk (Name jb) (Labels jb) (Annotations jb) maxConcurrency (Spec jb)
     (UtilityConfig jb).
Definition withSpec (jb : t) (spec : option PodSpec.t) : t :=
  mk (Name jb) (Labels jb) (Annotations jb) (MaxConcurrency jb) spec
     (UtilityConfig jb).
Definition withDecorationConfig (jb : t)
    (decorationConfig : option DecorationConfig.t) : t :=
  mk (Name jb) (Labels jb) (Annotations jb) (MaxConcurrency jb) (Spec jb)
     (UtilityConfig.mk (UtilityConfig.Decorate (UtilityConfig jb))
        (UtilityConfig.PathAlias (UtilityConfig jb))
        (UtilityConfig.ExtraRefs (UtilityConfig jb)) decorationConfig).
End JobBase.

Module Presubmit.
Record t := mk {
  JobBase : JobBase.t;
  AlwaysRun : bool;
  Optional : bool;
  SkipReport : bool;
  Branches : list string
}.
Definition withJobBase (p : t) (jb : JobBase.t) : t :=
  mk jb (AlwaysRun p) (Optional p) (SkipReport p) (Branches p).
Definition withAlwaysRun (p : t) (alwaysRun : bool) : t :=
  mk (JobBase p) alwaysRun (Optional p) (SkipReport p) (Branches p).
Definition withOptional (p : t) (optional : bool) : t :=
  mk (JobBase p) (AlwaysRun p) optional (SkipReport p) (Branches p).
Definition withSkipReport (p : t) (skipReport : bool) : t :=
  mk (JobBase p) (AlwaysRun p) (Optional p) skipReport (Branches p).
End Presubmit.

Module Postsubmit.
Record t := mk {
  JobBase : JobBase.t;
  Branches : list string;
  SkipReport : bool
}.
Definition withJobBase (p : t) (jb : JobBase.t) : t :=
  mk jb (Branches p) (SkipReport p).
Definition withSkipReport (p : t) (skipReport : bool) : t :=
  mk (JobBase p) (Branches p) skipReport.
End Postsubmit.

(** [config.JobConfig] of prow *)
Module ProwJobConfig.
Record t := mk {
  Presubmits : gmap string (list Presubmit.t);
  Postsubmits : gmap string (list Postsubmit.t)
}.
End ProwJobConfig.

(** A loop whose body may panic. *)
Fixpoint forEachOrPanic {A B} (body : A → B → option A) (acc : A)
    (xs : list B) : option A :=
  match xs with
  | [] => Some acc
  | x :: rest => acc ← body acc x; forEachOrPanic body acc rest
  end.

(** *** ValidateJobConfig *)

(** The body of the loop over [jobConfig.Jobs]. *)
Definition validateJob (jobConfig : JobConfig.t) (err : list string)
    (job : Legacy.Job.t) : list string :=
  let err :=
    if negb (bool_decide (Legacy.Job.Resources job = ""))
    then match JobConfig.Resources jobConfig !! Legacy.Job.Resources job with
         | None =>
             multierror.Append err
               ("job '" +:+ Legacy.Job.Name job +:+
                "' has nonexistant resource '" +:+
                Legacy.Job.Resources job +:+ "'")
         | Some _ => err
         end
    else err in
  let err :=
    foldl
      (appendInvalid [ModifierHidden; ModifierOptional; ModifierSkipped]
         "status")
      err (Legacy.Job.Modifiers job) in
  let err :=
    foldl
      (appendInvalid [RequirementKind; RequirementRoot; RequirementGCP]
         "requirements")
      err (Legacy.Job.Requirements job) in
  let err :=
    appendInvalid [TypePostsubmit; TypePresubmit; ""] "type" err
      (Legacy.Job.Type_ job) in
  let err :=
    foldl
      (λ err repo,
         if negb (length (strings.Split repo "/") =? 2)%nat
         then multierror.Append err
                ("repo " +:+ repo +:+
                 " not valid, should take form org/repo.")
         else err)
      err (Legacy.Job.Repos job) in
  err.

(** The multi-error [ValidateJobConfig] has accumulated when it reaches
    its last statement. *)
Definition validationErrors (jobConfig : JobConfig.t) : list string :=
  let err := [] in
  let err :=
    match JobConfig.Resources jobConfig !! DefaultResource with
    | None =>
        multierror.Append err
          ("'" +:+ DefaultResource +:+ "' resource must be provided")
    | Some _ => err
    end in
  foldl (validateJob jobConfig) err (JobConfig.Jobs jobConfig).

Definition ValidateJobConfig (jobConfig : JobConfig.t) : outcome unit :=
  match validationErrors jobConfig with
  | [] => Returned ()
  | err => Exited "validation failed" err
  end.

(** *** ConvertJobConfig *)

(** The body of the loop of [createExtraRefs]; [orgrepo[1]] panics when
    the reference holds no slash. *)
Definition createExtraRef (branch : string) (refs : list Refs.t)
    (extraRepo : string) : option (list Refs.t) :=
  let orgrepo := strings.Split extraRepo "/" in
  org ← orgrepo !! 0;
  repo ← orgrepo !! 1;
  let pathAlias :=
    (* istio uses vanity imports *)
    if bool_decide (org = "istio") then "istio.io/" +:+ repo else "" in
  Some (refs ++ [Refs.mk org repo branch pathAlias ""])%list.

Definition createExtraRefs (extraRepos : list string) (branch : string)
    : option (list Refs.t) :=
  forEachOrPanic (createExtraRef branch) [] extraRepos.

Definition createJobBase (job : Legacy.Job.t) (name repo branch : string)
    (resources : gmap string ResourceRequirements.t) : option JobBase.t :=
  let containers :=
    (λ c, MountedContainer.mk c []) <$> Legacy.createContainer job resources in
  extraRefs ← createExtraRefs (Legacy.Job.Repos job) branch;
  let jb :=
    JobBase.mk name ∅ ∅ 0
      (Some (PodSpec.mk {["testing" := "test-pool"]} containers []))
      (UtilityConfig.mk true ("istio.io/" +:+ repo) extraRefs None) in
  let jb :=
    match Legacy.Job.Timeout job with
    | Some timeout =>
        JobBase.withDecorationConfig jb
          (Some (DecorationConfig.mk (Some timeout) None))
    | None => jb
    end in
  Some jb.

(** [job.Spec.Containers[0] = change(job.Spec.Containers[0])]; a nil
    [Spec] and a pod without containers make it panic. *)
Definition onFirstContainer (change : MountedContainer.t → MountedContainer.t)
    (job : JobBase.t) : option JobBase.t :=
  spec ← JobBase.Spec job;
  match PodSpec.Containers spec with
  | c :: rest =>
      Some (JobBase.withSpec job
              (Some (PodSpec.mk (PodSpec.NodeSelector spec) (change c :: rest)
                       (PodSpec.Volumes spec))))
  | [] => None
  end.

(** [v1.HostPathDirectory] *)
Definition HostPathDirectory : string := "Directory".

Definition kindVolumes : list Volume.t :=
  [Volume.mk "modules" "/lib/modules" HostPathDirectory;
   Volume.mk "cgroup" "/sys/fs/cgroup" HostPathDirectory].

Definition kindVolumeMounts : list VolumeMount.t :=
  [VolumeMount.mk "/lib/modules" "modules" true;
   VolumeMount.mk "/sys/fs/cgroup" "cgroup" false].

(** [c.SecurityContext.Privileged = newTrue()]; the security context
    is the one [createContainer] made. *)
Definition privileged (c : MountedContainer.t) : MountedContainer.t :=
  MountedContainer.mk
    (Container.mk (Container.Image (MountedContainer.Container c))
       (Some true)
       (Container.Command (MountedContainer.Container c))
       (Container.Args (MountedContainer.Container c))
       (Container.Env (MountedContainer.Container c))
       (Container.ImagePullPolicy (MountedContainer.Container c))
       (Container.Resources (MountedContainer.Container c)))
    (MountedContainer.VolumeMounts c).

(** [c.VolumeMounts = append(c.VolumeMounts, mounts...)] *)
Definition mounting (mounts : list VolumeMount.t) (c : MountedContainer.t)
    : MountedContainer.t :=
  MountedContainer.mk (MountedContainer.Container c)
    (MountedContainer.VolumeMounts c ++ mounts).

(** The body of the loop of [applyRequirements]: the [switch]. *)
Definition applyRequirement (job : JobBase.t) (req : string)
    : option JobBase.t :=
  if bool_decide (req = RequirementGCP)
  then
    (* GCP resources are limited, so set max concurrency to 5.  The preset
       service account will set up the required resources *)
    Some (JobBase.withLabels (JobBase.withMaxConcurrency job 5)
            (<["preset-service-account" := "true"]> (JobBase.Labels job)))
  else if bool_decide (req = RequirementRoot)
  then
    onFirstContainer privileged job
  else if bool_decide (req = RequirementKind)
  then
    (* Kind requires special volumes set up for docker *)
    spec ← JobBase.Spec job;
    let job :=
      JobBase.withSpec job
        (Some (PodSpec.mk (PodSpec.NodeSelector spec) (PodSpec.Containers spec)
                 (PodSpec.Volumes spec ++ kindVolumes))) in
    onFirstContainer (mounting kindVolumeMounts) job
  else Some job.

Definition applyRequirements (job : JobBase.t) (requirements : list string)
    : option JobBase.t :=
  forEachOrPanic applyRequirement job requirements.

Definition applyModifiersPresubmit (presubmit : Presubmit.t)
    (jobModifiers : list string) : Presubmit.t :=
  foldl
    (λ presubmit modifier,
       if bool_decide (modifier = ModifierOptional)
       then Presubmit.withOptional presubmit true
       else if bool_decide (modifier = ModifierHidden)
       then Presubmit.withSkipReport presubmit true
       else if bool_decide (modifier = ModifierSkipped)
       then Presubmit.withAlwaysRun presubmit false
       else presubmit)
    presubmit jobModifiers.

Definition applyModifiersPostsubmit (postsubmit : Postsubmit.t)
    (jobModifiers : list string) : Postsubmit.t :=
  foldl
    (λ postsubmit modifier,
       if bool_decide (modifier = ModifierOptional)
       then postsubmit (* Does not exist on postsubmit *)
       else if bool_decide (modifier = ModifierHidden)
       then Postsubmit.withSkipReport postsubmit true
       else postsubmit)
    postsubmit jobModifiers.

(** [job.Command = append([]string{"entrypoint"}, job.Command...)] *)
Definition withEntrypoint (job : Legacy.Job.t) : Legacy.Job.t :=
  Legacy.Job.mk (Legacy.Job.Name job) (Legacy.Job.PostsubmitName job)
    ("entrypoint" :: Legacy.Job.Command job) (Legacy.Job.Env job)
    (Legacy.Job.Resources job) (Legacy.Job.Modifiers job)
    (Legacy.Job.Requirements job) (Legacy.Job.Type_ job)
    (Legacy.Job.Timeout job) (Legacy.Job.Repos job).

(** What [ConvertJobConfig] holds between two rounds of its loop: the
    presubmits and postsubmits made so far, and the output. *)
Module Converted.
Record t := mk {
  presubmits : list Presubmit.t;
  postsubmits : list Postsubmit.t;
  output : ProwJobConfig.t
}.
End Converted.

(** [testgridJobPrefix] *)
Definition testgridJobPrefixOf (jobConfig : JobConfig.t) : string :=
  let testgridJobPrefix := JobConfig.Repo jobConfig in
  (* Dirty hack to add an istio- prefix to repos other than istio/istio.
     This is because dashboards need to be globally unique and we share
     testgrid *)
  if negb (bool_decide (testgridJobPrefix = "istio"))
  then "istio-" +:+ testgridJobPrefix else testgridJobPrefix.

(** The block under [if job.Type == TypePresubmit || job.Type == ""]. *)
Definition convertPresubmit (jobConfig : JobConfig.t) (branch : string)
    (job : Legacy.Job.t) : option Presubmit.t :=
  let brancher := ["^" +:+ branch +:+ "$"] in
  let testgridJobPrefix := testgridJobPrefixOf jobConfig in
  jb ← createJobBase job (Legacy.Job.Name job +:+ "-" +:+ branch)
         (JobConfig.Repo jobConfig) branch (JobConfig.Resources jobConfig);
  let presubmit := Presubmit.mk jb true false false brancher in
  let presubmit :=
    Presubmit.withJobBase presubmit
      (JobBase.withAnnotations (Presubmit.JobBase presubmit)
         (<[TestGridDashboard :=
              testgridJobPrefix +:+ "-presubmits-" +:+ branch]>
            (JobBase.Annotations (Presubmit.JobBase presubmit)))) in
  let presubmit :=
    applyModifiersPresubmit presubmit (Legacy.Job.Modifiers job) in
  jb ← applyRequirements (Presubmit.JobBase presubmit)
         (Legacy.Job.Requirements job);
  Some (Presubmit.withJobBase presubmit jb).

(** The block under [if job.Type == TypePostsubmit || job.Type == ""]. *)
Definition convertPostsubmit (jobConfig : JobConfig.t) (branch : string)
    (job : Legacy.Job.t) : option Postsubmit.t :=
  let brancher := ["^" +:+ branch +:+ "$"] in
  let testgridJobPrefix := testgridJobPrefixOf jobConfig in
  let postName := Legacy.Job.PostsubmitName job in
  let postName :=
    if bool_decide (postName = "") then Legacy.Job.Name job else postName in
  jb ← createJobBase job (postName +:+ "-" +:+ branch)
         (JobConfig.Repo jobConfig) branch (JobConfig.Resources jobConfig);
  let postsubmit := Postsubmit.mk jb brancher false in
  let postsubmit :=
    Postsubmit.withJobBase postsubmit
      (JobBase.withAnnotations (Postsubmit.JobBase postsubmit)
         (<[TestGridNumFailures := "1"]>
            (<[TestGridAlertEmail := "istio-oncall@googlegroups.com"]>
               (<[TestGridDashboard :=
                    testgridJobPrefix +:+ "-postsubmits-" +:+ branch]>
                  (JobBase.Annotations (Postsubmit.JobBase postsubmit)))))) in
  let postsubmit :=
    applyModifiersPostsubmit postsubmit (Legacy.Job.Modifiers job) in
  jb ← applyRequirements (Postsubmit.JobBase postsubmit)
         (Legacy.Job.Requirements job);
  Some (Postsubmit.withJobBase postsubmit jb).

(** The body of the loop over [jobConfig.Jobs]. *)
Definition convertJob (jobConfig : JobConfig.t) (branch : string)
    (state : Converted.t) (job : Legacy.Job.t) : option Converted.t :=
  (* Commands are run with the entrypoint wrapper which will start up
     prereqs *)
  let job := withEntrypoint job in
  presubmits ←
    (if bool_decide (Legacy.Job.Type_ job = TypePresubmit)
        || bool_decide (Legacy.Job.Type_ job = "")
     then
       presubmit ← convertPresubmit jobConfig branch job;
       Some (Converted.presubmits state ++ [presubmit])%list
     else Some (Converted.presubmits state));
  postsubmits ←
    (if bool_decide (Legacy.Job.Type_ job = TypePostsubmit)
        || bool_decide (Legacy.Job.Type_ job = "")
     then
       postsubmit ← convertPostsubmit jobConfig branch job;
       Some (Converted.postsubmits state ++ [postsubmit])%list
     else Some (Converted.postsubmits state));
  let key := JobConfig.Org jobConfig +:+ "/" +:+ JobConfig.Repo jobConfig in
  Some
    (Converted.mk presubmits postsubmits
       (ProwJobConfig.mk
          (<[key := presubmits]>
             (ProwJobConfig.Presubmits (Converted.output state)))
          (<[key := postsubmits]>
             (ProwJobConfig.Postsubmits (Converted.output state))))).

Definition ConvertJobConfig (jobConfig : JobConfig.t) (branch : string)
    : option ProwJobConfig.t :=
  state ←
    forEachOrPanic (convertJob jobConfig branch)
      (Converted.mk [] [] (ProwJobConfig.mk ∅ ∅)) (JobConfig.Jobs jobConfig);
  Some (Converted.output state).

End LegacyGenerator.

(** ** The rules of the first generator's validation *)

(** A job the first validator has no complaint about. *)
Definition legacyValidJob (jobConfig : LegacyGenerator.JobConfig.t)
    (job : Legacy.Job.t) : Prop :=
  (Legacy.Job.Resources job = ""
   ∨ is_Some (LegacyGenerator.JobConfig.Resources jobConfig
                !! Legacy.Job.Resources job))
  ∧ Forall
      (λ modifier,
         modifier ∈ [ModifierHidden; LegacyGenerator.ModifierOptional;
                     LegacyGenerator.ModifierSkipped])
      (Legacy.Job.Modifiers job)
  ∧ Forall
      (λ requirement,
         requirement ∈ [LegacyGenerator.RequirementKind;
                        LegacyGenerator.RequirementRoot;
                        LegacyGenerator.RequirementGCP])
      (Legacy.Job.Requirements job)
  ∧ Legacy.Job.Type_ job ∈ [TypePostsubmit; TypePresubmit; ""]
  ∧ Forall (λ repo, Rules.slashes repo = 1) (Legacy.Job.Repos job).

(** A catalog the first validator has no complaint about: it declares
    the default resources, and all its jobs are valid. *)
Definition legacyValidCatalog (jobConfig : LegacyGenerator.JobConfig.t) : Prop :=
  is_Some (LegacyGenerator.JobConfig.Resources jobConfig !! DefaultResource)
  ∧ Forall (legacyValidJob jobConfig)
      (LegacyGenerator.JobConfig.Jobs jobConfig).

(** How often a requirement is listed. *)
Definition timesListed (requirement : string) (requirements : list string)
    : nat :=
  length (filter (λ listed, listed = requirement) requirements).

(** What the presubmits and postsubmits of the first generator are
    called. *)
Definition legacyPresubmitNames
    (presubmits : list LegacyGenerator.Presubmit.t) : list string :=
  (λ presubmit,
     LegacyGenerator.JobBase.Name (LegacyGenerator.Presubmit.JobBase presubmit))
  <$> presubmits.

Definition legacyPostsubmitNames
    (postsubmits : list LegacyGenerator.Postsubmit.t) : list string :=
  (λ postsubmit,
     LegacyGenerator.JobBase.Name
       (LegacyGenerator.Postsubmit.JobBase postsubmit))
  <$> postsubmits.

(** The name of the postsubmit of a job: the one it declares for it, or
    its own. *)
Definition legacyPostsubmitName (job : Legacy.Job.t) : string :=
  if decide (Legacy.Job.PostsubmitName job = "") then Legacy.Job.Name job
  else Legacy.Job.PostsubmitName job.

(** The jobs the first generator makes a presubmit of, and those it
    makes a postsubmit of. *)
Definition legacyPresubmitJob (job : Legacy.Job.t) : Prop :=
  Legacy.Job.Type_ job = TypePresubmit ∨ Legacy.Job.Type_ job = "".

Definition legacyPostsubmitJob (job : Legacy.Job.t) : Prop :=
  Legacy.Job.Type_ job = TypePostsubmit ∨ Legacy.Job.Type_ job = "".

#[global] Instance legacyPresubmitJob_dec job : Decision (legacyPresubmitJob job).
Proof. unfold legacyPresubmitJob. apply _. Defined.
#[global] Instance legacyPostsubmitJob_dec job :
  Decision (legacyPostsubmitJob job).
Proof. unfold legacyPostsubmitJob. apply _. Defined.

(** The key of the catalog's repository in the generated
    configuration. *)
Definition legacyRepositoryKey (jobConfig : LegacyGenerator.JobConfig.t)
    : string :=
  LegacyGenerator.JobConfig.Org jobConfig +:+ "/" +:+
  LegacyGenerator.JobConfig.Repo jobConfig.

(** The dashboard annotations of the presubmits and of the postsubmits
    of a catalog. *)
Definition legacyPresubmitAnnotations
    (jobConfig : LegacyGenerator.JobConfig.t) (branch : string)
    : gmap string string :=
  {[TestGridDashboard :=
      LegacyGenerator.testgridJobPrefixOf jobConfig
      +:+ "-presubmits-" +:+ branch]}.

Definition legacyPostsubmitAnnotations
    (jobConfig : LegacyGenerator.JobConfig.t) (branch : string)
    : gmap string string :=
  <[TestGridNumFailures := "1"]>
    (<[TestGridAlertEmail := "istio-oncall@googlegroups.com"]>
       {[TestGridDashboard :=
           LegacyGenerator.testgridJobPrefixOf jobConfig
           +:+ "-postsubmits-" +:+ branch]}).
(** ** The generator after its split into packages: the environment *)

(** [sort.Slice(res, func(i, j int) bool { return res[i].Name <
    res[j].Name })]: the variables in the order of their names, which
    Go compares byte by byte.  The names [joinEnv] sorts are distinct,
    so that the order does not depend on the sorting algorithm. *)
Definition nameNotAfter (a b : EnvVar.t) : Prop :=
  String.leb (EnvVar.Name a) (EnvVar.Name b) = true.

#[global] Instance nameNotAfter_dec (a b : EnvVar.t) :
  Decision (nameNotAfter a b).
Proof. unfold nameNotAfter. apply _. Defined.

Definition sortByName (res : list EnvVar.t) : list EnvVar.t :=
  merge_sort nameNotAfter res.

(** What [joinEnv] keeps of a variable in its map: the source of the
    value if there is one ([inr]), the value otherwise ([inl]). *)
Definition envMapValue (e : EnvVar.t) : string + string :=
  match EnvVar.ValueFrom e with
  | Some valueFrom => inr valueFrom
  | None => inl (EnvVar.Value e)
  end.

(** The variable [joinEnv] makes of an entry of its map: the [switch] on
    the type of the value. *)
Definition envMapEntry (k : string) (v : string + string) : EnvVar.t :=
  match v with
  | inl tv => EnvVar.mk k tv None
  | inr tv => EnvVar.mk k "" (Some tv)
  end.

(** joinEnv joins a set of environment variables, in order of lowest to
    highest priority *)
Definition joinEnv (envs : list (list EnvVar.t)) : list EnvVar.t :=
  let envMap : gmap string (string + string) :=
    foldl
      (λ envMap es,
         foldl (λ envMap e, <[EnvVar.Name e := envMapValue e]> envMap)
           envMap es)
      ∅ envs in
  let res :=
    map_fold (λ k v res, (res ++ [envMapEntry k v])%list) [] envMap in
  sortByName res.

(** A variable as [joinEnv] returns it: with the source of its value and
    no value, or with its value. *)
Definition joined (e : EnvVar.t) : EnvVar.t :=
  envMapEntry (EnvVar.Name e) (envMapValue e).

(** The last variable of the name [name] in the lists, taken one after
    the other. *)
Definition lastNamed (name : string) (envs : list (list EnvVar.t))
    : option EnvVar.t :=
  last (filter (λ e, EnvVar.Name e = name) (concat envs)).
(** ** generate.go: writing and checking the generated file *)

Definition DefaultAutogenHeader : string :=
  "# THIS FILE IS AUTOGENERATED, DO NOT EDIT IT MANUALLY.".

(** The line feed of [header + "\n"]. *)
Definition lineFeed : string := String (ascii_of_nat 10) "".

(** What [Write] and [CheckConfig] use of the operating system and of
    the libraries: a disk that [os.MkdirAll] and [ioutil.WriteFile]
    change or refuse to change with an error, [ioutil.ReadFile] on that
    disk, [filepath.Dir], [yaml.Marshal] of the generated configuration
    and [cmp.Diff] on the bytes of two files. *)
Class Disk := {
  disk : Type;
  readFileOn : disk → string → string + string;
  MkdirAll : disk → string → disk + string;
  WriteFile : disk → string → string → disk + string;
  filepathDir : string → string;
  marshalJobConfig : JobConfig.t → string + string;
  cmpDiff : string → string → string
}.

(** [if header == "" { header = DefaultAutogenHeader }] *)
Definition headerOrDefault (header : string) : string :=
  if bool_decide (header = "") then DefaultAutogenHeader else header.

(** [CheckConfig(jobs, currentConfigFile, header)] on a disk: the error,
    or [None] for nil. *)
Definition CheckConfig `{Disk} (jobs : JobConfig.t)
    (currentConfigFile header : string) (d : disk) : option string :=
  match readFileOn d currentConfigFile with
  | inr err =>
      Some ("failed to read current config for " +:+ currentConfigFile +:+
            ": " +:+ err)
  | inl current =>
      match marshalJobConfig jobs with
      | inr err => Some ("failed to marshal result: " +:+ err)
      | inl newConfig =>
          let header := headerOrDefault header in
          let output := (header +:+ lineFeed) +:+ newConfig in
          let diff := cmpDiff output current in
          if bool_decide (diff ≠ "")
          then Some ("generated config is different from file " +:+
                     currentConfigFile +:+ lineFeed +:+ "Want(-), got(+):" +:+
                     lineFeed +:+ diff)
          else None
      end
  end.

(** [Write(jobs, fname, header)] on a disk: the disk it leaves, or the
    call of [exit]. *)
Definition Write `{Disk} (jobs : JobConfig.t) (fname header : string)
    (d : disk) : outcome disk :=
  match marshalJobConfig jobs with
  | inr err => Exited "failed to marshal result" [err]
  | inl bs =>
      let dir := filepathDir fname in
      match MkdirAll d dir with
      | inr err => Exited ("failed to create directory: " +:+ dir) [err]
      | inl d =>
          let header := headerOrDefault header in
          let output := (header +:+ lineFeed) +:+ bs in
          match WriteFile d fname output with
          | inr err => Exited "failed to write result" [err]
          | inl d => Returned d
          end
      end
  end.

(** A disk that keeps what is written: a file reads as the bytes last
    written to it. *)
Definition keepsWritten `{Disk} : Prop :=
  ∀ (d d' : disk) (fname output : string),
    WriteFile d fname output = inl d' → readFileOn d' fname = inl output.

(** [cmp.Diff] reports no difference for equal bytes only. *)
Definition diffOfEqualOnly `{Disk} : Prop :=
  ∀ a b : string, cmpDiff a b = "" ↔ a = b.

(** A disk as a map from paths to bytes; directories are not kept, and
    the generated configuration is marshalled to the names of its
    periodic jobs. *)
Module SampleDisk.
Definition marshal (jobs : JobConfig.t) : string + string :=
  inl (strings.Join
         (JobBase.Name ∘ Periodic.JobBase <$> JobConfig.Periodics jobs) ",").
Definition read (d : gmap string string) (file : string) : string + string :=
  match d !! file with
  | Some bytes => inl bytes
  | None => inr "no such file or directory"
  end.
Definition diff (a b : string) : string :=
  if bool_decide (a = b) then "" else "-" +:+ a +:+ "+" +:+ b.
Definition os : Disk := {|
  disk := gmap string string;
  readFileOn := read;
  MkdirAll := λ d _, inl d;
  WriteFile := λ d fname output, inl (<[fname := output]> d);
  filepathDir := λ fname, fname;
  marshalJobConfig := marshal;
  cmpDiff := diff
|}.
End SampleDisk.

(** ** The generator after its split into packages: the schedule of a
    periodic job *)

(** [for _, requirement := range job.Requirements { if cronstr :=
    jobsConfig.RequirementPresets[requirement].Cron; cronstr != "" {
    periodic.Cron = cronstr } }], from [periodic.Cron = job.Cron]; a
    requirement that names no preset reads the zero preset. *)
Definition periodicCron (presets : gmap string RequirementPreset.t)
    (cron : string) (requirements : list string) : string :=
  foldl
    (λ cron requirement,
       let cronstr :=
         RequirementPreset.Cron
           (default RequirementPreset.zero (presets !! requirement)) in
       if bool_decide (cronstr ≠ "") then cronstr else cron)
    cron requirements.
(** ** Sample catalogs *)

Module SampleJobs.

(** The job [unit] with a label of its own. *)
Definition labelled : Job.t :=
  Job.withCommonConfig Catalog.unit
    (CommonConfig.mk "" 0 "" "" "" ∅ ∅ {["team" := "infra"]} ∅ ∅ [] [] []
       "img:1" "" [] "" "" "" None 0 "" []).

(** A catalog of the first generator with the job [unit] of no type. *)
Definition legacy : LegacyGenerator.JobConfig.t :=
  LegacyGenerator.JobConfig.mk
    [Legacy.Job.mk "unit" "" ["make"; "test"] [] "" [] [] "" None []]
    "sample" "org" ["master"]
    {[DefaultResource := ResourceRequirements.zero]}.

End SampleJobs.

(* ================================================================= *)
(** * Properties *)

(** ** Hierarchical merge *)

Section fold_projection.
Context {S C F : Type} (step : S → C → S) (get : S → F) (src : C → F)
  (combine : F → F → F).
Hypothesis step_get : ∀ s c, get (step s c) = combine (get s) (src c).

Lemma foldl_projection (cs : list C) (s : S) :
  get (foldl step s cs) = foldl combine (get s) (src <$> cs).
Proof.
  revert s. induction cs as [|c cs IH]; intros s; simpl; [done|].
  by rewrite IH, step_get.
Qed.
End fold_projection.

Lemma mergeOptions_Overwrite : mergo.Overwrite mergeOptions = true.
Proof. reflexivity. Qed.

Lemma foldl_mergeValue_lastSet {A} `{mergo.Emptiness A}
    (values : list A) (start : A) :
  foldl (mergo.mergeValue mergeOptions) start values
  = lastSet start values.
Proof.
  unfold lastSet. revert start.
  induction values as [|v values IH] using rev_ind; intros start; [done|].
  rewrite foldl_app, filter_app, last_app. simpl.
  rewrite IH. unfold mergo.mergeValue. rewrite mergeOptions_Overwrite.
  rewrite orb_true_r. simpl.
  rewrite filter_cons, filter_nil.
  by destruct (mergo.isEmptyValue v) eqn:Hv.
Qed.

Lemma foldl_mergePtr_Some (values : list (option Z)) (start : Z) :
  foldl (mergo.mergePtr mergeOptions) (Some start) values
  = Some (lastSet start (omap id values)).
Proof.
  revert start.
  induction values as [|v values IH] using rev_ind; intros start; [done|].
  rewrite foldl_app, omap_app, IH. simpl.
  destruct v as [d|]; simpl.
  - unfold lastSet. rewrite filter_app, last_app.
    unfold mergo.mergeValue. rewrite mergeOptions_Overwrite, orb_true_r.
    simpl. rewrite filter_cons, filter_nil.
    by destruct (mergo.isEmptyValue d) eqn:Hd.
  - by rewrite app_nil_r.
Qed.

Lemma foldl_mergePtr_lastSet (values : list (option Z)) :
  foldl (mergo.mergePtr mergeOptions) None values
  = match omap id values with
    | [] => None
    | durations => Some (lastSet 0%Z durations)
    end.
Proof.
  induction values as [|[d|] values IH]; simpl; [done| |exact IH].
  change (list_omap (option Z) Z id values) with (omap id values).
  rewrite foldl_mergePtr_Some. f_equal. unfold lastSet.
  rewrite filter_cons. case_decide as Hd.
  - destruct (filter _ (omap id values)) as [|x xs] eqn:Hf; [done|].
    change (last (d :: x :: xs)) with (last (x :: xs)).
    destruct (last (x :: xs)) eqn:E; [done|]. by apply last_None in E.
  - apply not_false_is_true in Hd.
    unfold mergo.isEmptyValue, mergo.Z_emptiness in Hd.
    by apply bool_decide_eq_true in Hd as ->.
Qed.

Lemma lookup_mergeMap_overwrite {V} `{mergo.Emptiness V}
    (dst src : gmap string V) (key : string) :
  mergo.mergeMap mergeOptions dst src !! key
  = match src !! key with Some v => Some v | None => dst !! key end.
Proof.
  unfold mergo.mergeMap. rewrite lookup_union_with.
  rewrite mergeOptions_Overwrite. simpl.
  by destruct (dst !! key), (src !! key).
Qed.

Lemma foldl_mergeMap_lastBinding {V} `{mergo.Emptiness V}
    (maps : list (gmap string V)) (start : gmap string V) (key : string) :
  foldl (mergo.mergeMap mergeOptions) start maps !! key
  = match lastBinding key maps with
    | Some v => Some v
    | None => start !! key
    end.
Proof.
  unfold lastBinding.
  induction maps as [|m maps IH] using rev_ind; [done|].
  rewrite foldl_app, omap_app, last_app. simpl.
  rewrite lookup_mergeMap_overwrite, IH.
  by destruct (m !! key).
Qed.

Lemma mergeMap_empty_src {V} `{mergo.Emptiness V} config (dst : gmap string V) :
  mergo.mergeMap config dst ∅ = dst.
Proof.
  apply map_eq; intros key. unfold mergo.mergeMap.
  rewrite lookup_union_with, lookup_empty. by destruct (dst !! key).
Qed.

Lemma mergeCommonConfig_step_NodeSelector merged config :
  CommonConfig.NodeSelector (mergeCommonConfig_step merged config)
  = chooseNodeSelector (CommonConfig.NodeSelector merged)
      (CommonConfig.NodeSelector config).
Proof.
  unfold mergeCommonConfig_step, chooseNodeSelector.
  destruct (size (CommonConfig.NodeSelector config) =? 0)%nat eqn:Hsize;
    simpl; [|done].
  apply Nat.eqb_eq, map_size_empty_iff in Hsize.
  unfold deepCopyCommonConfig. rewrite Hsize.
  apply mergeMap_empty_src.
Qed.

Lemma foldl_chooseNodeSelector (selectors : list (gmap string string)) start :
  foldl chooseNodeSelector start selectors = lastNonEmptyOr start selectors.
Proof.
  unfold lastNonEmptyOr.
  induction selectors as [|m selectors IH] using rev_ind; [done|].
  rewrite foldl_app, filter_app, last_app. simpl. rewrite IH.
  unfold chooseNodeSelector. rewrite filter_cons, filter_nil.
  destruct (size m =? 0)%nat eqn:Hsize; simpl.
  - apply Nat.eqb_eq, map_size_empty_iff in Hsize.
    by rewrite decide_False by (by intros []).
  - apply Nat.eqb_neq in Hsize.
    rewrite decide_True; [done|]. intros ->. by rewrite map_size_empty in Hsize.
Qed.

Ltac merged_field combine :=
  unfold mergeCommonConfig;
  match goal with
  | |- context [?get (foldl mergeCommonConfig_step _ _)] =>
      rewrite (foldl_projection mergeCommonConfig_step get get combine)
        by (intros ? ?; unfold mergeCommonConfig_step;
            destruct (negb _); reflexivity)
  end.

(** C1. mergeCommonConfig gives later inputs precedence.  Every scalar
    field of the result is the value of the last input that sets it (the
    zero value when none does; a timeout counts as set when it points to
    a non-zero duration), and every map-typed field other than
    NodeSelector is the union of the inputs' maps under which each key
    has the value of the last input that contains the key. *)
Theorem mergeCommonConfig_later_wins (configs : list CommonConfig.t) :
  let merged := mergeCommonConfig configs in
  (CommonConfig.GCSLogBucket merged
     = lastSet "" (CommonConfig.GCSLogBucket <$> configs)
   ∧ CommonConfig.TerminationGracePeriodSeconds merged
     = lastSet 0%Z (CommonConfig.TerminationGracePeriodSeconds <$> configs)
   ∧ CommonConfig.Interval merged
     = lastSet "" (CommonConfig.Interval <$> configs)
   ∧ CommonConfig.Cron merged = lastSet "" (CommonConfig.Cron <$> configs)
   ∧ CommonConfig.Cluster merged
     = lastSet "" (CommonConfig.Cluster <$> configs)
   ∧ CommonConfig.Image merged = lastSet "" (CommonConfig.Image <$> configs)
   ∧ CommonConfig.ImagePullPolicy merged
     = lastSet "" (CommonConfig.ImagePullPolicy <$> configs)
   ∧ CommonConfig.ServiceAccountName merged
     = lastSet "" (CommonConfig.ServiceAccountName <$> configs)
   ∧ CommonConfig.Regex merged = lastSet "" (CommonConfig.Regex <$> configs)
   ∧ CommonConfig.Trigger merged
     = lastSet "" (CommonConfig.Trigger <$> configs)
   ∧ CommonConfig.MaxConcurrency merged
     = lastSet 0%Z (CommonConfig.MaxConcurrency <$> configs)
   ∧ CommonConfig.Resources merged
     = lastSet "" (CommonConfig.Resources <$> configs)
   ∧ CommonConfig.Timeout merged
     = match omap CommonConfig.Timeout configs with
       | [] => None
       | durations => Some (lastSet 0%Z durations)
       end)
  ∧ (∀ key,
       CommonConfig.Annotations merged !! key
       = lastBinding key (CommonConfig.Annotations <$> configs))
  ∧ (∀ key,
       CommonConfig.Labels merged !! key
       = lastBinding key (CommonConfig.Labels <$> configs))
  ∧ (∀ key,
       CommonConfig.ResourcePresets merged !! key
       = lastBinding key (CommonConfig.ResourcePresets <$> configs))
  ∧ (∀ key,
       CommonConfig.RequirementPresets merged !! key
       = lastBinding key (CommonConfig.RequirementPresets <$> configs)).
Proof.
  intros merged. subst merged. split; [|split; [|split; [|split]]].
  - repeat split.
    all: try (merged_field (mergo.mergeValue (A:=string) mergeOptions);
              simpl; apply foldl_mergeValue_lastSet).
    all: try (merged_field (mergo.mergeValue (A:=Z) mergeOptions);
              simpl; apply foldl_mergeValue_lastSet).
    merged_field (mergo.mergePtr (A:=Z) mergeOptions).
    simpl. rewrite foldl_mergePtr_lastSet.
    replace (omap id (CommonConfig.Timeout <$> configs))
      with (omap CommonConfig.Timeout configs); [done|].
    clear. induction configs as [|c configs IH]; [done|].
    rewrite fmap_cons. cbn [omap list_omap]. cbn [omap list_omap] in IH.
    rewrite IH. by destruct (CommonConfig.Timeout c).
  - intros key.
    merged_field (mergo.mergeMap (V:=string) mergeOptions). simpl.
    rewrite foldl_mergeMap_lastBinding.
    by destruct (lastBinding _ _).
  - intros key.
    merged_field (mergo.mergeMap (V:=string) mergeOptions). simpl.
    rewrite foldl_mergeMap_lastBinding.
    by destruct (lastBinding _ _).
  - intros key.
    merged_field (mergo.mergeMap (V:=ResourceRequirements.t) mergeOptions).
    simpl. rewrite foldl_mergeMap_lastBinding.
    by destruct (lastBinding _ _).
  - intros key.
    merged_field (mergo.mergeMap (V:=RequirementPreset.t) mergeOptions).
    simpl. rewrite foldl_mergeMap_lastBinding.
    by destruct (lastBinding _ _).
Qed.

(** C4. The NodeSelector of the merged configuration is the NodeSelector
    of the last input whose NodeSelector is not empty, and is empty when
    no input has one; in particular a key that only an earlier selector
    has is not in the result once a later input declares a selector. *)
Theorem mergeCommonConfig_NodeSelector_replaced (configs : list CommonConfig.t) :
  CommonConfig.NodeSelector (mergeCommonConfig configs)
  = lastNonEmpty (CommonConfig.NodeSelector <$> configs)
  ∧ ∀ earlier later key,
      CommonConfig.NodeSelector later ≠ ∅ →
      CommonConfig.NodeSelector later !! key = None →
      CommonConfig.NodeSelector
        (mergeCommonConfig (configs ++ [earlier; later])) !! key = None.
Proof.
  assert (∀ cs, CommonConfig.NodeSelector (mergeCommonConfig cs)
                = lastNonEmpty (CommonConfig.NodeSelector <$> cs)) as Hlast.
  { intros cs. unfold mergeCommonConfig, lastNonEmpty.
    rewrite (foldl_projection mergeCommonConfig_step CommonConfig.NodeSelector
               CommonConfig.NodeSelector chooseNodeSelector)
      by apply mergeCommonConfig_step_NodeSelector.
    apply foldl_chooseNodeSelector. }
  split; [apply Hlast|].
  intros earlier later key Hne Hkey. rewrite Hlast.
  unfold lastNonEmpty, lastNonEmptyOr.
  rewrite fmap_app, filter_app, last_app. simpl.
  rewrite !filter_cons, filter_nil.
  rewrite (decide_True _ _ Hne).
  by case_decide.
Qed.

(** ** String lemmas *)

Lemma append_cons (c : ascii) (s t : string) :
  String c s +:+ t = String c (s +:+ t).
Proof. reflexivity. Qed.

Lemma append_empty_l (s : string) : "" +:+ s = s.
Proof. reflexivity. Qed.

Lemma append_empty_r (s : string) : s +:+ "" = s.
Proof.
  induction s as [|c s IH]; [done|]. by rewrite append_cons, IH.
Qed.

Lemma append_assoc (s t u : string) : (s +:+ t) +:+ u = s +:+ t +:+ u.
Proof.
  induction s as [|c s IH]; [done|]. by rewrite !append_cons, IH.
Qed.

Lemma length_append (s t : string) :
  String.length (s +:+ t) = String.length s + String.length t.
Proof.
  induction s as [|c s IH]; [done|]. rewrite append_cons. simpl. by rewrite IH.
Qed.

Lemma createJobBase_accepts cli baseConfig jobConfig job name branch resources :
  ((String.length name ≤ 63)%nat ∨ Client.LongJobNamesAllowed cli = true) →
  ∃ jb, createJobBase cli baseConfig jobConfig job name branch resources
        = Returned jb
        ∧ JobBase.Name jb = name
        ∧ JobBase.ExtraRefs jb
          = createExtraRefs (Job.Repos job) branch
              (BaseConfig.PathAliases baseConfig)
        ∧ JobBase.Annotations jb
          = CommonConfig.Annotations (Job.CommonConfig job)
        ∧ JobBase.Labels jb = CommonConfig.Labels (Job.CommonConfig job).
Proof.
  intros Hname. unfold createJobBase.
  assert ((maxJobNameLength <? String.length name)%nat
          && negb (Client.LongJobNamesAllowed cli) = false) as ->.
  { destruct Hname as [Hlen | ->]; [|apply andb_false_r].
    apply andb_false_intro1, Nat.ltb_ge. unfold maxJobNameLength. lia. }
  eexists. split; [reflexivity|]. by repeat split.
Qed.

Lemma createJobBase_rejects cli baseConfig jobConfig job name branch resources :
  (64 ≤ String.length name)%nat →
  Client.LongJobNamesAllowed cli = false →
  createJobBase cli baseConfig jobConfig job name branch resources
  = Failed ("job name exceeds 63 character limit '" +:+ name +:+ "'").
Proof.
  intros Hlen Hlong. unfold createJobBase. rewrite Hlong.
  assert ((maxJobNameLength <? String.length name)%nat = true) as ->.
  { apply Nat.ltb_lt. unfold maxJobNameLength. lia. }
  reflexivity.
Qed.

(** C9. createJobBase accepts every name of at most 63 bytes, and every
    name when long job names are allowed; for a name of 64 bytes or more,
    long names not being allowed, it returns an error that quotes the
    name, and the presubmit, postsubmit and periodic blocks, which call
    it with the suffixed name, fail with that error. *)
Theorem createJobBase_name_limit `{External} (cli : Client.t)
    (baseConfig : BaseConfig.t) (jobsConfig : JobsConfig.t) (job : Job.t)
    (name branch : string) (resources : gmap string ResourceRequirements.t) :
  (((String.length name ≤ 63)%nat ∨ Client.LongJobNamesAllowed cli = true) →
   ∃ jb, createJobBase cli baseConfig jobsConfig job name branch resources
         = Returned jb ∧ JobBase.Name jb = name)
  ∧ ((64 ≤ String.length name)%nat → Client.LongJobNamesAllowed cli = false →
     createJobBase cli baseConfig jobsConfig job name branch resources
     = Failed ("job name exceeds 63 character limit '" +:+ name +:+ "'"))
  ∧ (Client.LongJobNamesAllowed cli = false →
     ((64 ≤ String.length (materializedName job jobsConfig branch ""))%nat →
      convertPresubmit cli jobsConfig branch job
      = Failed ("job name exceeds 63 character limit '" +:+
                materializedName job jobsConfig branch "" +:+ "'"))
     ∧ ((64 ≤ String.length (materializedName job jobsConfig branch "_postsubmit"))%nat →
        convertPostsubmit cli jobsConfig branch job
        = Failed ("job name exceeds 63 character limit '" +:+
                  materializedName job jobsConfig branch "_postsubmit" +:+ "'"))
     ∧ ((64 ≤ String.length (materializedName job jobsConfig branch "_periodic"))%nat →
        convertPeriodic cli jobsConfig branch job
        = Failed ("job name exceeds 63 character limit '" +:+
                  materializedName job jobsConfig branch "_periodic" +:+ "'"))).
Proof.
  split; [|split].
  - intros Hname.
    destruct (createJobBase_accepts cli baseConfig jobsConfig job name branch
                resources Hname) as (jb & Hjb & Hn & _).
    by exists jb.
  - apply createJobBase_rejects.
  - intros Hlong. split; [|split]; intros Hlen.
    + unfold convertPresubmit. cbn zeta.
      unfold materializedName in Hlen. rewrite append_empty_r in Hlen.
      unfold materializedName. rewrite append_empty_r.
      by rewrite createJobBase_rejects.
    + unfold convertPostsubmit. cbn zeta.
      unfold materializedName in *.
      by rewrite createJobBase_rejects.
    + unfold convertPeriodic. cbn zeta.
      unfold materializedName in *.
      by rewrite createJobBase_rejects.
Qed.

(** ** Validation *)

Lemma validate_valid (input : string) (options : list string) :
  foldl (λ valid opt, if bool_decide (input = opt) then true else valid)
    false options = bool_decide (input ∈ options).
Proof.
  induction options as [|opt options IH] using rev_ind; [done|].
  rewrite foldl_app. simpl. rewrite IH.
  destruct (bool_decide (input = opt)) eqn:Heq.
  - apply bool_decide_eq_true in Heq as ->. symmetry.
    apply bool_decide_eq_true, elem_of_app. right. apply list_elem_of_singleton.
    done.
  - apply bool_decide_eq_false in Heq.
    apply bool_decide_ext. rewrite elem_of_app, list_elem_of_singleton.
    tauto.
Qed.

Lemma validate_spec (input : string) (options : list string)
    (description : string) :
  validate input options description
  = if decide (input ∈ options) then None
    else Some (Rules.invalidOption options description input).
Proof.
  unfold validate. rewrite validate_valid.
  by destruct (decide (input ∈ options));
    [rewrite bool_decide_eq_true_2|rewrite bool_decide_eq_false_2].
Qed.

Lemma foldl_appendInvalid (options : list string) (description : string)
    (inputs err : list string) :
  foldl (appendInvalid options description) err inputs
  = (err ++ Rules.notDrawnFrom options description inputs)%list.
Proof.
  unfold Rules.notDrawnFrom. revert err.
  induction inputs as [|input inputs IH]; intros err; simpl.
  { by rewrite app_nil_r. }
  rewrite IH. unfold appendInvalid, multierror.Append.
  rewrite validate_spec, filter_cons.
  destruct (decide (input ∈ options)).
  - by rewrite decide_False by tauto.
  - rewrite decide_True by done. by rewrite fmap_cons, <- app_assoc.
Qed.

Lemma length_splitFrom_slash (s current : string) :
  length (strings.splitFrom "/" 0 current s) = S (Rules.slashes s).
Proof.
  revert current. induction s as [|c s IH]; intros current; [done|].
  cbn [strings.splitFrom Rules.slashes String.prefix].
  destruct (ascii_dec "/" c) as [<-|Hne].
  - rewrite Ascii.eqb_refl.
    assert (String.prefix "" s = true) as -> by (by destruct s).
    cbn [length]. by rewrite IH.
  - assert (Ascii.eqb c "/" = false) as ->.
    { apply Ascii.eqb_neq. congruence. }
    apply IH.
Qed.

Lemma foldl_malformedRepos (fileName : string) (repos err : list string) :
  foldl
    (λ err repo,
       if negb (length (strings.Split repo "/") =? 2)%nat
       then multierror.Append err
              (fileName +:+ ": repo " +:+ repo +:+
               " not valid, should take form org/repo")
       else err)
    err repos
  = (err ++
     ((λ repo, fileName +:+ ": repo " +:+ repo +:+
               " not valid, should take form org/repo")
      <$> filter (λ repo, Rules.slashes repo ≠ 1) repos))%list.
Proof.
  revert err. induction repos as [|repo repos IH]; intros err; simpl.
  { by rewrite app_nil_r. }
  rewrite IH. unfold strings.Split. rewrite length_splitFrom_slash.
  rewrite filter_cons. unfold multierror.Append.
  destruct (decide (Rules.slashes repo ≠ 1)) as [Hne|Heq].
  - assert ((S (Rules.slashes repo) =? 2)%nat = false) as ->.
    { apply Nat.eqb_neq. lia. }
    simpl. by rewrite <- app_assoc.
  - assert ((S (Rules.slashes repo) =? 2)%nat = true) as ->.
    { apply Nat.eqb_eq. lia. }
    done.
Qed.

Lemma Has_NewString (items : list string) (item : string) :
  sets.Has (sets.NewString items) item = bool_decide (item ∈ items).
Proof.
  unfold sets.Has, sets.NewString. apply bool_decide_ext.
  by rewrite elem_of_list_to_set.
Qed.

Lemma validatePeriodic_spec `{External} (fileName : string) (job : Job.t)
    (err : list string) :
  TypePeriodic ∈ Job.Types job →
  validatePeriodic fileName job err
  = (err ++ Rules.invalidSchedule fileName job)%list.
Proof.
  intros Hperiodic. unfold validatePeriodic, Rules.invalidSchedule.
  rewrite decide_True by done. unfold multierror.Append.
  destruct (decide (CommonConfig.Cron (Job.CommonConfig job) = "")) as [Hc|Hc];
    destruct (decide (CommonConfig.Interval (Job.CommonConfig job) = ""))
      as [Hi|Hi].
  - by rewrite !bool_decide_eq_true_2.
  - rewrite (bool_decide_eq_true_2 _ Hc), (bool_decide_eq_false_2 _ Hi). simpl.
    destruct (ParseDuration _); [done|]. by rewrite app_nil_r.
  - rewrite (bool_decide_eq_false_2 _ Hc), (bool_decide_eq_true_2 _ Hi). simpl.
    destruct (cronParse _); [done|]. by rewrite app_nil_r.
  - by rewrite (bool_decide_eq_false_2 _ Hc), (bool_decide_eq_false_2 _ Hi).
Qed.

Lemma imageUnset_spec (fileName : string) (job : Job.t) (err : list string) :
  (if bool_decide (CommonConfig.Image (Job.CommonConfig job) = "")
   then multierror.Append err
          (fileName +:+ ": image must be set for job " +:+ Job.Name job)
   else err)
  = (err ++ Rules.imageUnset fileName job)%list.
Proof.
  unfold Rules.imageUnset, multierror.Append.
  destruct (decide (CommonConfig.Image (Job.CommonConfig job) = "")) as [Hi|Hi].
  - by rewrite (bool_decide_eq_true_2 _ Hi).
  - by rewrite (bool_decide_eq_false_2 _ Hi), app_nil_r.
Qed.

Lemma unknownResources_spec (fileName : string)
    (resourcePresets : gmap string ResourceRequirements.t)
    (job : Job.t) (err : list string) :
  (if negb (bool_decide (CommonConfig.Resources (Job.CommonConfig job) = ""))
   then match resourcePresets
              !! CommonConfig.Resources (Job.CommonConfig job) with
        | None =>
            multierror.Append err
              (fileName +:+ ": job '" +:+ Job.Name job +:+
               "' has nonexistant resource '" +:+
               CommonConfig.Resources (Job.CommonConfig job) +:+ "'")
        | Some _ => err
        end
   else err)
  = (err ++ Rules.unknownResources fileName resourcePresets job)%list.
Proof.
  unfold Rules.unknownResources, multierror.Append. cbn zeta.
  destruct (decide (CommonConfig.Resources (Job.CommonConfig job) = ""))
    as [Hr|Hr].
  - rewrite (bool_decide_eq_true_2 _ Hr). simpl.
    rewrite decide_False by tauto. by rewrite app_nil_r.
  - rewrite (bool_decide_eq_false_2 _ Hr). simpl.
    destruct (_ !! _) eqn:Hlookup.
    + rewrite decide_False by (intros [_ ?]; congruence). by rewrite app_nil_r.
    + by rewrite decide_True by done.
Qed.

Lemma validateJob_spec `{External} (fileName : string)
    (jobsConfig : JobsConfig.t) (err : list string) (job : Job.t) :
  validateJob fileName jobsConfig err job
  = (err ++ Rules.ofJob fileName jobsConfig job)%list.
Proof.
  unfold validateJob, Rules.ofJob. cbn zeta.
  rewrite foldl_malformedRepos, foldl_appendInvalid.
  rewrite Has_NewString.
  assert (∀ e,
    (if bool_decide (TypePeriodic ∈ Job.Types job)
     then validatePeriodic fileName job e else e)
    = (e ++ Rules.invalidSchedule fileName job)%list) as ->.
  { intros e. destruct (decide (TypePeriodic ∈ Job.Types job)) as [Hp|Hp].
    - rewrite bool_decide_eq_true_2 by done. by apply validatePeriodic_spec.
    - rewrite bool_decide_eq_false_2 by done. unfold Rules.invalidSchedule.
      rewrite decide_False by done. by rewrite app_nil_r. }
  rewrite foldl_appendInvalid, unknownResources_spec, imageUnset_spec.
  unfold Rules.invalidModifiers, Rules.invalidTypes, Rules.malformedRepos.
  by rewrite <- !app_assoc.
Qed.

Lemma foldl_validateJob `{External} (fileName : string)
    (jobsConfig : JobsConfig.t) (jobs : list Job.t) (err : list string) :
  foldl (validateJob fileName jobsConfig) err jobs
  = (err ++ flat_map (Rules.ofJob fileName jobsConfig) jobs)%list.
Proof.
  revert err. induction jobs as [|job jobs IH]; intros err; simpl.
  { by rewrite app_nil_r. }
  by rewrite IH, validateJob_spec, <- app_assoc.
Qed.

Lemma validationErrors_spec `{External} (fileName : string)
    (jobsConfig : JobsConfig.t) :
  validationErrors fileName jobsConfig = Rules.ofCatalog fileName jobsConfig.
Proof.
  unfold validationErrors, Rules.ofCatalog. cbn zeta.
  rewrite foldl_validateJob. rewrite app_assoc. f_equal.
  unfold Rules.orgUnset, Rules.repoUnset, multierror.Append.
  destruct (decide (JobsConfig.Org jobsConfig = "")) as [Ho|Ho];
    destruct (decide (JobsConfig.Repo jobsConfig = "")) as [Hr|Hr].
  - by rewrite (bool_decide_eq_true_2 _ Ho), (bool_decide_eq_true_2 _ Hr).
  - by rewrite (bool_decide_eq_true_2 _ Ho), (bool_decide_eq_false_2 _ Hr).
  - by rewrite (bool_decide_eq_false_2 _ Ho), (bool_decide_eq_true_2 _ Hr).
  - by rewrite (bool_decide_eq_false_2 _ Ho), (bool_decide_eq_false_2 _ Hr).
Qed.

Lemma length_ofCatalog `{External} (fileName : string)
    (jobsConfig : JobsConfig.t) :
  length (Rules.ofCatalog fileName jobsConfig)
  = Rules.count fileName jobsConfig.
Proof.
  unfold Rules.ofCatalog, Rules.count. rewrite !length_app.
  rewrite <- Nat.add_assoc. do 2 f_equal.
  induction (JobsConfig.Jobs jobsConfig) as [|job jobs IH]; [done|].
  simpl. rewrite length_app, IH. f_equal.
  unfold Rules.ofJob. rewrite !length_app. lia.
Qed.

Lemma Refactored_validate_spec (input : string) (options : list string)
    (description : string) :
  Refactored.validate input options description
  = if decide (input ∈ options) then None
    else Some (Rules.invalidOption options description input).
Proof.
  unfold Refactored.validate. rewrite Has_NewString.
  by destruct (decide (input ∈ options));
    [rewrite bool_decide_eq_true_2|rewrite bool_decide_eq_false_2].
Qed.

Lemma Refactored_foldl_appendInvalid (options : list string)
    (description : string) (inputs err : list string) :
  foldl (Refactored.appendInvalid options description) err inputs
  = (err ++ Rules.notDrawnFrom options description inputs)%list.
Proof.
  unfold Rules.notDrawnFrom. revert err.
  induction inputs as [|input inputs IH]; intros err; simpl.
  { by rewrite app_nil_r. }
  rewrite IH. unfold Refactored.appendInvalid, multierror.Append.
  rewrite Refactored_validate_spec, filter_cons.
  destruct (decide (input ∈ options)).
  - by rewrite decide_False by tauto.
  - rewrite decide_True by done. by rewrite fmap_cons, <- app_assoc.
Qed.

Lemma Refactored_validateJob_spec `{External} (fileName org : string)
    (resourcePresets : gmap string ResourceRequirements.t)
    (err : list string) (job : Refactored.SpecJob.t) :
  Refactored.validateJob fileName org resourcePresets err job
  = (err ++ RefactoredRules.ofJob fileName org resourcePresets job)%list.
Proof.
  unfold Refactored.validateJob, RefactoredRules.ofJob. cbn zeta.
  rewrite foldl_malformedRepos, !Refactored_foldl_appendInvalid.
  rewrite Has_NewString.
  assert (∀ e,
    (if bool_decide (TypePeriodic ∈ Job.Types (Refactored.SpecJob.Base job))
     then validatePeriodic fileName (Refactored.SpecJob.Base job) e else e)
    = (e ++ Rules.invalidSchedule fileName (Refactored.SpecJob.Base job))%list)
    as ->.
  { intros e.
    destruct (decide (TypePeriodic ∈ Job.Types (Refactored.SpecJob.Base job)))
      as [Hp|Hp].
    - rewrite bool_decide_eq_true_2 by done. by apply validatePeriodic_spec.
    - rewrite bool_decide_eq_false_2 by done. unfold Rules.invalidSchedule.
      rewrite decide_False by done. by rewrite app_nil_r. }
  rewrite unknownResources_spec, imageUnset_spec.
  assert (∀ e,
    (if bool_decide (org = "istio") || bool_decide (org = "istio-private")
     then if strings.Contains (Job.Name (Refactored.SpecJob.Base job)) "_"
          then multierror.Append e
                 (fileName +:+ ": job may not contain '_' " +:+
                  Job.Name (Refactored.SpecJob.Base job))
          else e
     else e)
    = (e ++ RefactoredRules.underscoreInName fileName org job)%list) as ->.
  { intros e. unfold RefactoredRules.underscoreInName, multierror.Append.
    destruct (strings.Contains _ "_") eqn:Hc.
    - destruct (decide ((org = "istio" ∨ org = "istio-private") ∧ true = true))
        as [[Horg _]|Hn].
      + assert (bool_decide (org = "istio")
                || bool_decide (org = "istio-private") = true) as ->; [|done].
        destruct Horg as [-> | ->]; reflexivity.
      + assert (bool_decide (org = "istio")
                || bool_decide (org = "istio-private") = false) as ->.
        { apply orb_false_intro; apply bool_decide_eq_false_2; tauto. }
        by rewrite app_nil_r.
    - rewrite decide_False by (intros [_ ?]; congruence).
      rewrite app_nil_r. by destruct (_ || _). }
  unfold RefactoredRules.invalidTypes, RefactoredRules.invalidArchitectures,
    Rules.malformedRepos.
  by rewrite <- !app_assoc.
Qed.

Lemma Refactored_validateJobsConfig_spec `{External} (fileName org repo : string)
    (resourcePresets : gmap string ResourceRequirements.t)
    (jobs : list Refactored.SpecJob.t) :
  Refactored.validateJobsConfig fileName org repo resourcePresets jobs
  = RefactoredRules.ofCatalog fileName org repo resourcePresets jobs.
Proof.
  unfold Refactored.validateJobsConfig, RefactoredRules.ofCatalog. cbn zeta.
  assert (∀ js err,
    foldl (Refactored.validateJob fileName org resourcePresets) err js
    = (err ++ flat_map (RefactoredRules.ofJob fileName org resourcePresets) js)%list)
    as ->.
  { induction js as [|j js IH]; intros err; simpl.
    - by rewrite app_nil_r.
    - by rewrite IH, Refactored_validateJob_spec, <- app_assoc. }
  rewrite app_assoc. f_equal. unfold multierror.Append.
  destruct (decide (org = "")) as [Ho|Ho]; destruct (decide (repo = "")) as [Hr|Hr].
  - by rewrite (bool_decide_eq_true_2 _ Ho), (bool_decide_eq_true_2 _ Hr).
  - by rewrite (bool_decide_eq_true_2 _ Ho), (bool_decide_eq_false_2 _ Hr).
  - by rewrite (bool_decide_eq_false_2 _ Ho), (bool_decide_eq_true_2 _ Hr).
  - by rewrite (bool_decide_eq_false_2 _ Ho), (bool_decide_eq_false_2 _ Hr).
Qed.

(** C2, as the code has it.  Validation checks every rule and collects
    every violation.  The multi-error ValidateJobConfig accumulates is
    the list of all violations of the catalog (empty organization, empty
    repository, and for each job in turn: missing image, unknown resource
    preset, each invalid modifier, invalid schedule of a periodic, each
    invalid type, each malformed extra repository), so a catalog that
    breaks N rules yields N errors; the validator returns when there is
    none and otherwise does not return them but hands all of them to
    exit.  validateJobsConfig of the later evolution returns the list of
    all violations of the rules it checks, the modifier rule not being
    one of them. *)
Theorem validation_collects_all_violations `{External} (fileName : string)
    (jobsConfig : JobsConfig.t) (org repo : string)
    (resourcePresets : gmap string ResourceRequirements.t)
    (jobs : list Refactored.SpecJob.t) :
  validationErrors fileName jobsConfig = Rules.ofCatalog fileName jobsConfig
  ∧ length (validationErrors fileName jobsConfig)
    = Rules.count fileName jobsConfig
  ∧ (Rules.ofCatalog fileName jobsConfig = [] →
     ValidateJobConfig fileName jobsConfig = Returned ())
  ∧ (Rules.ofCatalog fileName jobsConfig ≠ [] →
     ValidateJobConfig fileName jobsConfig
     = Exited "validation failed" (Rules.ofCatalog fileName jobsConfig))
  ∧ Refactored.validateJobsConfig fileName org repo resourcePresets jobs
    = RefactoredRules.ofCatalog fileName org repo resourcePresets jobs.
Proof.
  split; [apply validationErrors_spec|].
  split; [by rewrite validationErrors_spec, length_ofCatalog|].
  split; [|split].
  - intros Hnone. unfold ValidateJobConfig.
    by rewrite validationErrors_spec, Hnone.
  - intros Hsome. unfold ValidateJobConfig. rewrite validationErrors_spec.
    by destruct (Rules.ofCatalog fileName jobsConfig).
  - apply Refactored_validateJobsConfig_spec.
Qed.

(** generate.go does not return the violation of a catalog without
    organization, it exits with it; and the later validator, which
    returns its violations, has no complaint about a job whose modifier
    is not one of the three. *)
Lemma validation_exits_or_skips_modifiers :
  returned
    (ValidateJobConfig (H := Sample.collaborators) "jobs.yaml"
       (JobsConfig.mk CommonConfig.zero false "sample" "" "" [] ∅ []))
  = None
  ∧ ValidateJobConfig (H := Sample.collaborators) "jobs.yaml"
      (JobsConfig.mk CommonConfig.zero false "sample" "" "" [] ∅ [])
    = Exited "validation failed" ["jobs.yaml: org must be set"]
  ∧ Rules.invalidModifiers
      (Catalog.withResourcesAndModifiers Catalog.unit "" ["visible"])
    = ["'visible' is not a valid status. Must be one of hidden, presubmit_optional, presubmit_skipped"]
  ∧ Refactored.validateJobsConfig (H := Sample.collaborators) "jobs.yaml"
      "org" "sample" ∅
      [Refactored.SpecJob.mk
         (Catalog.withResourcesAndModifiers Catalog.unit "" ["visible"]) []]
    = [].
Proof. repeat split; vm_compute; reflexivity. Qed.

Lemma invalidSchedule_in_catalog `{External} (fileName : string)
    (jobsConfig : JobsConfig.t) (job : Job.t) :
  job ∈ JobsConfig.Jobs jobsConfig →
  Rules.invalidSchedule fileName job ⊆ Rules.ofCatalog fileName jobsConfig.
Proof.
  intros Hjob e He. unfold Rules.ofCatalog.
  apply elem_of_app. right. apply elem_of_app. right.
  apply list_elem_of_In, in_flat_map. exists job.
  split; [by apply list_elem_of_In|].
  apply list_elem_of_In. unfold Rules.ofJob.
  rewrite !elem_of_app. auto.
Qed.

(** C8. Of a job whose types include periodic the validator requires
    exactly one of cron and interval, and that the one declared parses: it
    reports the job when both are set, when neither is set, when the cron
    expression does not parse and when the interval does not parse, and
    it has no complaint about the schedule exactly when one of the two is
    set, the other is not, and the one set parses.  A complaint about the
    schedule of a job of the catalog makes validation of the catalog
    fail, the complaint being among the errors. *)
Theorem periodic_schedule_validated `{External} (fileName : string)
    (jobsConfig : JobsConfig.t) (job : Job.t) :
  TypePeriodic ∈ Job.Types job →
  let cron := CommonConfig.Cron (Job.CommonConfig job) in
  let interval := CommonConfig.Interval (Job.CommonConfig job) in
  let complaints := validatePeriodic fileName job [] in
  (cron ≠ "" → interval ≠ "" →
   complaints
   = [fileName +:+ ": cron and interval cannot be both set in periodic "
      +:+ Job.Name job])
  ∧ (cron = "" → interval = "" →
     complaints
     = [fileName +:+ ": cron and interval cannot be both empty in periodic "
        +:+ Job.Name job])
  ∧ (cron ≠ "" → cronParse cron ≠ None → complaints ≠ [])
  ∧ (interval ≠ "" → ParseDuration interval ≠ None → complaints ≠ [])
  ∧ (complaints = [] ↔
     (cron ≠ "" ∧ interval = "" ∧ cronParse cron = None)
     ∨ (cron = "" ∧ interval ≠ "" ∧ ParseDuration interval = None))
  ∧ (job ∈ JobsConfig.Jobs jobsConfig → complaints ≠ [] →
     ∃ errs, ValidateJobConfig fileName jobsConfig
             = Exited "validation failed" errs
             ∧ complaints ⊆ errs).
Proof.
  intros Hperiodic cron interval complaints.
  assert (complaints = Rules.invalidSchedule fileName job) as Hcomplaints.
  { unfold complaints. by rewrite validatePeriodic_spec. }
  rewrite Hcomplaints. clear complaints Hcomplaints.
  assert (Rules.invalidSchedule fileName job
          = match decide (cron = ""), decide (interval = "") with
            | right _, right _ =>
                [fileName +:+
                 ": cron and interval cannot be both set in periodic "
                 +:+ Job.Name job]
            | left _, left _ =>
                [fileName +:+
                 ": cron and interval cannot be both empty in periodic "
                 +:+ Job.Name job]
            | right _, left _ =>
                match cronParse cron with
                | Some e =>
                    [fileName +:+ ": invalid cron string " +:+ cron +:+
                     " in periodic " +:+ Job.Name job +:+ ": " +:+ e]
                | None => []
                end
            | left _, right _ =>
                match ParseDuration interval with
                | Some e =>
                    [fileName +:+ ": cannot parse duration " +:+ interval +:+
                     " in periodic " +:+ Job.Name job +:+ ": " +:+ e]
                | None => []
                end
            end) as Hrule.
  { unfold Rules.invalidSchedule. by rewrite decide_True by done. }
  repeat split.
  - intros Hc Hi. rewrite Hrule. by destruct (decide _), (decide _).
  - intros Hc Hi. rewrite Hrule. by destruct (decide _), (decide _).
  - intros Hc Hparse. rewrite Hrule.
    destruct (decide (cron = "")), (decide (interval = "")); try done.
    by destruct (cronParse cron).
  - intros Hi Hparse. rewrite Hrule.
    destruct (decide (cron = "")), (decide (interval = "")); try done.
    by destruct (ParseDuration interval).
  - rewrite Hrule. intros Hnone.
    destruct (decide (cron = "")), (decide (interval = "")); try done.
    + right. by destruct (ParseDuration interval).
    + left. by destruct (cronParse cron).
  - rewrite Hrule.
    intros [(Hc & Hi & Hparse) | (Hc & Hi & Hparse)];
      destruct (decide (cron = "")), (decide (interval = "")); try done;
      by rewrite Hparse.
  - intros Hjob Hsome.
    exists (Rules.ofCatalog fileName jobsConfig). split.
    + unfold ValidateJobConfig. rewrite validationErrors_spec.
      pose proof (invalidSchedule_in_catalog fileName jobsConfig job Hjob)
        as Hsub.
      destruct (Rules.ofCatalog fileName jobsConfig) as [|e errs]; [|done].
      destruct (Rules.invalidSchedule fileName job) as [|c cs]; [done|].
      exfalso. specialize (Hsub c). rewrite elem_of_nil in Hsub.
      apply Hsub. by left.
    + by apply invalidSchedule_in_catalog.
Qed.

(** ** Containers *)

(** C10. createContainer looks the job's resource preset up under the
    preset's name, and under "default" when the job names none: the
    container gets the table's entry when the table has the key, and is
    left with no resource requirements when it has not; either way the
    one container is returned.  This holds of the generator and of the
    first generator. *)
Theorem createContainer_resources (jobConfig : JobsConfig.t) (job : Job.t)
    (legacyJob : Legacy.Job.t)
    (resources : gmap string ResourceRequirements.t) :
  (∃ c, createContainer jobConfig job resources = [c]
     ∧ (CommonConfig.Resources (Job.CommonConfig job) = "" →
        ∀ r, resources !! "default" = Some r → Container.Resources c = r)
     ∧ (CommonConfig.Resources (Job.CommonConfig job) = "" →
        resources !! "default" = None →
        Container.Resources c = ResourceRequirements.zero)
     ∧ (resources !! CommonConfig.Resources (Job.CommonConfig job) = None →
        CommonConfig.Resources (Job.CommonConfig job) ≠ "" →
        Container.Resources c = ResourceRequirements.zero))
  ∧ (∃ c, Legacy.createContainer legacyJob resources = [c]
       ∧ (Legacy.Job.Resources legacyJob = "" →
          ∀ r, resources !! "default" = Some r → Container.Resources c = r)
       ∧ (Legacy.Job.Resources legacyJob = "" →
          resources !! "default" = None →
          Container.Resources c = ResourceRequirements.zero)
       ∧ (resources !! Legacy.Job.Resources legacyJob = None →
          Legacy.Job.Resources legacyJob ≠ "" →
          Container.Resources c = ResourceRequirements.zero)).
Proof.
  split.
  - unfold createContainer. cbn zeta. eexists. split; [reflexivity|].
    unfold DefaultResource.
    destruct (decide (CommonConfig.Resources (Job.CommonConfig job) = ""))
      as [Hr|Hr].
    + rewrite (bool_decide_eq_true_2 _ Hr). simpl.
      repeat split; try done.
      * intros _ r ->. by destruct (negb _).
      * intros _ ->. by destruct (negb _).
    + rewrite (bool_decide_eq_false_2 _ Hr). simpl.
      repeat split; try done.
      intros -> _. by destruct (negb _).
  - unfold Legacy.createContainer. cbn zeta. eexists. split; [reflexivity|].
    unfold DefaultResource.
    destruct (decide (Legacy.Job.Resources legacyJob = "")) as [Hr|Hr].
    + rewrite (bool_decide_eq_true_2 _ Hr). simpl.
      repeat split; try done.
      * by intros _ r ->.
      * by intros _ ->.
    + rewrite (bool_decide_eq_false_2 _ Hr). simpl.
      repeat split; try done.
      by intros -> _.
Qed.

(** ** Materialization *)

Lemma createExtraRefs_fmap (extraRepos : list string) (defaultBranch : string)
    (pathAliases : gmap string string) :
  createExtraRefs extraRepos defaultBranch pathAliases
  = createExtraRef defaultBranch pathAliases <$> extraRepos.
Proof.
  unfold createExtraRefs.
  assert (∀ refs,
    foldl (λ refs extraRepo,
             (refs ++ [createExtraRef defaultBranch pathAliases extraRepo])%list)
      refs extraRepos
    = (refs ++ (createExtraRef defaultBranch pathAliases <$> extraRepos))%list)
    as ->; [|done].
  induction extraRepos as [|r rs IH]; intros refs; simpl.
  - by rewrite app_nil_r.
  - by rewrite IH, <- app_assoc.
Qed.

Lemma applyRequirements_keeps `{External} (job jb : JobBase.t)
    (requirements blocked : list string)
    (presetMap : gmap string RequirementPreset.t) :
  applyRequirements job requirements blocked presetMap = Returned jb →
  JobBase.Name jb = JobBase.Name job
  ∧ JobBase.UtilityConfig jb = JobBase.UtilityConfig job
  ∧ ∃ labels spec presets,
      JobBase.Annotations jb
      = (resolveRequirements (JobBase.Annotations job) labels spec presets).1.1.
Proof.
  unfold applyRequirements. cbn zeta.
  destruct (foldl _ (foldl _ [] requirements) blocked); [|done].
  destruct (resolveRequirements _ _ _ _) as [[annotations labels] spec] eqn:Hr.
  intros [= <-]. repeat split. do 3 eexists. by rewrite Hr.
Qed.

Lemma applyModifiersPresubmit_keeps (presubmit : Presubmit.t)
    (jobModifiers : list string) :
  let result := applyModifiersPresubmit presubmit jobModifiers in
  Presubmit.Trigger result = Presubmit.Trigger presubmit
  ∧ JobBase.Name (Presubmit.JobBase result)
    = JobBase.Name (Presubmit.JobBase presubmit)
  ∧ JobBase.UtilityConfig (Presubmit.JobBase result)
    = JobBase.UtilityConfig (Presubmit.JobBase presubmit)
  ∧ JobBase.Annotations (Presubmit.JobBase result)
    = JobBase.Annotations (Presubmit.JobBase presubmit).
Proof.
  unfold applyModifiersPresubmit. revert presubmit.
  induction jobModifiers as [|modifier rest IH]; intros presubmit; [done|].
  cbn [foldl]. cbn zeta.
  destruct (IH (if bool_decide (modifier = ModifierPresubmitOptional)
       then Presubmit.withOptional presubmit true
       else if bool_decide (modifier = ModifierHidden)
       then Presubmit.withJobBase (Presubmit.withSkipReport presubmit true)
              (JobBase.withReporterConfig (Presubmit.JobBase presubmit)
                 (Some (ReporterConfig.mk
                          (Some (SlackReporterConfig.mk "" (Some []) None)))))
       else if bool_decide (modifier = ModifierPresubmitSkipped)
       then Presubmit.withAlwaysRun presubmit false
       else presubmit)) as (-> & -> & -> & ->).
  by repeat case_bool_decide.
Qed.

Lemma applyModifiersPostsubmit_keeps (postsubmit : Postsubmit.t)
    (jobModifiers : list string) :
  let result := applyModifiersPostsubmit postsubmit jobModifiers in
  JobBase.Name (Postsubmit.JobBase result)
  = JobBase.Name (Postsubmit.JobBase postsubmit)
  ∧ JobBase.UtilityConfig (Postsubmit.JobBase result)
    = JobBase.UtilityConfig (Postsubmit.JobBase postsubmit)
  ∧ JobBase.Annotations (Postsubmit.JobBase result)
    = JobBase.Annotations (Postsubmit.JobBase postsubmit).
Proof.
  unfold applyModifiersPostsubmit. revert postsubmit.
  induction jobModifiers as [|modifier rest IH]; intros postsubmit; [done|].
  cbn [foldl]. cbn zeta.
  destruct (IH (if bool_decide (modifier = ModifierPresubmitOptional)
       then postsubmit
       else if bool_decide (modifier = ModifierHidden)
       then Postsubmit.withJobBase (Postsubmit.withSkipReport postsubmit true)
              (JobBase.withReporterConfig (Postsubmit.JobBase postsubmit)
                 (Some (ReporterConfig.mk
                          (Some (SlackReporterConfig.mk "" None (Some false))))))
       else postsubmit)) as (-> & -> & ->).
  by repeat case_bool_decide.
Qed.

(** What the generator hands to the requirement presets as the
    annotations of a job, dashboard integration being enabled: the job's
    annotations merged with the injected ones by [mergeMaps]. *)
Lemma lookup_mergeMaps_pair (annotations injected : gmap string string)
    (key : string) :
  mergeMaps [annotations; injected] !! key
  = match injected !! key with
    | Some v => Some v
    | None => annotations !! key
    end.
Proof.
  unfold mergeMaps. cbn [foldl].
  assert (∀ (init m : gmap string string),
    map_fold (λ k v newMap, <[k := v]> newMap) init m !! key
    = match m !! key with Some v => Some v | None => init !! key end) as Hfold.
  { intros init m.
    apply (map_fold_weak_ind
             (λ r m, r !! key
                     = match m !! key with Some v => Some v | None => init !! key end)).
    - by rewrite lookup_empty.
    - intros i x m' r Hi IH. destruct (decide (i = key)) as [->|Hne].
      + by rewrite !lookup_insert_eq.
      + by rewrite !lookup_insert_ne. }
  rewrite !Hfold, lookup_empty. by destruct (annotations !! key).
Qed.

Lemma createJobBase_returns cli baseConfig jobConfig job name branch resources jb :
  createJobBase cli baseConfig jobConfig job name branch resources
  = Returned jb →
  JobBase.Name jb = name
  ∧ JobBase.ExtraRefs jb
    = createExtraRefs (Job.Repos job) branch (BaseConfig.PathAliases baseConfig)
  ∧ JobBase.Annotations jb = CommonConfig.Annotations (Job.CommonConfig job).
Proof.
  unfold createJobBase.
  destruct (_ && _); [done|]. by intros [= <-].
Qed.

Lemma convertPresubmit_returns `{External} (cli : Client.t)
    (jobsConfig : JobsConfig.t) (branch : string) (job job' : Job.t)
    (presubmit : Presubmit.t) :
  convertPresubmit cli jobsConfig branch job = Returned (presubmit, job') →
  JobBase.Name (Presubmit.JobBase presubmit)
  = materializedName job jobsConfig branch ""
  ∧ Presubmit.Trigger presubmit
    = (if negb (bool_decide (CommonConfig.Trigger (Job.CommonConfig job) = ""))
       then "(" +:+ DefaultTriggerFor (materializedName job jobsConfig branch "")
            +:+ ")|((?m)^" +:+ CommonConfig.Trigger (Job.CommonConfig job)
            +:+ "(\s+|$))"
       else "")
  ∧ JobBase.ExtraRefs (Presubmit.JobBase presubmit)
    = createExtraRef branch (BaseConfig.PathAliases (Client.BaseConfig cli))
      <$> Job.Repos job
  ∧ (∃ labels spec presets,
       JobBase.Annotations (Presubmit.JobBase presubmit)
       = (resolveRequirements (annotationsForPresets cli {[TestGridDashboard := testgridJobPrefixOf jobsConfig branch]} job)
            labels spec presets).1.1)
  ∧ Job.Repos job' = Job.Repos job ∧ Job.Types job' = Job.Types job.
Proof.
  unfold convertPresubmit, materializedName, annotationsForPresets. cbn zeta.
  rewrite append_empty_r.
  destruct (createJobBase _ _ _ _ _ _ _) as [base| |] eqn:Hbase; [|done..].
  apply createJobBase_returns in Hbase as (Hname & Hrefs & Hann).
  cbn [mbind outcome_bind].
  match goal with
  | |- context [applyRequirements
                  (Presubmit.JobBase (applyModifiersPresubmit ?p ?m))] =>
      pose proof (applyModifiersPresubmit_keeps p m) as (Htrig & Hn & Hu & Ha);
      set (modified := applyModifiersPresubmit p m) in *
  end.
  destruct (applyRequirements _ _ _ _) as [jb| |] eqn:Hreq; [|done..].
  apply applyRequirements_keeps in Hreq
    as (Hjn & Hju & labels & spec & presets & Hja).
  intros [= <- <-].
  cbn [Presubmit.withJobBase Presubmit.JobBase Presubmit.Trigger].
  unfold JobBase.ExtraRefs. rewrite Hjn, Hju, Hn, Hu, Htrig.
  rewrite <- createExtraRefs_fmap, <- Hrefs, <- Hname.
  split; [|split; [|split; [|split; [|done]]]].
  - unfold when, whenFound. by repeat case_match.
  - unfold when, whenFound.
    destruct (bool_decide (CommonConfig.Trigger (Job.CommonConfig job) = ""));
      cbn [negb]; by repeat case_match.
  - unfold when, whenFound, JobBase.ExtraRefs. by repeat case_match.
  - exists labels, spec, presets. rewrite Hja, Ha, <- Hann.
    unfold when, whenFound. by repeat case_match.
Qed.

Lemma convertPostsubmit_returns `{External} (cli : Client.t)
    (jobsConfig : JobsConfig.t) (branch : string) (job job' : Job.t)
    (postsubmit : Postsubmit.t) :
  convertPostsubmit cli jobsConfig branch job = Returned (postsubmit, job') →
  JobBase.Name (Postsubmit.JobBase postsubmit)
  = materializedName job jobsConfig branch "_postsubmit"
  ∧ JobBase.ExtraRefs (Postsubmit.JobBase postsubmit)
    = createExtraRef branch (BaseConfig.PathAliases (Client.BaseConfig cli))
      <$> Job.Repos job
  ∧ (∃ labels spec presets,
       JobBase.Annotations (Postsubmit.JobBase postsubmit)
       = (resolveRequirements
            (annotationsForPresets cli
               (alertingAnnotations
                  (BaseConfig.TestgridConfig (Client.BaseConfig cli))
                  (testgridJobPrefixOf jobsConfig branch) "_postsubmit") job)
            labels spec presets).1.1)
  ∧ Job.Repos job' = Job.Repos job ∧ Job.Types job' = Job.Types job.
Proof.
  unfold convertPostsubmit, materializedName, annotationsForPresets. cbn zeta.
  destruct (createJobBase _ _ _ _ _ _ _) as [base| |] eqn:Hbase; [|done..].
  apply createJobBase_returns in Hbase as (Hname & Hrefs & Hann).
  cbn [mbind outcome_bind].
  match goal with
  | |- context [applyRequirements
                  (Postsubmit.JobBase (applyModifiersPostsubmit ?p ?m))] =>
      pose proof (applyModifiersPostsubmit_keeps p m) as (Hn & Hu & Ha);
      set (modified := applyModifiersPostsubmit p m) in *
  end.
  destruct (applyRequirements _ _ _ _) as [jb| |] eqn:Hreq; [|done..].
  apply applyRequirements_keeps in Hreq
    as (Hjn & Hju & labels & spec & presets & Hja).
  intros [= <- <-].
  cbn [Postsubmit.withJobBase Postsubmit.JobBase].
  unfold JobBase.ExtraRefs. rewrite Hjn, Hju, Hn, Hu.
  rewrite <- createExtraRefs_fmap, <- Hrefs, <- Hname.
  split; [|split; [|split; [|done]]].
  - unfold when, whenFound. by repeat case_match.
  - unfold when, whenFound, JobBase.ExtraRefs. by repeat case_match.
  - exists labels, spec, presets. rewrite Hja, Ha, <- Hann.
    unfold when, whenFound. by repeat case_match.
Qed.

Lemma convertPeriodic_returns `{External} (cli : Client.t)
    (jobsConfig : JobsConfig.t) (branch : string) (job job' : Job.t)
    (periodic : Periodic.t) :
  convertPeriodic cli jobsConfig branch job = Returned (periodic, job') →
  JobBase.Name (Periodic.JobBase periodic)
  = materializedName job jobsConfig branch "_periodic"
  ∧ JobBase.ExtraRefs (Periodic.JobBase periodic)
    = createExtraRef branch (BaseConfig.PathAliases (Client.BaseConfig cli))
        (JobsConfig.Org jobsConfig +:+ "/" +:+ JobsConfig.Repo jobsConfig)
      :: (createExtraRef branch (BaseConfig.PathAliases (Client.BaseConfig cli))
          <$> Job.Repos job)
  ∧ (∃ labels spec presets,
       JobBase.Annotations (Periodic.JobBase periodic)
       = (resolveRequirements
            (annotationsForPresets cli
               (alertingAnnotations
                  (BaseConfig.TestgridConfig (Client.BaseConfig cli))
                  (testgridJobPrefixOf jobsConfig branch) "_periodic") job)
            labels spec presets).1.1).
Proof.
  unfold convertPeriodic, materializedName, annotationsForPresets. cbn zeta.
  destruct (createJobBase _ _ _ _ _ _ _) as [base| |] eqn:Hbase; [|done..].
  apply createJobBase_returns in Hbase as (Hname & Hrefs & Hann).
  cbn [mbind outcome_bind].
  destruct (applyRequirements _ _ _ _) as [jb| |] eqn:Hreq; [|done..].
  apply applyRequirements_keeps in Hreq
    as (Hjn & Hju & labels & spec & presets & Hja).
  intros [= <- <-].
  cbn [Periodic.withJobBase Periodic.JobBase].
  unfold JobBase.ExtraRefs. rewrite Hjn, Hju.
  rewrite createExtraRefs_fmap in Hrefs.
  cbn [Job.withRepos Job.Repos Job.CommonConfig app fmap list_fmap] in Hrefs, Hann.
  unfold JobBase.ExtraRefs in Hrefs.
  split; [|split].
  - rewrite <- Hname. unfold when. by repeat case_match.
  - rewrite <- Hrefs. unfold when. by repeat case_match.
  - exists labels, spec, presets. rewrite Hja, <- Hann.
    unfold when. by repeat case_match.
Qed.

Lemma elem_of_map_keys {V} (m : gmap string V) (key : string) :
  key ∈ (map_to_list m).*1 ↔ is_Some (m !! key).
Proof.
  rewrite list_elem_of_fmap. split.
  - intros ([k v] & -> & Hkv). apply elem_of_map_to_list in Hkv. by exists v.
  - intros [v Hv]. exists (key, v). split; [done|].
    by apply elem_of_map_to_list.
Qed.

Lemma applyRequirements_returns `{External} (job : JobBase.t)
    (requirements blocked : list string)
    (presetMap : gmap string RequirementPreset.t) :
  (∀ name, name ∈ requirements ∨ name ∈ blocked → is_Some (presetMap !! name)) →
  ∃ jb, applyRequirements job requirements blocked presetMap = Returned jb.
Proof.
  intros Hknown. unfold applyRequirements. cbn zeta.
  rewrite !foldl_appendInvalid. cbn [app].
  assert (∀ names description,
            (∀ name, name ∈ names → is_Some (presetMap !! name)) →
            Rules.notDrawnFrom (map_to_list presetMap).*1 description names = [])
    as Hnone.
  { intros names description Hall. unfold Rules.notDrawnFrom.
    induction names as [|name names IH]; [done|].
    rewrite filter_cons, decide_False.
    - apply IH. intros n Hn. apply Hall. by right.
    - intros Hnot. apply Hnot, elem_of_map_keys, Hall. by left. }
  rewrite !Hnone by (intros; apply Hknown; auto). cbn [app].
  destruct (resolveRequirements _ _ _ _) as [[annotations labels] spec].
  by eexists.
Qed.

(** ** The reference of a repository written as [org/repo] *)

Lemma prefix_empty (s : string) : String.prefix "" s = true.
Proof. by destruct s. Qed.

Lemma Contains_byte_cons (c a : ascii) (s : string) :
  strings.Contains (String a s) (String c "")
  = bool_decide (c = a) || strings.Contains s (String c "").
Proof.
  cbn [strings.Contains String.prefix]. rewrite prefix_empty.
  destruct (ascii_dec c a) as [->|Hne].
  - by rewrite bool_decide_eq_true_2.
  - by rewrite bool_decide_eq_false_2.
Qed.

Lemma Contains_byte_append (c : ascii) (s t : string) :
  strings.Contains (s +:+ t) (String c "")
  = strings.Contains s (String c "") || strings.Contains t (String c "").
Proof.
  induction s as [|a s IH].
  - rewrite append_empty_l. by destruct t.
  - rewrite append_cons, !Contains_byte_cons, IH. by rewrite orb_assoc.
Qed.

Lemma prefix_byte_cons (c a : ascii) (s : string) :
  String.prefix (String c "") (String a s) = bool_decide (c = a).
Proof.
  cbn [String.prefix]. rewrite prefix_empty.
  destruct (ascii_dec c a) as [->|Hne].
  - by rewrite bool_decide_eq_true_2.
  - by rewrite bool_decide_eq_false_2.
Qed.

Lemma splitFrom_absent (c : ascii) (s current : string) :
  strings.Contains s (String c "") = false →
  strings.splitFrom (String c "") 0 current s = [current +:+ s].
Proof.
  revert current. induction s as [|a s IH]; intros current Habsent.
  - by rewrite append_empty_r.
  - rewrite Contains_byte_cons in Habsent.
    apply orb_false_elim in Habsent as [Hca Hs].
    cbn [strings.splitFrom]. rewrite prefix_byte_cons, Hca.
    rewrite IH by done. by rewrite append_assoc.
Qed.

Lemma lastIndexFrom_absent (c : ascii) (s : string) (i found : Z) :
  strings.Contains s (String c "") = false →
  strings.lastIndexFrom (String c "") i found s = found.
Proof.
  revert i found. induction s as [|a s IH]; intros i found Habsent; [done|].
  rewrite Contains_byte_cons in Habsent.
  apply orb_false_elim in Habsent as [Hca Hs].
  cbn [strings.lastIndexFrom]. rewrite prefix_byte_cons, Hca. by apply IH.
Qed.

Lemma lastIndexFrom_last (c : ascii) (s t : string) (i found : Z) :
  strings.Contains t (String c "") = false →
  strings.lastIndexFrom (String c "") i found (s +:+ String c t)
  = (i + Z.of_nat (String.length s))%Z.
Proof.
  intros Habsent. revert i found. induction s as [|a s IH]; intros i found.
  - rewrite append_empty_l. cbn [strings.lastIndexFrom].
    rewrite prefix_byte_cons, bool_decide_eq_true_2 by done.
    rewrite lastIndexFrom_absent by done. simpl. lia.
  - rewrite append_cons. cbn [strings.lastIndexFrom]. rewrite IH.
    cbn [String.length]. lia.
Qed.

Lemma sliceFrom_append (s t : string) :
  strings.sliceFrom (String.length s) (s +:+ t) = t.
Proof. induction s as [|a s IH]; [by destruct t|]. by rewrite append_cons. Qed.

Lemma sliceTo_append (s t : string) :
  strings.sliceTo (String.length s) (s +:+ t) = s.
Proof.
  induction s as [|a s IH]; [by destruct t|].
  rewrite append_cons. simpl. by rewrite IH.
Qed.

Lemma TrimSuffix_append (s suffix : string) :
  strings.TrimSuffix (s +:+ suffix) suffix = s.
Proof.
  unfold strings.TrimSuffix, strings.HasSuffix.
  rewrite length_append.
  replace (String.length s + String.length suffix - String.length suffix)
    with (String.length s) by lia.
  rewrite sliceFrom_append, sliceTo_append.
  rewrite bool_decide_eq_true_2 by done.
  by assert ((String.length suffix <=? String.length s + String.length suffix)%nat
             = true) as -> by (apply Nat.leb_le; lia).
Qed.

(** The reference made of [org/repo], neither part holding an [@] and
    [repo] holding no slash: the organization, the repository and the
    default branch. *)
Lemma createExtraRef_org_repo (defaultBranch org repo : string)
    (pathAliases : gmap string string) :
  strings.Contains org "@" = false →
  strings.Contains repo "@" = false →
  strings.Contains repo "/" = false →
  createExtraRef defaultBranch pathAliases (org +:+ "/" +:+ repo)
  = Refs.mk org repo defaultBranch
      (match pathAliases !! org with
       | Some pa => pa +:+ "/" +:+ repo
       | None => ""
       end)
      (if strings.Contains org "." then "https://" +:+ org +:+ "/" +:+ repo
       else "").
Proof.
  intros Horg Hrepo Hslash. unfold createExtraRef. cbn zeta.
  unfold strings.Split. rewrite splitFrom_absent.
  2:{ rewrite Contains_byte_append, Horg.
      change ("/" +:+ repo) with (String "/" repo).
      by rewrite Contains_byte_cons, Hrepo. }
  rewrite append_empty_l.
  cbn [length Nat.ltb Nat.leb lookup list_lookup default from_option id].
  unfold strings.LastIndex.
  change ("/" +:+ repo) with (String "/" repo).
  rewrite (lastIndexFrom_last "/" org repo) by done.
  replace (Z.to_nat (0 + Z.of_nat (String.length org) + 1))
    with (String.length (org +:+ "/")) by (rewrite length_append; simpl; lia).
  change (org +:+ String "/" repo) with (org +:+ "/" +:+ repo).
  rewrite <- (append_assoc org "/" repo), sliceFrom_append.
  rewrite (append_assoc org "/" repo), TrimSuffix_append.
  done.
Qed.

(** ** From the blocks to the generated configuration *)

Lemma forEach_invariant {A B} (body : A → B → outcome A) (holds : A → Prop)
    (xs : list B) (acc acc' : A) :
  (∀ acc x acc', holds acc → body acc x = Returned acc' → holds acc') →
  holds acc → forEach body acc xs = Returned acc' → holds acc'.
Proof.
  intros Hstep. revert acc.
  induction xs as [|x xs IH]; intros acc Hacc; cbn [forEach].
  - by intros [= <-].
  - destruct (body acc x) as [acc1| |] eqn:Hbody; [|done..].
    cbn [mbind outcome_bind]. apply IH. by eapply Hstep.
Qed.

Lemma convertExpandedJob_fromBlocks `{External} (cli : Client.t)
    (jobsConfig : JobsConfig.t) (branch : string) (acc acc' : Collected.t)
    (job : Job.t) :
  collectedFromBlocks cli jobsConfig branch acc →
  convertExpandedJob cli jobsConfig branch acc job = Returned acc' →
  collectedFromBlocks cli jobsConfig branch acc'.
Proof.
  intros (Hpre & Hpost & Hper). unfold convertExpandedJob.
  destruct ((length (Job.Types job) =? 0)%nat
            || sets.Has (sets.NewString (Job.Types job)) TypePresubmit).
  - destruct (convertPresubmit cli jobsConfig branch job)
      as [[presubmit job1]| |] eqn:Hpresubmit; [|done..].
    cbn [mbind outcome_bind].
    destruct ((length (Job.Types job1) =? 0)%nat
              || sets.Has (sets.NewString (Job.Types job1)) TypePostsubmit).
    + destruct (convertPostsubmit cli jobsConfig branch job1)
        as [[postsubmit job2]| |] eqn:Hpostsubmit; [|done..].
      cbn [mbind outcome_bind].
      destruct (sets.Has (sets.NewString (Job.Types job2)) TypePeriodic).
      * destruct (convertPeriodic cli jobsConfig branch job2)
          as [[periodic job3]| |] eqn:Hperiodic; [|done..].
        cbn [mbind outcome_bind]. intros [= <-].
        repeat split; cbn; apply Forall_app; (split; [done|]);
          apply Forall_singleton; by eexists _, _.
      * cbn [mbind outcome_bind]. intros [= <-].
        repeat split; cbn; [| |done]; apply Forall_app; (split; [done|]);
          apply Forall_singleton; by eexists _, _.
    + cbn [mbind outcome_bind].
      destruct (sets.Has (sets.NewString (Job.Types job1)) TypePeriodic).
      * destruct (convertPeriodic cli jobsConfig branch job1)
          as [[periodic job3]| |] eqn:Hperiodic; [|done..].
        cbn [mbind outcome_bind]. intros [= <-].
        repeat split; cbn; [|done|]; apply Forall_app; (split; [done|]);
          apply Forall_singleton; by eexists _, _.
      * cbn [mbind outcome_bind]. intros [= <-].
        repeat split; cbn; [|done..]. apply Forall_app. split; [done|].
        apply Forall_singleton. by eexists _, _.
  - cbn [mbind outcome_bind].
    destruct ((length (Job.Types job) =? 0)%nat
              || sets.Has (sets.NewString (Job.Types job)) TypePostsubmit).
    + destruct (convertPostsubmit cli jobsConfig branch job)
        as [[postsubmit job2]| |] eqn:Hpostsubmit; [|done..].
      cbn [mbind outcome_bind].
      destruct (sets.Has (sets.NewString (Job.Types job2)) TypePeriodic).
      * destruct (convertPeriodic cli jobsConfig branch job2)
          as [[periodic job3]| |] eqn:Hperiodic; [|done..].
        cbn [mbind outcome_bind]. intros [= <-].
        repeat split; cbn; [done| |]; apply Forall_app; (split; [done|]);
          apply Forall_singleton; by eexists _, _.
      * cbn [mbind outcome_bind]. intros [= <-].
        repeat split; cbn; [done| |done]. apply Forall_app. split; [done|].
        apply Forall_singleton. by eexists _, _.
    + cbn [mbind outcome_bind].
      destruct (sets.Has (sets.NewString (Job.Types job)) TypePeriodic).
      * destruct (convertPeriodic cli jobsConfig branch job)
          as [[periodic job3]| |] eqn:Hperiodic; [|done..].
        cbn [mbind outcome_bind]. intros [= <-].
        repeat split; cbn; [done..|]. apply Forall_app. split; [done|].
        apply Forall_singleton. by eexists _, _.
      * cbn [mbind outcome_bind]. by intros [= <-].
Qed.

Lemma convertParentJob_fromBlocks `{External} (cli : Client.t)
    (jobsConfig : JobsConfig.t) (branch : string)
    (state state' : Collected.t * JobConfig.t) (parentJob : Job.t) :
  collectedFromBlocks cli jobsConfig branch state.1
  ∧ generatedFromBlocks cli jobsConfig branch state.2 →
  convertParentJob cli jobsConfig branch state parentJob = Returned state' →
  collectedFromBlocks cli jobsConfig branch state'.1
  ∧ generatedFromBlocks cli jobsConfig branch state'.2.
Proof.
  destruct state as [acc output]. cbn [fst snd].
  intros [Hacc (Hpre & Hpost & Hper)].
  unfold convertParentJob.
  destruct (applyMatrixJob parentJob (JobsConfig.Matrix jobsConfig))
    as [expandedJobs| |]; [|done..].
  cbn [mbind outcome_bind].
  destruct (forEach (convertExpandedJob cli jobsConfig branch) acc expandedJobs)
    as [acc1| |] eqn:Hloop; [|done..].
  cbn [mbind outcome_bind]. cbn zeta. intros [= <-].
  assert (collectedFromBlocks cli jobsConfig branch acc1)
    as (Hpre1 & Hpost1 & Hper1).
  { revert Hloop. apply forEach_invariant; [|done].
    intros a x a' Ha Hstep. by eapply convertExpandedJob_fromBlocks. }
  split; [done|]. cbn [snd]. repeat split; cbn.
  - intros key presubmits.
    destruct (length (Collected.presubmits acc1)) as [|n]; [apply Hpre|].
    destruct (decide (JobsConfig.Org jobsConfig +:+ "/" +:+
                      JobsConfig.Repo jobsConfig = key)) as [<-|Hne].
    + rewrite lookup_insert_eq. by intros [= <-].
    + rewrite lookup_insert_ne by done. apply Hpre.
  - intros key postsubmits.
    destruct (length (Collected.postsubmits acc1)) as [|n]; [apply Hpost|].
    destruct (decide (JobsConfig.Org jobsConfig +:+ "/" +:+
                      JobsConfig.Repo jobsConfig = key)) as [<-|Hne].
    + rewrite lookup_insert_eq. by intros [= <-].
    + rewrite lookup_insert_ne by done. apply Hpost.
  - by destruct (length (Collected.periodics acc1)).
Qed.

Lemma ConvertJobConfig_fromBlocks `{External} (cli : Client.t)
    (jobsConfig : JobsConfig.t) (branch : string) (output : JobConfig.t) :
  ConvertJobConfig cli jobsConfig branch = Returned output →
  generatedFromBlocks cli jobsConfig branch output.
Proof.
  unfold ConvertJobConfig.
  destruct (forEach _ _ _) as [[acc out]| |] eqn:Hloop; [|done..].
  cbn [mbind outcome_bind]. intros [= <-].
  apply (forEach_invariant (convertParentJob cli jobsConfig branch)
           (λ state, collectedFromBlocks cli jobsConfig branch state.1
                     ∧ generatedFromBlocks cli jobsConfig branch state.2))
    in Hloop.
  - by destruct Hloop.
  - intros state x state' Hstate Hstep.
    by eapply convertParentJob_fromBlocks.
  - by repeat split.
Qed.

Lemma convertPeriodic_total `{External} (cli : Client.t)
    (jobsConfig : JobsConfig.t) (branch : string) (job : Job.t) :
  ((String.length (materializedName job jobsConfig branch "_periodic") ≤ 63)%nat
   ∨ Client.LongJobNamesAllowed cli = true) →
  requirementsKnown jobsConfig job →
  ∃ periodic job',
    convertPeriodic cli jobsConfig branch job = Returned (periodic, job').
Proof.
  intros Hname Hknown. unfold convertPeriodic. cbn zeta.
  match goal with
  | |- context [createJobBase ?c ?b ?jc ?j ?n ?br ?r] =>
      destruct (createJobBase_accepts c b jc j n br r Hname) as (jb & -> & _)
  end.
  cbn [mbind outcome_bind].
  match goal with
  | |- context [applyRequirements ?j ?rs ?bs ?m] =>
      destruct (applyRequirements_returns j rs bs m Hknown) as (jb' & ->)
  end.
  by eexists _, _.
Qed.

(** C7. A periodic is materialized with the owning repository in front of
    its extra references.  The periodic block returns for a job whose
    suffixed name fits and whose requirements are known; the extra
    references of what it returns are the reference made of org/repo with
    the target branch as default, followed by the references of the job's
    declared extra repositories in their order.  Made of an organization
    and a repository without [@] and a repository without slash, that
    first reference names the organization, the repository and the target
    branch.  The presubmit and the postsubmit block give exactly the
    references of the declared extra repositories.  Every periodic of a
    configuration ConvertJobConfig returns has extra references of that
    shape, for the expanded job it was made of. *)
Theorem periodic_checks_out_own_repository `{External} (cli : Client.t)
    (jobsConfig : JobsConfig.t) (branch : string) (job : Job.t) :
  let pathAliases := BaseConfig.PathAliases (Client.BaseConfig cli) in
  let own := JobsConfig.Org jobsConfig +:+ "/" +:+ JobsConfig.Repo jobsConfig in
  (((String.length (materializedName job jobsConfig branch "_periodic") ≤ 63)%nat
    ∨ Client.LongJobNamesAllowed cli = true) →
   requirementsKnown jobsConfig job →
   ∃ periodic job',
     convertPeriodic cli jobsConfig branch job = Returned (periodic, job'))
  ∧ (∀ periodic job',
       convertPeriodic cli jobsConfig branch job = Returned (periodic, job') →
       JobBase.ExtraRefs (Periodic.JobBase periodic)
       = createExtraRef branch pathAliases own
         :: (createExtraRef branch pathAliases <$> Job.Repos job))
  ∧ (strings.Contains (JobsConfig.Org jobsConfig) "@" = false →
     strings.Contains (JobsConfig.Repo jobsConfig) "@" = false →
     strings.Contains (JobsConfig.Repo jobsConfig) "/" = false →
     Refs.Org (createExtraRef branch pathAliases own) = JobsConfig.Org jobsConfig
     ∧ Refs.Repo (createExtraRef branch pathAliases own)
       = JobsConfig.Repo jobsConfig
     ∧ Refs.BaseRef (createExtraRef branch pathAliases own) = branch)
  ∧ (∀ presubmit job',
       convertPresubmit cli jobsConfig branch job = Returned (presubmit, job') →
       JobBase.ExtraRefs (Presubmit.JobBase presubmit)
       = createExtraRef branch pathAliases <$> Job.Repos job)
  ∧ (∀ postsubmit job',
       convertPostsubmit cli jobsConfig branch job
       = Returned (postsubmit, job') →
       JobBase.ExtraRefs (Postsubmit.JobBase postsubmit)
       = createExtraRef branch pathAliases <$> Job.Repos job)
  ∧ (∀ output,
       ConvertJobConfig cli jobsConfig branch = Returned output →
       Forall
         (λ periodic,
            ∃ expanded,
              JobBase.ExtraRefs (Periodic.JobBase periodic)
              = createExtraRef branch pathAliases own
                :: (createExtraRef branch pathAliases <$> Job.Repos expanded))
         (JobConfig.Periodics output)).
Proof.
  intros pathAliases own. split; [|split; [|split; [|split; [|split]]]].
  6:{ intros output Hreturned.
      apply ConvertJobConfig_fromBlocks in Hreturned as (_ & _ & Hperiodics).
      eapply Forall_impl; [exact Hperiodics|].
      intros periodic (expanded & job' & Hblock). exists expanded.
      by apply convertPeriodic_returns in Hblock as (_ & ? & _). }
  - apply convertPeriodic_total.
  - intros periodic job' Hreturned.
    by apply convertPeriodic_returns in Hreturned as (_ & ? & _).
  - intros Horg Hrepo Hslash. unfold own.
    by rewrite createExtraRef_org_repo.
  - intros presubmit job' Hreturned.
    by apply convertPresubmit_returns in Hreturned as (_ & _ & ? & _).
  - intros postsubmit job' Hreturned.
    by apply convertPostsubmit_returns in Hreturned as (_ & ? & _).
Qed.

(** ** Triggers *)

(** C6, as the code has it.  The generator that collects the triggers in
    a list gives every presubmit the alternation of the default trigger of
    the job's name, the default trigger of the materialized name and,
    when the job declares a trigger phrase, that phrase anchored to the
    start of a line.  generate.go sets a trigger only when the job
    declares a phrase: the alternation of the default trigger of the
    materialized name and the anchored phrase. *)
Theorem presubmit_trigger_alternatives `{External} (cli : Client.t)
    (jobsConfig : JobsConfig.t) (branch name : string) (job : Job.t)
    (specJob : Refactored.SpecJob.t) :
  let custom :=
    CommonConfig.Trigger (Job.CommonConfig (Refactored.SpecJob.Base specJob)) in
  Refactored.presubmitTrigger specJob name
  = strings.Join
      (["(" +:+ DefaultTriggerFor (Job.Name (Refactored.SpecJob.Base specJob))
        +:+ ")";
        "(" +:+ DefaultTriggerFor name +:+ ")"]
       ++ (if decide (custom = "") then []
           else ["((?m)^" +:+ custom +:+ "(\s+|$))"]))%list
      "|"
  ∧ (∀ presubmit job',
      convertPresubmit cli jobsConfig branch job = Returned (presubmit, job') →
      Presubmit.Trigger presubmit
      = if decide (CommonConfig.Trigger (Job.CommonConfig job) = "") then ""
        else strings.Join
               ["(" +:+ DefaultTriggerFor
                          (materializedName job jobsConfig branch "") +:+ ")";
                "((?m)^" +:+ CommonConfig.Trigger (Job.CommonConfig job)
                +:+ "(\s+|$))"]
               "|")
  ∧ (∀ output key presubmits,
       ConvertJobConfig cli jobsConfig branch = Returned output →
       JobConfig.PresubmitsStatic output !! key = Some presubmits →
       Forall
         (λ presubmit,
            Presubmit.Trigger presubmit = ""
            ∨ ∃ phrase,
                phrase ≠ ""
                ∧ Presubmit.Trigger presubmit
                  = strings.Join
                      ["(" +:+ DefaultTriggerFor
                                 (JobBase.Name (Presubmit.JobBase presubmit))
                       +:+ ")";
                       "((?m)^" +:+ phrase +:+ "(\s+|$))"]
                      "|")
         presubmits).
Proof.
  intros custom.
  assert (∀ job presubmit job',
            convertPresubmit cli jobsConfig branch job
            = Returned (presubmit, job') →
            JobBase.Name (Presubmit.JobBase presubmit)
            = materializedName job jobsConfig branch ""
            ∧ Presubmit.Trigger presubmit
              = if decide (CommonConfig.Trigger (Job.CommonConfig job) = "")
                then ""
                else strings.Join
                       ["(" +:+ DefaultTriggerFor
                                  (materializedName job jobsConfig branch "")
                        +:+ ")";
                        "((?m)^" +:+ CommonConfig.Trigger (Job.CommonConfig job)
                        +:+ "(\s+|$))"]
                       "|") as Hblock.
  { intros j presubmit job' Hreturned.
    apply convertPresubmit_returns in Hreturned as (Hname & -> & _).
    split; [done|].
    destruct (decide (CommonConfig.Trigger (Job.CommonConfig j) = ""))
      as [Hc|Hc].
    + by rewrite (bool_decide_eq_true_2 _ Hc).
    + rewrite (bool_decide_eq_false_2 _ Hc). cbn [negb strings.Join].
      by rewrite !append_assoc. }
  split; [|split].
  3:{ intros output key presubmits Hreturned Hkey.
      apply ConvertJobConfig_fromBlocks in Hreturned as (Hpresubmits & _).
      eapply Forall_impl; [exact (Hpresubmits key presubmits Hkey)|].
      intros presubmit (expanded & job' & Hreturned).
      apply Hblock in Hreturned as [Hname ->]. rewrite Hname.
      destruct (decide (CommonConfig.Trigger (Job.CommonConfig expanded) = ""));
        [by left|right; eauto]. }
  2:{ intros presubmit job' Hreturned. by apply Hblock in Hreturned as [_ ?]. }
  - unfold Refactored.presubmitTrigger. cbn zeta. fold custom.
    destruct (decide (custom = "")) as [Hc|Hc].
    + by rewrite (bool_decide_eq_true_2 _ Hc).
    + by rewrite (bool_decide_eq_false_2 _ Hc).
Qed.

(** generate.go on the catalog of org/sample with the job [unit], which
    declares no trigger phrase: the presubmit has no trigger, not the
    alternation of the two default triggers. *)
Lemma presubmit_trigger_unset :
  CommonConfig.Trigger (Job.CommonConfig Catalog.unit) = ""
  ∧ (JobBase.Name ∘ Presubmit.JobBase ∘ fst)
    <$> returned
          (convertPresubmit (H := Sample.collaborators)
             (Catalog.client false false) (Catalog.sample [Catalog.unit])
             "master" Catalog.unit)
    = Some "unit_sample"
  ∧ (Presubmit.Trigger ∘ fst)
    <$> returned
          (convertPresubmit (H := Sample.collaborators)
             (Catalog.client false false) (Catalog.sample [Catalog.unit])
             "master" Catalog.unit)
    = Some ""
  ∧ (Presubmit.Trigger ∘ fst)
    <$> returned
          (convertPresubmit (H := Sample.collaborators)
             (Catalog.client false false) (Catalog.sample [Catalog.unit])
             "master" Catalog.unit)
    ≠ Some (strings.Join
              ["(" +:+ Sample.defaultTrigger "unit" +:+ ")";
               "(" +:+ Sample.defaultTrigger "unit_sample" +:+ ")"]
              "|").
Proof.
  repeat split; [vm_compute; reflexivity..|].
  vm_compute. discriminate.
Qed.

(** ** Dashboard annotations *)

Lemma lookup_mergeAnnotations (annotations injected : gmap string string)
    (key : string) :
  Refactored.mergeAnnotations annotations injected !! key
  = match annotations !! key, injected !! key with
    | Some own, Some new => Some (if bool_decide (own = "") then new else own)
    | Some own, None => Some own
    | None, new => new
    end.
Proof.
  unfold Refactored.mergeAnnotations, mergo.mergeMap.
  rewrite lookup_union_with.
  by destruct (annotations !! key), (injected !! key).
Qed.

(** C5, as the code has it.  The generator that injects with mergo.Merge
    keeps every annotation the job binds to a non-empty value, and gives
    the injected value to a dashboard key the job does not bind or binds
    to the empty string.  generate.go injects with mergeMaps: with
    dashboard integration enabled, the annotations its three blocks pass
    on to the requirement presets bind every injected key to the
    injected value, whatever the job binds it to, and every other key as
    the job does. *)
Theorem dashboard_annotations_precedence `{External} (cli : Client.t)
    (jobsConfig : JobsConfig.t) (branch suffix : string) (job : Job.t)
    (annotations injected : gmap string string) (key value : string) :
  let testgridConfig := BaseConfig.TestgridConfig (Client.BaseConfig cli) in
  let testgridJobPrefix := testgridJobPrefixOf jobsConfig branch in
  (annotations !! key = Some value → value ≠ "" →
   Refactored.presubmitAnnotations testgridConfig testgridJobPrefix annotations
     !! key = Some value
   ∧ Refactored.alertedAnnotations testgridConfig testgridJobPrefix suffix
       annotations !! key = Some value)
  ∧ (TestgridConfig.Enabled testgridConfig = true →
     annotations !! TestGridDashboard = None
     ∨ annotations !! TestGridDashboard = Some "" →
     Refactored.presubmitAnnotations testgridConfig testgridJobPrefix annotations
       !! TestGridDashboard = Some testgridJobPrefix
     ∧ Refactored.alertedAnnotations testgridConfig testgridJobPrefix suffix
         annotations !! TestGridDashboard = Some (testgridJobPrefix +:+ suffix))
  ∧ (TestgridConfig.Enabled testgridConfig = true →
     annotationsForPresets cli injected job !! key
     = match injected !! key with
       | Some new => Some new
       | None => CommonConfig.Annotations (Job.CommonConfig job) !! key
       end)
  ∧ (∀ presubmit job',
       convertPresubmit cli jobsConfig branch job = Returned (presubmit, job') →
       ∃ labels spec presets,
         JobBase.Annotations (Presubmit.JobBase presubmit)
         = (resolveRequirements
              (annotationsForPresets cli
                 {[TestGridDashboard := testgridJobPrefix]} job)
              labels spec presets).1.1)
  ∧ (∀ postsubmit job',
       convertPostsubmit cli jobsConfig branch job
       = Returned (postsubmit, job') →
       ∃ labels spec presets,
         JobBase.Annotations (Postsubmit.JobBase postsubmit)
         = (resolveRequirements
              (annotationsForPresets cli
                 (alertingAnnotations testgridConfig testgridJobPrefix
                    "_postsubmit") job)
              labels spec presets).1.1)
  ∧ (∀ periodic job',
       convertPeriodic cli jobsConfig branch job = Returned (periodic, job') →
       ∃ labels spec presets,
         JobBase.Annotations (Periodic.JobBase periodic)
         = (resolveRequirements
              (annotationsForPresets cli
                 (alertingAnnotations testgridConfig testgridJobPrefix
                    "_periodic") job)
              labels spec presets).1.1).
Proof.
  intros testgridConfig testgridJobPrefix.
  split; [|split; [|split; [|split; [|split]]]].
  - intros Hown Hvalue.
    unfold Refactored.presubmitAnnotations, Refactored.alertedAnnotations.
    destruct (TestgridConfig.Enabled testgridConfig); [|done].
    rewrite !lookup_mergeAnnotations, Hown.
    rewrite (bool_decide_eq_false_2 _ Hvalue).
    split; by case_match.
  - intros Henabled Hown.
    unfold Refactored.presubmitAnnotations, Refactored.alertedAnnotations.
    rewrite Henabled, !lookup_mergeAnnotations.
    rewrite lookup_singleton_eq, lookup_insert_eq.
    by destruct Hown as [-> | ->].
  - intros Henabled. unfold annotationsForPresets. fold testgridConfig.
    rewrite Henabled. apply lookup_mergeMaps_pair.
  - intros presubmit job' Hreturned.
    by apply convertPresubmit_returns in Hreturned as (_ & _ & _ & ? & _).
  - intros postsubmit job' Hreturned.
    by apply convertPostsubmit_returns in Hreturned as (_ & _ & ? & _).
  - intros periodic job' Hreturned.
    by apply convertPeriodic_returns in Hreturned as (_ & _ & ?).
Qed.

(** generate.go on the catalog of org/sample, dashboard integration
    enabled, with a job that binds the dashboard annotation itself: the
    presubmit carries the injected value, not the job's. *)
Lemma dashboard_annotation_overwritten :
  CommonConfig.Annotations (Job.CommonConfig Catalog.annotated)
    !! TestGridDashboard = Some "custom"
  ∧ ((λ materialized,
        JobBase.Annotations (Presubmit.JobBase materialized.1)
          !! TestGridDashboard)
     <$> returned
           (convertPresubmit (H := Sample.collaborators)
              (Catalog.client true false)
              (Catalog.sample [Catalog.annotated]) "master" Catalog.annotated))
    = Some (Some "org_sample")
  ∧ mergeMaps [{[TestGridDashboard := "custom"]};
               {[TestGridDashboard := "org_sample"]}] !! TestGridDashboard
    ≠ Some "custom".
Proof.
  repeat split; [vm_compute; reflexivity..|].
  vm_compute. discriminate.
Qed.

(** ** Matrix expansion *)

Lemma length_resolveCombinations (combs : list string) (dest : string)
    (matrix : gmap string (list string)) (res : list string) :
  length (resolveCombinations combs dest matrix res)
  = length res + expansionSize matrix combs.
Proof.
  revert dest res. induction combs as [|comb remaining IH]; intros dest res.
  - simpl. rewrite length_app. simpl. lia.
  - cbn [resolveCombinations expansionSize foldr]. cbn zeta.
    fold (expansionSize matrix remaining).
    generalize (default [] (matrix !! comb)). intros lst. revert res.
    induction lst as [|value lst IHlst]; intros res; simpl; [lia|].
    rewrite IHlst, IH. lia.
Qed.

Lemma HasPrefix_split (s prefix : string) :
  strings.HasPrefix s prefix = true →
  s = prefix +:+ strings.sliceFrom (String.length prefix) s.
Proof.
  unfold strings.HasPrefix. revert s.
  induction prefix as [|c prefix IH]; intros s Hprefix; [done|].
  destruct s as [|a s]; [done|]. cbn [String.prefix] in Hprefix.
  destruct (ascii_dec c a) as [->|]; [|done].
  rewrite append_cons. cbn [String.length strings.sliceFrom]. f_equal.
  by apply IH.
Qed.

Lemma TrimPrefix_inj (prefix a b : string) :
  strings.HasPrefix a prefix = true →
  strings.HasPrefix b prefix = true →
  strings.TrimPrefix a prefix = strings.TrimPrefix b prefix →
  a = b.
Proof.
  intros Ha Hb. unfold strings.TrimPrefix. rewrite Ha, Hb. intros Heq.
  rewrite (HasPrefix_split a prefix Ha), (HasPrefix_split b prefix Hb).
  by rewrite Heq.
Qed.

Lemma validateString_NoDup (value : string) : NoDup (validateString value).
Proof.
  unfold validateString.
  generalize (FindAllString value). intros expressions.
  assert (∀ (result : list string) (set : gmap string bool),
            NoDup result → (∀ e, e ∈ result ↔ is_Some (set !! e)) →
            NoDup (foldl
                     (λ '(result, set) expression,
                        let expression := stripVarSubExpression expression in
                        match (set : gmap string bool) !! expression with
                        | None =>
                            ((result ++ [expression])%list,
                             <[expression := true]> set)
                        | Some _ => (result, set)
                        end)
                     (result, set) expressions).1) as Hloop.
  { induction expressions as [|e rest IH]; intros result set Hnodup Hset;
      [done|].
    cbn [foldl]. cbn zeta.
    destruct (set !! stripVarSubExpression e) eqn:Hlookup.
    - by apply IH.
    - apply IH.
      + apply NoDup_app. split; [done|]. split; [|apply NoDup_singleton].
        intros x Hx ->%list_elem_of_singleton.
        apply Hset in Hx. rewrite Hlookup in Hx. by destruct Hx.
      + intros x. rewrite elem_of_app, list_elem_of_singleton, Hset.
        destruct (decide (x = stripVarSubExpression e)) as [->|Hne].
        * rewrite lookup_insert_eq. split; eauto.
        * rewrite lookup_insert_ne by done. split; [|by left].
          by intros [?|?]. }
  apply Hloop; [apply NoDup_nil_2|].
  intros e. rewrite lookup_empty, elem_of_nil. split; [done|by intros []].
Qed.

Lemma referencedDimensions_NoDup (yamlStr : string) :
  NoDup (referencedDimensions yamlStr).
Proof.
  unfold referencedDimensions, getVarSubstitutionExpressions.
  pose proof (validateString_NoDup yamlStr) as Hnodup.
  induction Hnodup as [|e rest Hnotin Hnodup IH]; [constructor|].
  rewrite filter_cons. case_decide as Hprefix; [|done].
  rewrite fmap_cons. constructor; [|done].
  intros Hin. apply list_elem_of_fmap in Hin as (e' & Heq & Hin').
  apply list_elem_of_filter in Hin' as [Hprefix' Hin'].
  apply TrimPrefix_inj in Heq; [|done..]. by subst.
Qed.

(** The loop of [applyMatrix] that collects the dimensions. *)
Lemma applyMatrix_combs (matrix : gmap string (list string))
    (subsExps combs : list string) :
  (∀ dimension,
     dimension ∈ ((λ exp, strings.TrimPrefix exp "matrix.")
                  <$> filter (λ exp, strings.HasPrefix exp "matrix." = true)
                        subsExps) →
     is_Some (matrix !! dimension)) →
  forEach
    (λ combs exp,
       if strings.HasPrefix exp "matrix."
       then
         let exp := strings.TrimPrefix exp "matrix." in
         match matrix !! exp with
         | Some _ => Returned (combs ++ [exp])%list
         | None => Exited exp ["dimension is not configured in the matrix"]
         end
       else Returned combs)
    combs subsExps
  = Returned
      (combs ++ ((λ exp, strings.TrimPrefix exp "matrix.")
                 <$> filter (λ exp, strings.HasPrefix exp "matrix." = true)
                       subsExps))%list.
Proof.
  revert combs. induction subsExps as [|exp rest IH]; intros combs Hdeclared.
  { simpl. by rewrite app_nil_r. }
  cbn [forEach]. rewrite filter_cons in Hdeclared |- *.
  destruct (strings.HasPrefix exp "matrix.") eqn:Hprefix.
  - rewrite decide_True in Hdeclared |- * by done. cbn zeta.
    destruct (Hdeclared (strings.TrimPrefix exp "matrix.")) as [values ->].
    { rewrite fmap_cons. by left. }
    cbn [mbind outcome_bind]. rewrite IH.
    + by rewrite fmap_cons, <- app_assoc.
    + intros d Hd. apply Hdeclared. rewrite fmap_cons. by right.
  - rewrite decide_False in Hdeclared |- * by done.
    cbn [mbind outcome_bind]. by apply IH.
Qed.

Lemma applyMatrix_returns (yamlStr : string)
    (matrix : gmap string (list string)) :
  (∀ dimension,
     dimension ∈ referencedDimensions yamlStr → is_Some (matrix !! dimension)) →
  ∃ expanded,
    applyMatrix yamlStr matrix = Returned expanded
    ∧ length expanded = expansionSize matrix (referencedDimensions yamlStr)
    ∧ (referencedDimensions yamlStr = [] → expanded = [yamlStr]).
Proof.
  intros Hdeclared. unfold applyMatrix. cbn zeta.
  destruct (length (getVarSubstitutionExpressions yamlStr) =? 0)%nat eqn:Hlen.
  - apply Nat.eqb_eq, nil_length_inv in Hlen.
    exists [yamlStr]. unfold referencedDimensions. by rewrite Hlen.
  - unfold referencedDimensions in Hdeclared.
    pose proof (applyMatrix_combs matrix _ [] Hdeclared) as Hcombs.
    cbv zeta in Hcombs. rewrite Hcombs.
    cbn [mbind outcome_bind app]. eexists. split; [done|].
    fold (referencedDimensions yamlStr). split.
    + by rewrite length_resolveCombinations.
    + by intros ->.
Qed.

Lemma forEach_unmarshal `{External} (texts : list string) (jobs : list Job.t)
    (decoded : list Job.t) :
  Forall2 (λ text job, yamlUnmarshal text = inl job) texts decoded →
  forEach
    (λ jobs jobYaml,
       match yamlUnmarshal jobYaml with
       | inl job => Returned (jobs ++ [job])%list
       | inr err => Exited "failed to unmarshal the yaml to Job" [err]
       end)
    jobs texts
  = Returned (jobs ++ decoded)%list.
Proof.
  intros Hdecoded. revert jobs.
  induction Hdecoded as [|text job texts decoded Hjob _ IH]; intros jobs.
  { simpl. by rewrite app_nil_r. }
  cbn [forEach]. rewrite Hjob. cbn [mbind outcome_bind].
  by rewrite IH, <- app_assoc.
Qed.

(** *** The placeholders the scan finds *)

Lemma spanVarChars_spec (s run tail : string) :
  spanVarChars s = (run, tail) → s = run +:+ tail ∧ allVarChars run = true.
Proof.
  revert run tail. induction s as [|c s IH]; intros run tail;
    cbn [spanVarChars].
  - by intros [= <- <-].
  - destruct (isVarChar c) eqn:Hc.
    + destruct (spanVarChars s) as [r t] eqn:Hs. intros [= <- <-].
      destruct (IH r t eq_refl) as [-> Hr].
      split; [by rewrite append_cons|]. cbn [allVarChars]. by rewrite Hc.
    + by intros [= <- <-].
Qed.

Lemma spanVarChars_run (run : string) (c : ascii) (tail : string) :
  allVarChars run = true → isVarChar c = false →
  spanVarChars (run +:+ String c tail) = (run, String c tail).
Proof.
  induction run as [|a run IH]; intros Hrun Hc.
  - rewrite append_empty_l. cbn [spanVarChars]. by rewrite Hc.
  - cbn [allVarChars] in Hrun. apply andb_prop in Hrun as [Ha Hrun].
    rewrite append_cons. cbn [spanVarChars]. by rewrite Ha, IH.
Qed.

Lemma allVarChars_append (s t : string) :
  allVarChars (s +:+ t) = allVarChars s && allVarChars t.
Proof.
  induction s as [|c s IH]; [done|].
  rewrite append_cons. cbn [allVarChars]. by rewrite IH, andb_assoc.
Qed.

Lemma allVarChars_no_dollar (run : string) :
  allVarChars run = true → strings.Contains run "$" = false.
Proof.
  induction run as [|c run IH]; intros Hrun; [done|].
  cbn [allVarChars] in Hrun. apply andb_prop in Hrun as [Hc Hrun].
  rewrite Contains_byte_cons, IH by done. rewrite orb_false_r.
  apply bool_decide_eq_false_2. by intros <-.
Qed.

Lemma HasPrefix_append (prefix s : string) :
  strings.HasPrefix (prefix +:+ s) prefix = true.
Proof.
  unfold strings.HasPrefix. induction prefix as [|c prefix IH].
  - apply prefix_empty.
  - rewrite append_cons. cbn [String.prefix].
    by destruct (ascii_dec c c).
Qed.

Lemma matchVariableAt_Some (s m : string) :
  matchVariableAt s = Some m ↔
  ∃ run after,
    run ≠ "" ∧ allVarChars run = true
    ∧ s = "$(" +:+ run +:+ ")" +:+ after ∧ m = "$(" +:+ run +:+ ")".
Proof.
  unfold matchVariableAt. split.
  - destruct (strings.HasPrefix s "$(") eqn:Hprefix; [|done].
    apply HasPrefix_split in Hprefix. cbn [String.length] in Hprefix.
    destruct (spanVarChars (strings.sliceFrom 2 s)) as [run tail] eqn:Hspan.
    destruct run as [|c run]; [done|].
    destruct (strings.HasPrefix tail ")") eqn:Htail; [|done].
    intros [= <-].
    apply spanVarChars_spec in Hspan as [Hrest Hrun].
    apply HasPrefix_split in Htail. cbn [String.length] in Htail.
    exists (String c run), (strings.sliceFrom 1 tail).
    split; [done|]. split; [done|]. split; [|done].
    by rewrite <- Htail, <- Hrest.
  - intros (run & after & Hne & Hrun & -> & ->).
    rewrite HasPrefix_append.
    change 2 with (String.length "$("). rewrite sliceFrom_append.
    change (")" +:+ after) with (String ")" after).
    rewrite spanVarChars_run by done.
    destruct run as [|c run]; [done|].
    unfold strings.HasPrefix. cbn [String.prefix].
    destruct (ascii_dec ")" ")"); [|done]. by rewrite prefix_empty.
Qed.

Lemma findAllFrom_skip (skip : nat) (s : string) :
  findAllFrom skip s = findAllFrom 0 (strings.sliceFrom skip s).
Proof.
  revert s. induction skip as [|skip IH]; intros s; [by destruct s|].
  destruct s as [|c s]; [done|]. cbn [findAllFrom strings.sliceFrom].
  apply IH.
Qed.

Lemma findAllFrom_match (run after : string) :
  run ≠ "" → allVarChars run = true →
  findAllFrom 0 (("$(" +:+ run +:+ ")") +:+ after)
  = ("$(" +:+ run +:+ ")") :: findAllFrom 0 after.
Proof.
  intros Hne Hrun.
  assert (matchVariableAt (("$(" +:+ run +:+ ")") +:+ after)
          = Some ("$(" +:+ run +:+ ")")) as Hmatch.
  { apply matchVariableAt_Some. exists run, after.
    repeat split; [done..|]. by rewrite !append_assoc. }
  remember ("$(" +:+ run +:+ ")") as m eqn:Hm.
  assert (∃ m', m = String "$" m') as [m' ->] by (subst m; by eexists).
  rewrite append_cons in Hmatch |- *. cbn [findAllFrom].
  rewrite Hmatch. f_equal. cbn [String.length].
  replace (S (String.length m') - 1)%nat with (String.length m') by lia.
  by rewrite findAllFrom_skip, sliceFrom_append.
Qed.

Lemma append_overlap (m after before suffix : string) :
  strings.Contains m "$" = false →
  m +:+ after = before +:+ String "$" suffix →
  ∃ between, before = m +:+ between.
Proof.
  revert before. induction m as [|a m IH]; intros before Hm Heq.
  - by exists before.
  - rewrite Contains_byte_cons in Hm. apply orb_false_elim in Hm as [Ha Hm].
    apply bool_decide_eq_false in Ha.
    destruct before as [|b before].
    + rewrite append_cons, append_empty_l in Heq. by injection Heq as -> _.
    + rewrite !append_cons in Heq. injection Heq as -> Heq.
      destruct (IH before Hm Heq) as [between ->].
      exists between. by rewrite append_cons.
Qed.

Lemma append_eq_empty (s t : string) : s +:+ t = "" → s = "" ∧ t = "".
Proof. by destruct s. Qed.

Lemma elem_of_findAll (s x : string) :
  x ∈ findAllFrom 0 s ↔
  ∃ before suffix, s = before +:+ suffix ∧ matchVariableAt suffix = Some x.
Proof.
  remember (String.length s) as n eqn:Hn.
  assert (String.length s ≤ n)%nat as Hlen by lia. clear Hn.
  revert s Hlen. induction n as [|n IH]; intros s Hlen.
  { destruct s; [|simpl in Hlen; lia]. split; [by intros ?%elem_of_nil|].
    intros (before & suffix & Heq & Hmatch). symmetry in Heq.
    apply append_eq_empty in Heq as [_ ->]. done. }
  destruct s as [|c rest].
  { split; [by intros ?%elem_of_nil|].
    intros (before & suffix & Heq & Hmatch). symmetry in Heq.
    apply append_eq_empty in Heq as [_ ->]. done. }
  cbn [String.length] in Hlen.
  destruct (matchVariableAt (String c rest)) as [m|] eqn:Hmatch.
  - pose proof Hmatch as Hm.
    apply matchVariableAt_Some in Hm as (run & after & Hne & Hrun & Hs & ->).
    assert (String c rest = ("$(" +:+ run +:+ ")") +:+ after) as Hs'.
    { by rewrite Hs, !append_assoc. }
    assert (String.length after ≤ n)%nat as Hafter.
    { apply (f_equal String.length) in Hs'. rewrite length_append in Hs'.
      cbn [String.length] in Hs'.
      assert (∃ k, String.length ("$(" +:+ run +:+ ")") = S k) as [k Hk]
        by (by eexists).
      lia. }
    rewrite Hs', findAllFrom_match by done. rewrite elem_of_cons, (IH after Hafter).
    split.
    + intros [->|(before & suffix & -> & Hsuffix)].
      * exists "", (("$(" +:+ run +:+ ")") +:+ after).
        split; [done|]. by rewrite <- Hs'.
      * exists (("$(" +:+ run +:+ ")") +:+ before), suffix.
        split; [by rewrite !append_assoc|done].
    + intros (before & suffix & Heq & Hsuffix).
      destruct before as [|b before].
      * rewrite append_empty_l in Heq. subst suffix. rewrite <- Hs' in Hsuffix.
        left. congruence.
      * right. pose proof Hsuffix as Hstart.
        apply matchVariableAt_Some in Hstart as (run' & after' & _ & _ & Hx & _).
        assert (∃ suffix', suffix = String "$" suffix') as [suffix' ->]
          by (subst suffix; by eexists).
        assert (∃ m', "$(" +:+ run +:+ ")" = String "$" m'
                      ∧ strings.Contains m' "$" = false) as (m' & Hm' & Hnone).
        { eexists. split; [reflexivity|].
          change ("(" +:+ run +:+ ")") with (String "(" (run +:+ ")")).
          rewrite Contains_byte_cons, Contains_byte_append.
          by rewrite allVarChars_no_dollar. }
        rewrite Hm' in Heq. rewrite !append_cons in Heq.
        injection Heq as <- Heq.
        destruct (append_overlap m' after before suffix' Hnone Heq)
          as [between ->].
        rewrite append_assoc in Heq. apply String.app_inj in Heq.
        exists between, (String "$" suffix'). by split.
  - cbn [findAllFrom]. rewrite Hmatch.
    rewrite (IH rest) by lia. split.
    + intros (before & suffix & -> & Hsuffix).
      by exists (String c before), suffix.
    + intros (before & suffix & Heq & Hsuffix).
      destruct before as [|b before].
      * rewrite append_empty_l in Heq. subst suffix. congruence.
      * rewrite append_cons in Heq. injection Heq as <- ->.
        by exists before, suffix.
Qed.

Lemma stripVarSubExpression_match (run : string) :
  stripVarSubExpression ("$(" +:+ run +:+ ")") = run.
Proof.
  unfold stripVarSubExpression, strings.TrimPrefix.
  rewrite HasPrefix_append, sliceFrom_append. apply TrimSuffix_append.
Qed.

Lemma elem_of_validateString (value e : string) :
  e ∈ validateString value ↔
  ∃ m, m ∈ FindAllString value ∧ e = stripVarSubExpression m.
Proof.
  unfold validateString.
  generalize (FindAllString value). intros expressions.
  assert (∀ (result : list string) (set : gmap string bool),
            (∀ x, x ∈ result ↔ is_Some (set !! x)) →
            e ∈ (foldl
                   (λ '(result, set) expression,
                      let expression := stripVarSubExpression expression in
                      match (set : gmap string bool) !! expression with
                      | None =>
                          ((result ++ [expression])%list,
                           <[expression := true]> set)
                      | Some _ => (result, set)
                      end)
                   (result, set) expressions).1
            ↔ e ∈ result
              ∨ ∃ m, m ∈ expressions ∧ e = stripVarSubExpression m) as Hloop.
  { induction expressions as [|m rest IH]; intros result set Hset.
    { cbn. split; [by left|]. intros [?|(m & Hm%elem_of_nil & _)]; done. }
    cbn [foldl]. cbn zeta.
    destruct (set !! stripVarSubExpression m) eqn:Hlookup.
    - rewrite (IH result set Hset). split.
      + intros [?|(m' & Hm' & ->)]; [by left|].
        right. exists m'. split; [by right|done].
      + intros [?|(m' & Hm' & ->)]; [by left|].
        apply elem_of_cons in Hm' as [->|Hm'].
        * left. apply Hset. by rewrite Hlookup.
        * right. by exists m'.
    - rewrite IH.
      + rewrite elem_of_app, list_elem_of_singleton. split.
        * intros [[?| ->]|(m' & Hm' & ->)]; [by left| |].
          -- right. exists m. split; [by left|done].
          -- right. exists m'. split; [by right|done].
        * intros [?|(m' & Hm' & ->)]; [by left; left|].
          apply elem_of_cons in Hm' as [->|Hm'].
          -- by left; right.
          -- right. by exists m'.
      + intros x. rewrite elem_of_app, list_elem_of_singleton, Hset.
        destruct (decide (x = stripVarSubExpression m)) as [->|Hne].
        * rewrite lookup_insert_eq. split; eauto.
        * rewrite lookup_insert_ne by done. split; [|by left].
          by intros [?|?]. }
  rewrite Hloop.
  - split; [|by right]. by intros [?%elem_of_nil|?].
  - intros x. rewrite lookup_empty, elem_of_nil. split; [done|by intros []].
Qed.

(** The dimensions the scan finds are those whose placeholder the text
    holds, as far as they are written in the bytes of the class. *)
Lemma referencedDimensions_spec (yamlStr dimension : string) :
  dimension ∈ referencedDimensions yamlStr ↔
  allVarChars dimension = true ∧ holdsPlaceholder yamlStr dimension.
Proof.
  unfold referencedDimensions, getVarSubstitutionExpressions, holdsPlaceholder.
  rewrite list_elem_of_fmap. split.
  - intros (e & -> & Hin). apply list_elem_of_filter in Hin as [Hprefix Hin].
    apply elem_of_validateString in Hin as (m & Hm & ->).
    apply elem_of_findAll in Hm as (before & suffix & -> & Hmatch).
    apply matchVariableAt_Some in Hmatch as (run & after & _ & Hrun & -> & ->).
    rewrite stripVarSubExpression_match in Hprefix |- *.
    pose proof (HasPrefix_split run "matrix." Hprefix) as Hsplit.
    unfold strings.TrimPrefix. rewrite Hprefix.
    set (d := strings.sliceFrom (String.length "matrix.") run) in *.
    rewrite Hsplit, allVarChars_append in Hrun.
    apply andb_prop in Hrun as [_ Hd]. split; [done|].
    exists before, after. by rewrite Hsplit.
  - intros (Hd & before & after & ->).
    exists ("matrix." +:+ dimension). split.
    + unfold strings.TrimPrefix.
      by rewrite HasPrefix_append, sliceFrom_append.
    + apply list_elem_of_filter. split; [apply HasPrefix_append|].
      apply elem_of_validateString.
      exists ("$(" +:+ ("matrix." +:+ dimension) +:+ ")"). split.
      * apply elem_of_findAll.
        exists before, ("$(matrix." +:+ dimension +:+ ")" +:+ after).
        split; [done|]. apply matchVariableAt_Some.
        exists ("matrix." +:+ dimension), after.
        split; [done|]. split; [|done].
        by rewrite allVarChars_append, Hd.
      * by rewrite stripVarSubExpression_match.
Qed.

(** C3. Matrix expansion yields as many jobs as the product of the sizes
    of the referenced dimensions.  The dimensions referred to by the
    placeholders of the serialized template are distinct, and they are
    the names, written in the bytes a placeholder admits, whose
    placeholder the serialized template holds; when each of
    them is declared in the matrix, the template is expanded into
    n1*...*nk texts, and, each text being deserialized into a job, into
    as many jobs.  A template that refers to no dimension is expanded
    into itself alone, and so, serialization being undone by
    deserialization, into the original job alone. *)
Theorem matrix_expansion_cardinality `{External} (job : Job.t)
    (matrix : gmap string (list string)) :
  let dimensions := referencedDimensions (yamlMarshal job) in
  NoDup dimensions
  ∧ (∀ dimension,
       dimension ∈ dimensions
       ↔ allVarChars dimension = true
         ∧ holdsPlaceholder (yamlMarshal job) dimension)
  ∧ ((∀ dimension, dimension ∈ dimensions → is_Some (matrix !! dimension)) →
     ∃ expanded,
       applyMatrix (yamlMarshal job) matrix = Returned expanded
       ∧ length expanded = expansionSize matrix dimensions
       ∧ ∀ decoded,
           Forall2 (λ text job, yamlUnmarshal text = inl job) expanded decoded →
           applyMatrixJob job matrix = Returned decoded
           ∧ length decoded = expansionSize matrix dimensions)
  ∧ (dimensions = [] →
     expansionSize matrix dimensions = 1
     ∧ applyMatrix (yamlMarshal job) matrix = Returned [yamlMarshal job]
     ∧ (yamlUnmarshal (yamlMarshal job) = inl job →
        applyMatrixJob job matrix = Returned [job])).
Proof.
  intros dimensions. split; [apply referencedDimensions_NoDup|].
  split; [apply referencedDimensions_spec|]. split.
  - intros Hdeclared.
    destruct (applyMatrix_returns (yamlMarshal job) matrix Hdeclared)
      as (expanded & Hexpanded & Hlen & _).
    exists expanded. split; [done|]. split; [done|].
    intros decoded Hdecoded. unfold applyMatrixJob. cbn zeta.
    rewrite Hexpanded. cbn [mbind outcome_bind].
    rewrite (forEach_unmarshal expanded [] decoded Hdecoded).
    split; [done|]. by rewrite <- (Forall2_length _ _ _ Hdecoded).
  - intros Hnone.
    destruct (applyMatrix_returns (yamlMarshal job) matrix)
      as (expanded & Hexpanded & _ & Hself).
    { fold dimensions. rewrite Hnone. by intros d Hd%elem_of_nil. }
    fold dimensions in Hself. rewrite (Hself Hnone) in Hexpanded.
    split; [by rewrite Hnone|]. split; [done|].
    intros Hroundtrip. unfold applyMatrixJob. cbn zeta.
    rewrite Hexpanded. cbn [mbind outcome_bind forEach].
    by rewrite Hroundtrip.
Qed.

(** ** The statements at sample inputs *)

(** Two configurations with different selectors: the selector of the
    merge is the later one, without the key of the earlier. *)
Lemma mergeCommonConfig_NodeSelector_replaced_witness :
  CommonConfig.NodeSelector
    (CommonConfig.withNodeSelector CommonConfig.zero {["pool" := "arm"]}) ≠ ∅
  ∧ CommonConfig.NodeSelector
      (CommonConfig.withNodeSelector CommonConfig.zero {["pool" := "arm"]})
      !! "testing" = None
  ∧ CommonConfig.NodeSelector
      (mergeCommonConfig
         ([] ++
          [CommonConfig.withNodeSelector CommonConfig.zero
             {["testing" := "test-pool"]};
           CommonConfig.withNodeSelector CommonConfig.zero {["pool" := "arm"]}]))
      !! "testing" = None.
Proof.
  assert (CommonConfig.NodeSelector
            (CommonConfig.withNodeSelector CommonConfig.zero {["pool" := "arm"]})
          ≠ ∅) as Hne by (vm_compute; discriminate).
  assert (CommonConfig.NodeSelector
            (CommonConfig.withNodeSelector CommonConfig.zero {["pool" := "arm"]})
            !! "testing" = None) as Hkey by (vm_compute; reflexivity).
  split; [exact Hne|]. split; [exact Hkey|].
  exact (proj2 (mergeCommonConfig_NodeSelector_replaced [])
           (CommonConfig.withNodeSelector CommonConfig.zero
              {["testing" := "test-pool"]})
           (CommonConfig.withNodeSelector CommonConfig.zero {["pool" := "arm"]})
           "testing" Hne Hkey).
Defined.

(** A catalog without organization whose one job has no image, an
    unknown resource preset and an invalid modifier: four violations,
    all reported. *)
Lemma validation_collects_all_violations_witness :
  Rules.ofCatalog (H := Sample.collaborators) "jobs.yaml"
    (JobsConfig.mk CommonConfig.zero false "sample" "" "" [] ∅
       [Catalog.withResourcesAndModifiers (Catalog.job "unit" "" [])
          "huge" ["visible"]])
  ≠ []
  ∧ ValidateJobConfig (H := Sample.collaborators) "jobs.yaml"
      (JobsConfig.mk CommonConfig.zero false "sample" "" "" [] ∅
         [Catalog.withResourcesAndModifiers (Catalog.job "unit" "" [])
            "huge" ["visible"]])
    = Exited "validation failed"
        ["jobs.yaml: org must be set";
         "jobs.yaml: image must be set for job unit";
         "jobs.yaml: job 'unit' has nonexistant resource 'huge'";
         "'visible' is not a valid status. Must be one of hidden, presubmit_optional, presubmit_skipped"].
Proof.
  assert (Rules.ofCatalog (H := Sample.collaborators) "jobs.yaml"
            (JobsConfig.mk CommonConfig.zero false "sample" "" "" [] ∅
               [Catalog.withResourcesAndModifiers (Catalog.job "unit" "" [])
                  "huge" ["visible"]])
          ≠ []) as Hsome by (vm_compute; discriminate).
  split; [exact Hsome|].
  rewrite (proj1 (proj2 (proj2 (proj2
             (validation_collects_all_violations (H := Sample.collaborators)
                "jobs.yaml"
                (JobsConfig.mk CommonConfig.zero false "sample" "" "" [] ∅
                   [Catalog.withResourcesAndModifiers (Catalog.job "unit" "" [])
                      "huge" ["visible"]])
                "" "" ∅ [])))) Hsome).
  vm_compute. reflexivity.
Defined.

(** A periodic job with both a cron expression and an interval. *)
Lemma periodic_schedule_validated_witness :
  TypePeriodic
  ∈ Job.Types
      (Catalog.withSchedule (Catalog.job "nightly" "img:1" ["periodic"])
         "0 3 * * *" "24h")
  ∧ validatePeriodic (H := Sample.collaborators) "jobs.yaml"
      (Catalog.withSchedule (Catalog.job "nightly" "img:1" ["periodic"])
         "0 3 * * *" "24h")
      []
    = ["jobs.yaml: cron and interval cannot be both set in periodic nightly"].
Proof.
  assert (TypePeriodic
          ∈ Job.Types
              (Catalog.withSchedule (Catalog.job "nightly" "img:1" ["periodic"])
                 "0 3 * * *" "24h")) as Hperiodic.
  { vm_compute. apply list_elem_of_here. }
  split; [exact Hperiodic|].
  apply (proj1 (periodic_schedule_validated (H := Sample.collaborators)
                  "jobs.yaml" (Catalog.sample [])
                  (Catalog.withSchedule
                     (Catalog.job "nightly" "img:1" ["periodic"])
                     "0 3 * * *" "24h")
                  Hperiodic)).
  - vm_compute. discriminate.
  - vm_compute. discriminate.
Defined.

(** The name [unit_sample] is accepted. *)
Lemma createJobBase_name_limit_witness :
  (String.length "unit_sample" ≤ 63)%nat
  ∧ ∃ jb,
      createJobBase (Catalog.client false false)
        (Client.BaseConfig (Catalog.client false false))
        (Catalog.sample [Catalog.unit]) Catalog.unit "unit_sample" "master" ∅
      = Returned jb
      ∧ JobBase.Name jb = "unit_sample".
Proof.
  assert (String.length "unit_sample" ≤ 63)%nat as Hlen by (vm_compute; lia).
  split; [exact Hlen|].
  exact (proj1 (createJobBase_name_limit (H := Sample.collaborators)
                  (Catalog.client false false)
                  (Client.BaseConfig (Catalog.client false false))
                  (Catalog.sample [Catalog.unit]) Catalog.unit "unit_sample"
                  "master" ∅)
           (or_introl Hlen)).
Defined.

(** A job that names no preset, and a table with a default entry. *)
Lemma createContainer_resources_witness :
  CommonConfig.Resources (Job.CommonConfig Catalog.unit) = ""
  ∧ ∃ c,
      createContainer (Catalog.sample [Catalog.unit]) Catalog.unit
        {["default" := ResourceRequirements.mk {["memory" := "24Gi"]}
                          {["cpu" := "5"]}]}
      = [c]
      ∧ Container.Resources c
        = ResourceRequirements.mk {["memory" := "24Gi"]} {["cpu" := "5"]}.
Proof.
  split; [reflexivity|].
  destruct (proj1 (createContainer_resources (Catalog.sample [Catalog.unit])
                     Catalog.unit
                     (Legacy.Job.mk "unit" "" [] [] "" [] [] "" None [])
                     {["default" := ResourceRequirements.mk
                                      {["memory" := "24Gi"]} {["cpu" := "5"]}]}))
    as (c & Hc & Hdefault & _).
  exists c. split; [exact Hc|].
  apply Hdefault; reflexivity.
Defined.

(** The periodic job [nightly] of org/sample with the extra repository
    other/dep. *)
Lemma periodic_checks_out_own_repository_witness :
  ((String.length
      (materializedName Catalog.nightly (Catalog.sample [Catalog.nightly])
         "master" "_periodic") ≤ 63)%nat
   ∨ Client.LongJobNamesAllowed (Catalog.client false false) = true)
  ∧ requirementsKnown (Catalog.sample [Catalog.nightly]) Catalog.nightly
  ∧ ∃ periodic job',
      convertPeriodic (H := Sample.collaborators) (Catalog.client false false)
        (Catalog.sample [Catalog.nightly]) "master" Catalog.nightly
      = Returned (periodic, job')
      ∧ JobBase.ExtraRefs (Periodic.JobBase periodic)
        = [Refs.mk "org" "sample" "master" "" "";
           Refs.mk "other" "dep" "master" "" ""].
Proof.
  assert ((String.length
             (materializedName Catalog.nightly
                (Catalog.sample [Catalog.nightly]) "master" "_periodic")
           ≤ 63)%nat
          ∨ Client.LongJobNamesAllowed (Catalog.client false false) = true)
    as Hname by (left; vm_compute; lia).
  assert (requirementsKnown (Catalog.sample [Catalog.nightly]) Catalog.nightly)
    as Hknown.
  { intros name [Hin|Hin]; vm_compute in Hin; inversion Hin. }
  split; [exact Hname|]. split; [exact Hknown|].
  destruct (proj1 (periodic_checks_out_own_repository
                     (H := Sample.collaborators) (Catalog.client false false)
                     (Catalog.sample [Catalog.nightly]) "master"
                     Catalog.nightly)
              Hname Hknown) as (periodic & job' & Hreturned).
  exists periodic, job'. split; [exact Hreturned|].
  rewrite (proj1 (proj2 (periodic_checks_out_own_repository
                           (H := Sample.collaborators)
                           (Catalog.client false false)
                           (Catalog.sample [Catalog.nightly]) "master"
                           Catalog.nightly))
             periodic job' Hreturned).
  vm_compute. reflexivity.
Defined.

(** generate.go on the job [unit] with the trigger phrase [/retest]. *)
Lemma presubmit_trigger_alternatives_witness :
  ∃ presubmit job',
    convertPresubmit (H := Sample.collaborators) (Catalog.client false false)
      (Catalog.sample [Catalog.unit]) "master"
      (Catalog.withTrigger Catalog.unit "/retest")
    = Returned (presubmit, job')
    ∧ Presubmit.Trigger presubmit
      = "((?m)^/test( | .* )unit_sample,?($|\s.*))|((?m)^/retest(\s+|$))".
Proof.
  destruct (convertPresubmit (H := Sample.collaborators)
              (Catalog.client false false) (Catalog.sample [Catalog.unit])
              "master" (Catalog.withTrigger Catalog.unit "/retest"))
    as [[presubmit job']| |] eqn:Hreturned.
  - exists presubmit, job'. split; [reflexivity|].
    rewrite (proj1 (proj2 (presubmit_trigger_alternatives
                             (H := Sample.collaborators)
                             (Catalog.client false false)
                             (Catalog.sample [Catalog.unit]) "master" ""
                             (Catalog.withTrigger Catalog.unit "/retest")
                             (Refactored.SpecJob.mk Catalog.unit [])))
               presubmit job' Hreturned).
    vm_compute. reflexivity.
  - vm_compute in Hreturned. discriminate.
  - vm_compute in Hreturned. discriminate.
Defined.

(** The later generator keeps the dashboard annotation of a job. *)
Lemma dashboard_annotations_precedence_witness :
  ({[TestGridDashboard := "custom"]} : gmap string string) !! TestGridDashboard
  = Some "custom"
  ∧ "custom" ≠ ""
  ∧ Refactored.presubmitAnnotations
      (BaseConfig.TestgridConfig (Client.BaseConfig (Catalog.client true false)))
      (testgridJobPrefixOf (Catalog.sample [Catalog.annotated]) "master")
      {[TestGridDashboard := "custom"]} !! TestGridDashboard
    = Some "custom".
Proof.
  assert (({[TestGridDashboard := "custom"]} : gmap string string)
            !! TestGridDashboard = Some "custom") as Hown
    by (vm_compute; reflexivity).
  assert ("custom" ≠ "") as Hvalue by discriminate.
  split; [exact Hown|]. split; [exact Hvalue|].
  exact (proj1 (proj1 (dashboard_annotations_precedence
                         (H := Sample.collaborators)
                         (Catalog.client true false)
                         (Catalog.sample [Catalog.annotated]) "master"
                         "_postsubmit" Catalog.annotated
                         {[TestGridDashboard := "custom"]} ∅
                         TestGridDashboard "custom")
                  Hown Hvalue)).
Defined.

(** A job that refers to the dimension [arch], of two values. *)
Lemma matrix_expansion_cardinality_witness :
  (∀ dimension,
     dimension
     ∈ referencedDimensions (yamlMarshal (External := Sample.collaborators)
                               Catalog.perArch) →
     is_Some (({["arch" := ["amd64"; "arm64"]]} : gmap string (list string))
                !! dimension))
  ∧ applyMatrixJob (H := Sample.collaborators) Catalog.perArch
      {["arch" := ["amd64"; "arm64"]]}
    = Returned [Sample.emptyJob "build-amd64"; Sample.emptyJob "build-arm64"]
  ∧ expansionSize {["arch" := ["amd64"; "arm64"]]}
      (referencedDimensions (yamlMarshal (External := Sample.collaborators)
                               Catalog.perArch))
    = 2.
Proof.
  assert (∀ dimension,
            dimension
            ∈ referencedDimensions
                (yamlMarshal (External := Sample.collaborators) Catalog.perArch) →
            is_Some (({["arch" := ["amd64"; "arm64"]]}
                      : gmap string (list string)) !! dimension)) as Hdeclared.
  { intros dimension Hin. vm_compute in Hin.
    apply list_elem_of_singleton in Hin as ->. vm_compute. eauto. }
  split; [exact Hdeclared|].
  destruct (proj1 (proj2 (proj2 (matrix_expansion_cardinality
                            (H := Sample.collaborators) Catalog.perArch
                            {["arch" := ["amd64"; "arm64"]]})))
              Hdeclared) as (expanded & Hexpanded & Hlength & Hjobs).
  vm_compute in Hexpanded. injection Hexpanded as <-.
  destruct (Hjobs [Sample.emptyJob "build-amd64"; Sample.emptyJob "build-arm64"])
    as [Hdecoded Hsize].
  { repeat constructor. }
  split; [exact Hdecoded|]. symmetry. exact Hsize.
Defined.

(** ** Resolving the configuration hierarchy *)

Lemma mergeValue_overwrite_empty {A} `{mergo.Emptiness A} (zero src : A) :
  mergo.isEmptyValue zero = true →
  (mergo.isEmptyValue src = true → src = zero) →
  mergo.mergeValue mergeOptions zero src = src.
Proof.
  intros Hzero Hsrc. unfold mergo.mergeValue.
  rewrite Hzero. cbn [orb andb].
  destruct (mergo.isEmptyValue src) eqn:Hs; cbn [negb]; [|done].
  symmetry. by apply Hsrc.
Qed.

Lemma mergeValue_string_zero (s : string) :
  mergo.mergeValue mergeOptions "" s = s.
Proof.
  apply mergeValue_overwrite_empty; [done|].
  unfold mergo.isEmptyValue, mergo.string_emptiness.
  by intros ?%bool_decide_eq_true.
Qed.

Lemma mergeValue_Z_zero (n : Z) : mergo.mergeValue mergeOptions 0%Z n = n.
Proof.
  apply mergeValue_overwrite_empty; [done|].
  unfold mergo.isEmptyValue, mergo.Z_emptiness.
  by intros ?%bool_decide_eq_true.
Qed.

Lemma mergeMap_empty_dst {V} `{mergo.Emptiness V} config (src : gmap string V) :
  mergo.mergeMap config ∅ src = src.
Proof.
  unfold mergo.mergeMap. apply map_eq. intros key.
  rewrite lookup_union_with, lookup_empty. by destruct (src !! key).
Qed.

(** Merged into the zero configuration, a configuration is itself. *)
Lemma mergeCommonConfig_step_zero (config : CommonConfig.t) :
  mergeCommonConfig_step CommonConfig.zero config = config.
Proof.
  destruct config. unfold mergeCommonConfig_step, deepCopyCommonConfig,
    deepCopyMap, CommonConfig.Merge, CommonConfig.withNodeSelector.
  cbn [CommonConfig.zero CommonConfig.GCSLogBucket
         CommonConfig.TerminationGracePeriodSeconds CommonConfig.Interval
         CommonConfig.Cron CommonConfig.Cluster CommonConfig.NodeSelector
         CommonConfig.Annotations CommonConfig.Labels
         CommonConfig.ResourcePresets CommonConfig.RequirementPresets
         CommonConfig.Requirements CommonConfig.ExcludedRequirements
         CommonConfig.Env CommonConfig.Image CommonConfig.ImagePullPolicy
         CommonConfig.ImagePullSecrets CommonConfig.ServiceAccountName
         CommonConfig.Regex CommonConfig.Trigger CommonConfig.Timeout
         CommonConfig.MaxConcurrency CommonConfig.Resources
         CommonConfig.Modifiers].
  rewrite !mergeValue_string_zero, !mergeValue_Z_zero, !mergeMap_empty_dst.
  assert (∀ A (l : list A), mergo.mergeSlice mergeOptions [] l = l) as Hslice
    by done.
  rewrite !Hslice.
  assert (mergo.mergePtr mergeOptions None Timeout = Timeout) as ->
    by (by destruct Timeout).
  by destruct (negb _).
Qed.

Lemma mergeCommonConfig_singleton (config : CommonConfig.t) :
  mergeCommonConfig [config] = config.
Proof. apply mergeCommonConfig_step_zero. Qed.

Lemma mergeCommonConfig_nested (configs others : list CommonConfig.t) :
  mergeCommonConfig (mergeCommonConfig configs :: others)
  = mergeCommonConfig (configs ++ others).
Proof.
  unfold mergeCommonConfig. rewrite foldl_app. cbn [foldl].
  by rewrite mergeCommonConfig_step_zero.
Qed.

Lemma resolveOverwrites_loop (change : Job.t → Job.t)
    (handled rest : list Job.t) :
  foldl
    (λ jobs i,
       match jobs !! i with
       | Some job => <[i := change job]> jobs
       | None => jobs
       end)
    (handled ++ rest)%list (seq (length handled) (length rest))
  = (handled ++ (change <$> rest))%list.
Proof.
  revert handled. induction rest as [|job rest IH]; intros handled; [done|].
  cbn [length seq foldl fmap list_fmap].
  rewrite list_lookup_middle by done.
  rewrite insert_app_r_alt, Nat.sub_diag by done. cbn [insert list_insert].
  specialize (IH (handled ++ [change job])%list).
  rewrite length_app, <- !app_assoc in IH. cbn [length app] in IH.
  by rewrite Nat.add_1_r in IH.
Qed.

Lemma resolveOverwrites_Jobs (baseCommonConfig : CommonConfig.t)
    (jobsConfig : JobsConfig.t) :
  JobsConfig.Jobs (resolveOverwrites baseCommonConfig jobsConfig)
  = (λ job,
       Job.withCommonConfig job
         (mergeCommonConfig
            [baseCommonConfig; JobsConfig.CommonConfig jobsConfig;
             Job.CommonConfig job]))
    <$> JobsConfig.Jobs jobsConfig.
Proof.
  unfold resolveOverwrites. cbn [JobsConfig.Jobs].
  pose proof (resolveOverwrites_loop
                (λ job,
                   Job.withCommonConfig job
                     (mergeCommonConfig
                        [mergeCommonConfig
                           [baseCommonConfig;
                            JobsConfig.CommonConfig jobsConfig];
                         Job.CommonConfig job]))
                [] (JobsConfig.Jobs jobsConfig)) as Hloop.
  cbn [app length] in Hloop. rewrite Hloop.
  apply list_fmap_ext. intros _ job _. by rewrite mergeCommonConfig_nested.
Qed.

Lemma mergeSlice_append {A} (dst src : list A) :
  mergo.mergeSlice mergeOptions dst src = (dst ++ src)%list.
Proof. done. Qed.

Lemma foldl_mergeSlice_concat {A} (lists : list (list A)) (start : list A) :
  foldl (mergo.mergeSlice mergeOptions) start lists
  = (start ++ concat lists)%list.
Proof.
  revert start. induction lists as [|l lists IH]; intros start; simpl.
  - by rewrite app_nil_r.
  - by rewrite IH, mergeSlice_append, app_assoc.
Qed.

Lemma mergeCommonConfig_slices (configs : list CommonConfig.t) :
  let merged := mergeCommonConfig configs in
  CommonConfig.Requirements merged
  = concat (CommonConfig.Requirements <$> configs)
  ∧ CommonConfig.ExcludedRequirements merged
    = concat (CommonConfig.ExcludedRequirements <$> configs)
  ∧ CommonConfig.Env merged = concat (CommonConfig.Env <$> configs)
  ∧ CommonConfig.ImagePullSecrets merged
    = concat (CommonConfig.ImagePullSecrets <$> configs)
  ∧ CommonConfig.Modifiers merged
    = concat (CommonConfig.Modifiers <$> configs).
Proof.
  intros merged. subst merged. repeat split.
  all: try (merged_field (mergo.mergeSlice (A:=string) mergeOptions);
            simpl; by rewrite foldl_mergeSlice_concat).
  merged_field (mergo.mergeSlice (A:=EnvVar.t) mergeOptions).
  simpl. by rewrite foldl_mergeSlice_concat.
Qed.

(** X1. The list-typed fields of a merged configuration are the
    concatenations of those of the inputs, in the order of the inputs:
    nothing is replaced and nothing is removed, so a value that two
    inputs list is listed twice. *)
Theorem mergeCommonConfig_lists_concatenated (configs : list CommonConfig.t) :
  let merged := mergeCommonConfig configs in
  CommonConfig.Requirements merged
  = concat (CommonConfig.Requirements <$> configs)
  ∧ CommonConfig.ExcludedRequirements merged
    = concat (CommonConfig.ExcludedRequirements <$> configs)
  ∧ CommonConfig.Env merged = concat (CommonConfig.Env <$> configs)
  ∧ CommonConfig.ImagePullSecrets merged
    = concat (CommonConfig.ImagePullSecrets <$> configs)
  ∧ CommonConfig.Modifiers merged
    = concat (CommonConfig.Modifiers <$> configs).
Proof. apply mergeCommonConfig_slices. Qed.

Lemma mergeValue_inherited {A} `{mergo.Emptiness A} (base catalog job : A) :
  mergo.mergeValue mergeOptions (mergo.mergeValue mergeOptions base catalog) job
  = inherited base catalog job.
Proof.
  unfold mergo.mergeValue, inherited. rewrite mergeOptions_Overwrite.
  rewrite !orb_true_r. cbn [andb].
  by destruct (mergo.isEmptyValue job), (mergo.isEmptyValue catalog).
Qed.

Lemma mergeCommonConfig_three (base catalog job : CommonConfig.t) :
  mergeCommonConfig [base; catalog; job]
  = mergeCommonConfig_step (mergeCommonConfig_step base catalog) job.
Proof.
  unfold mergeCommonConfig. cbn [foldl].
  by rewrite mergeCommonConfig_step_zero.
Qed.

Lemma chooseNodeSelector_inherited (base catalog job : gmap string string) :
  chooseNodeSelector (chooseNodeSelector base catalog) job
  = inheritedSelector base catalog job.
Proof.
  unfold chooseNodeSelector, inheritedSelector.
  assert (∀ m : gmap string string,
            negb (size m =? 0)%nat = bool_decide (m ≠ ∅)) as Hsize.
  { intros m. destruct (decide (m = ∅)) as [->|Hne].
    - rewrite map_size_empty. cbn. by rewrite bool_decide_eq_false_2 by auto.
    - rewrite bool_decide_eq_true_2 by done.
      apply negb_true_iff, Nat.eqb_neq. by intros ?%map_size_empty_inv. }
  rewrite !Hsize. by repeat case_decide; repeat case_bool_decide.
Qed.

Ltac resolved_field :=
  rewrite mergeCommonConfig_three;
  match goal with
  | |- ?get (mergeCommonConfig_step (mergeCommonConfig_step ?b ?c) ?j) = _ =>
      transitivity
        (mergo.mergeValue mergeOptions
           (mergo.mergeValue mergeOptions (get b) (get c)) (get j));
      [unfold mergeCommonConfig_step; by repeat destruct (negb _)
      |apply mergeValue_inherited]
  end.

(** The string and integer fields of the merge of a base, a catalog and
    a job configuration. *)
Lemma mergeCommonConfig_inherited (base catalog job : CommonConfig.t) :
  let merged := mergeCommonConfig [base; catalog; job] in
  CommonConfig.GCSLogBucket merged
  = inherited (CommonConfig.GCSLogBucket base)
      (CommonConfig.GCSLogBucket catalog) (CommonConfig.GCSLogBucket job)
  ∧ CommonConfig.TerminationGracePeriodSeconds merged
    = inherited (CommonConfig.TerminationGracePeriodSeconds base)
        (CommonConfig.TerminationGracePeriodSeconds catalog)
        (CommonConfig.TerminationGracePeriodSeconds job)
  ∧ CommonConfig.Interval merged
    = inherited (CommonConfig.Interval base) (CommonConfig.Interval catalog)
        (CommonConfig.Interval job)
  ∧ CommonConfig.Cron merged
    = inherited (CommonConfig.Cron base) (CommonConfig.Cron catalog)
        (CommonConfig.Cron job)
  ∧ CommonConfig.Cluster merged
    = inherited (CommonConfig.Cluster base) (CommonConfig.Cluster catalog)
        (CommonConfig.Cluster job)
  ∧ CommonConfig.Image merged
    = inherited (CommonConfig.Image base) (CommonConfig.Image catalog)
        (CommonConfig.Image job)
  ∧ CommonConfig.ImagePullPolicy merged
    = inherited (CommonConfig.ImagePullPolicy base)
        (CommonConfig.ImagePullPolicy catalog)
        (CommonConfig.ImagePullPolicy job)
  ∧ CommonConfig.ServiceAccountName merged
    = inherited (CommonConfig.ServiceAccountName base)
        (CommonConfig.ServiceAccountName catalog)
        (CommonConfig.ServiceAccountName job)
  ∧ CommonConfig.Regex merged
    = inherited (CommonConfig.Regex base) (CommonConfig.Regex catalog)
        (CommonConfig.Regex job)
  ∧ CommonConfig.Trigger merged
    = inherited (CommonConfig.Trigger base) (CommonConfig.Trigger catalog)
        (CommonConfig.Trigger job)
  ∧ CommonConfig.MaxConcurrency merged
    = inherited (CommonConfig.MaxConcurrency base)
        (CommonConfig.MaxConcurrency catalog)
        (CommonConfig.MaxConcurrency job)
  ∧ CommonConfig.Resources merged
    = inherited (CommonConfig.Resources base) (CommonConfig.Resources catalog)
        (CommonConfig.Resources job)
  ∧ CommonConfig.NodeSelector merged
    = inheritedSelector (CommonConfig.NodeSelector base)
        (CommonConfig.NodeSelector catalog) (CommonConfig.NodeSelector job).
Proof.
  intros merged. subst merged. repeat split; try resolved_field.
  rewrite mergeCommonConfig_three, !mergeCommonConfig_step_NodeSelector.
  apply chooseNodeSelector_inherited.
Qed.

Lemma mergeCommonConfig_resolvedFrom (base catalog own : CommonConfig.t) :
  resolvedFrom base catalog own (mergeCommonConfig [base; catalog; own]).
Proof.
  pose proof (mergeCommonConfig_inherited base catalog own) as Hscalars.
  pose proof (mergeCommonConfig_slices [base; catalog; own])
    as Hlists.
  cbv zeta in Hscalars, Hlists. cbn [fmap list_fmap concat] in Hlists.
  rewrite !app_nil_r in Hlists.
  destruct Hscalars as (? & ? & ? & ? & ? & ? & ? & ? & ? & ? & ? & ? & ?).
  destruct Hlists as (? & ? & ? & ? & ?).
  unfold resolvedFrom. by repeat split.
Qed.

(** X2. resolveOverwrites merges in two steps, the catalog over the base
    and each job over the result; what a job ends up with is the merge
    of the base, the catalog and the job, in this order.  The jobs stay
    as many and in their order, and nothing but the common configuration
    changes. *)
Theorem resolveOverwrites_three_levels (baseCommonConfig : CommonConfig.t)
    (jobsConfig : JobsConfig.t) :
  let resolved := resolveOverwrites baseCommonConfig jobsConfig in
  JobsConfig.CommonConfig resolved
  = mergeCommonConfig [baseCommonConfig; JobsConfig.CommonConfig jobsConfig]
  ∧ JobsConfig.Jobs resolved
    = (λ job,
         Job.withCommonConfig job
           (mergeCommonConfig
              [baseCommonConfig; JobsConfig.CommonConfig jobsConfig;
               Job.CommonConfig job]))
      <$> JobsConfig.Jobs jobsConfig
  ∧ length (JobsConfig.Jobs resolved) = length (JobsConfig.Jobs jobsConfig)
  ∧ JobsConfig.Org resolved = JobsConfig.Org jobsConfig
  ∧ JobsConfig.Repo resolved = JobsConfig.Repo jobsConfig
  ∧ JobsConfig.Branches resolved = JobsConfig.Branches jobsConfig
  ∧ JobsConfig.Matrix resolved = JobsConfig.Matrix jobsConfig.
Proof.
  intros resolved. subst resolved.
  split; [done|]. split; [apply resolveOverwrites_Jobs|].
  split; [|done]. by rewrite resolveOverwrites_Jobs, length_fmap.
Qed.

Lemma resolveOverwrites_resolvedFrom (baseCommonConfig : CommonConfig.t)
    (jobsConfig : JobsConfig.t) :
  Forall2
    (λ job resolved,
       sameJobApart job resolved
       ∧ resolvedFrom baseCommonConfig (JobsConfig.CommonConfig jobsConfig)
           (Job.CommonConfig job) (Job.CommonConfig resolved))
    (JobsConfig.Jobs jobsConfig)
    (JobsConfig.Jobs (resolveOverwrites baseCommonConfig jobsConfig)).
Proof.
  rewrite resolveOverwrites_Jobs. apply Forall2_fmap_r, Forall_Forall2_diag.
  apply Forall_forall. intros job _. split; [done|].
  apply mergeCommonConfig_resolvedFrom.
Qed.


(** X4. The container of a job of a resolved catalog lists the
    environment of the base and of the catalog twice: once as inherited
    by the job, before the job's own variables, and once more at the
    end, where createContainer appends the catalog's environment. *)
Theorem createContainer_env_of_resolved (baseCommonConfig : CommonConfig.t)
    (jobsConfig : JobsConfig.t)
    (resources : gmap string ResourceRequirements.t) :
  let resolved := resolveOverwrites baseCommonConfig jobsConfig in
  let inheritedEnv :=
    (CommonConfig.Env baseCommonConfig
     ++ CommonConfig.Env (JobsConfig.CommonConfig jobsConfig))%list in
  Forall2
    (λ job resolvedJob,
       ∃ c, createContainer resolved resolvedJob resources = [c]
            ∧ Container.Env c
              = ((inheritedEnv ++ CommonConfig.Env (Job.CommonConfig job))
                 ++ inheritedEnv)%list)
    (JobsConfig.Jobs jobsConfig) (JobsConfig.Jobs resolved).
Proof.
  intros resolved inheritedEnv. subst resolved.
  rewrite resolveOverwrites_Jobs. apply Forall2_fmap_r, Forall_Forall2_diag.
  apply Forall_forall. intros job _.
  unfold createContainer. eexists. split; [reflexivity|].
  pose proof (mergeCommonConfig_slices
                [baseCommonConfig; JobsConfig.CommonConfig jobsConfig;
                 Job.CommonConfig job]) as (_ & _ & Hjob & _).
  pose proof (mergeCommonConfig_slices
                [baseCommonConfig; JobsConfig.CommonConfig jobsConfig])
    as (_ & _ & Hcatalog & _).
  cbn [fmap list_fmap concat] in Hjob, Hcatalog.
  rewrite !app_nil_r in Hjob, Hcatalog.
  cbn [Job.CommonConfig Job.withCommonConfig resolveOverwrites
         JobsConfig.CommonConfig].
  rewrite Hjob, Hcatalog. subst inheritedEnv.
  assert (∀ own catalog : list EnvVar.t,
            (if (length own =? 0)%nat then catalog else (own ++ catalog)%list)
            = (own ++ catalog)%list) as -> by (by intros []).
  rewrite (app_assoc (CommonConfig.Env baseCommonConfig)).
  by destruct (resources !! _); destruct (negb (bool_decide _)).
Qed.

Lemma FilterReleaseBranchingJobs_filter (jobs : list Job.t) :
  FilterReleaseBranchingJobs jobs
  = filter (λ j, Job.DisableReleaseBranching j = false) jobs.
Proof.
  unfold FilterReleaseBranchingJobs.
  assert (∀ jobsF,
            foldl
              (λ jobsF j,
                 if Job.DisableReleaseBranching j then jobsF
                 else (jobsF ++ [j])%list)
              jobsF jobs
            = (jobsF
               ++ filter (λ j, Job.DisableReleaseBranching j = false) jobs)%list)
    as Hloop.
  { induction jobs as [|j jobs IH]; intros jobsF; simpl.
    - by rewrite app_nil_r.
    - rewrite IH, filter_cons.
      destruct (Job.DisableReleaseBranching j); [done|].
      rewrite decide_True by done. by rewrite <- app_assoc. }
  apply Hloop.
Qed.

(** X5. FilterReleaseBranchingJobs keeps the jobs that do not disable
    release branching and only them, in the order they had; filtering
    once more changes nothing. *)
Theorem FilterReleaseBranchingJobs_keeps_enabled (jobs : list Job.t) :
  let kept := FilterReleaseBranchingJobs jobs in
  (∀ j, j ∈ kept ↔ j ∈ jobs ∧ Job.DisableReleaseBranching j = false)
  ∧ sublist kept jobs
  ∧ FilterReleaseBranchingJobs kept = kept
  ∧ (Forall (λ j, Job.DisableReleaseBranching j = false) jobs → kept = jobs).
Proof.
  intros kept. subst kept. rewrite !FilterReleaseBranchingJobs_filter.
  split; [|split; [|split]].
  - intros j. rewrite list_elem_of_filter. tauto.
  - apply sublist_filter.
  - apply list_filter_filter_l. tauto.
  - intros Hall. induction Hall as [|j jobs Hj _ IH]; [done|].
    rewrite filter_cons, decide_True by done. by rewrite IH.
Qed.

(** X6. ReadBase, handed the configuration read so far, returns it with
    the common configuration of the file merged over its own; the
    autogeneration header, the path aliases and the dashboard settings
    stay those of the configuration handed in, whatever the file
    declares.  Handed nothing, it returns what the file declares.  Read
    one after the other, two files are merged over the first
    configuration in the order they are read. *)
Theorem ReadBase_merges_common_only `{Files} (parent : BaseConfig.t)
    (file yamlFile : string) (newBaseConfig : BaseConfig.t) :
  ReadFile file = inl yamlFile →
  unmarshalBaseConfig yamlFile = inl newBaseConfig →
  ReadBase None file = Returned newBaseConfig
  ∧ ∃ merged,
      ReadBase (Some parent) file = Returned merged
      ∧ BaseConfig.CommonConfig merged
        = mergeCommonConfig
            [BaseConfig.CommonConfig parent;
             BaseConfig.CommonConfig newBaseConfig]
      ∧ BaseConfig.AutogenHeader merged = BaseConfig.AutogenHeader parent
      ∧ BaseConfig.PathAliases merged = BaseConfig.PathAliases parent
      ∧ BaseConfig.TestgridConfig merged = BaseConfig.TestgridConfig parent
      ∧ ∀ nextFile nextYaml nextBaseConfig,
          ReadFile nextFile = inl nextYaml →
          unmarshalBaseConfig nextYaml = inl nextBaseConfig →
          ∃ last,
            ReadBase (Some merged) nextFile = Returned last
            ∧ BaseConfig.CommonConfig last
              = mergeCommonConfig
                  [BaseConfig.CommonConfig parent;
                   BaseConfig.CommonConfig newBaseConfig;
                   BaseConfig.CommonConfig nextBaseConfig]
            ∧ BaseConfig.PathAliases last = BaseConfig.PathAliases parent
            ∧ BaseConfig.TestgridConfig last
              = BaseConfig.TestgridConfig parent.
Proof.
  intros Hread Hdecode. unfold ReadBase. rewrite Hread, Hdecode.
  split; [done|]. eexists. split; [reflexivity|].
  cbn [BaseConfig.CommonConfig BaseConfig.AutogenHeader
         BaseConfig.PathAliases BaseConfig.TestgridConfig deepCopyBaseConfig].
  repeat (split; [done|]).
  intros nextFile nextYaml nextBaseConfig Hnext Hnextdecode.
  rewrite Hnext, Hnextdecode. eexists. split; [reflexivity|].
  cbn [BaseConfig.CommonConfig BaseConfig.AutogenHeader
         BaseConfig.PathAliases BaseConfig.TestgridConfig deepCopyBaseConfig].
  split; [|done]. unfold deepCopyBaseConfig.
  by rewrite (mergeCommonConfig_nested
                [BaseConfig.CommonConfig parent;
                 BaseConfig.CommonConfig newBaseConfig]
                [BaseConfig.CommonConfig nextBaseConfig]).
Qed.

(** X7. ReadJobsConfig returns a catalog that names at least one
    branch: the branches the file declares, and master alone when it
    declares none.  The catalog is resolved against the client's base
    configuration. *)
Theorem ReadJobsConfig_defaults_to_master `{Files} (cli : Client.t)
    (file yamlFile : string) (declared : JobsConfig.t) :
  ReadFile file = inl yamlFile →
  unmarshalJobsConfig yamlFile = inl declared →
  ∃ jobsConfig,
    ReadJobsConfig cli file = Returned jobsConfig
    ∧ JobsConfig.Branches jobsConfig
      = (if decide (JobsConfig.Branches declared = []) then ["master"]
         else JobsConfig.Branches declared)
    ∧ JobsConfig.Branches jobsConfig ≠ []
    ∧ JobsConfig.CommonConfig jobsConfig
      = mergeCommonConfig
          [BaseConfig.CommonConfig (Client.BaseConfig cli);
           JobsConfig.CommonConfig declared]
    ∧ Forall2
        (λ job resolved,
           sameJobApart job resolved
           ∧ resolvedFrom (BaseConfig.CommonConfig (Client.BaseConfig cli))
               (JobsConfig.CommonConfig declared) (Job.CommonConfig job)
               (Job.CommonConfig resolved))
        (JobsConfig.Jobs declared) (JobsConfig.Jobs jobsConfig).
Proof.
  intros Hread Hdecode. unfold ReadJobsConfig. rewrite Hread, Hdecode.
  eexists. split; [reflexivity|].
  destruct (JobsConfig.Branches declared) as [|branch branches] eqn:Hbranches.
  - cbn [length Nat.eqb]. split; [done|]. split; [done|]. split; [done|].
    pose proof (resolveOverwrites_resolvedFrom
                  (BaseConfig.CommonConfig (Client.BaseConfig cli))
                  (JobsConfig.mk (JobsConfig.CommonConfig declared)
                     (JobsConfig.SupportReleaseBranching declared)
                     (JobsConfig.Repo declared) (JobsConfig.Org declared)
                     (JobsConfig.CloneURI declared) ["master"]
                     (JobsConfig.Matrix declared) (JobsConfig.Jobs declared)))
      as Hjobs.
    exact Hjobs.
  - cbn [length Nat.eqb]. rewrite decide_False by done.
    split; [done|].
    split; [by cbn [resolveOverwrites JobsConfig.Branches]; rewrite Hbranches|].
    split; [done|]. apply resolveOverwrites_resolvedFrom.
Qed.

(** ** Modifiers *)

Lemma bool_decide_elem_of_cons (x m : string) (ms : list string) :
  bool_decide (x ∈ m :: ms) = bool_decide (m = x) || bool_decide (x ∈ ms).
Proof.
  apply eq_true_iff_eq.
  rewrite orb_true_iff, !bool_decide_eq_true, elem_of_cons.
  split; (intros [?|?]; [by left|by right]).
Qed.

Lemma applyModifiersPresubmit_fields (presubmit : Presubmit.t)
    (jobModifiers : list string) :
  let result := applyModifiersPresubmit presubmit jobModifiers in
  Presubmit.Optional result
  = Presubmit.Optional presubmit
    || bool_decide (ModifierPresubmitOptional ∈ jobModifiers)
  ∧ Presubmit.SkipReport result
    = Presubmit.SkipReport presubmit
      || bool_decide (ModifierHidden ∈ jobModifiers)
  ∧ Presubmit.AlwaysRun result
    = Presubmit.AlwaysRun presubmit
      && negb (bool_decide (ModifierPresubmitSkipped ∈ jobModifiers))
  ∧ Presubmit.JobBase result
    = (if bool_decide (ModifierHidden ∈ jobModifiers)
       then JobBase.withReporterConfig (Presubmit.JobBase presubmit)
              hiddenPresubmitReporter
       else Presubmit.JobBase presubmit)
  ∧ Presubmit.Trigger result = Presubmit.Trigger presubmit
  ∧ Presubmit.Branches result = Presubmit.Branches presubmit
  ∧ Presubmit.RunIfChanged result = Presubmit.RunIfChanged presubmit.
Proof.
  intros result. subst result. unfold applyModifiersPresubmit.
  revert presubmit. induction jobModifiers as [|m ms IH]; intros presubmit.
  { cbn [foldl]. rewrite !bool_decide_eq_false_2 by apply not_elem_of_nil.
    by rewrite !orb_false_r, andb_true_r. }
  cbn [foldl]. rewrite !bool_decide_elem_of_cons.
  match goal with
  | |- context [foldl _ ?stepped ms] =>
      destruct (IH stepped) as (-> & -> & -> & -> & -> & -> & ->)
  end.
  unfold ModifierPresubmitOptional, ModifierHidden, ModifierPresubmitSkipped,
    hiddenPresubmitReporter.
  repeat case_bool_decide; simplify_eq; cbn;
    repeat split;
    rewrite ?orb_true_r, ?orb_false_r, ?andb_true_r, ?andb_false_r,
      ?orb_assoc, ?andb_assoc; try done.
  all: by destruct (bool_decide _).
Qed.

(** X8. What applyModifiersPresubmit makes of a presubmit depends only
    on which modifiers are listed, not on their order or number:
    presubmit_optional makes it optional, hidden makes it skip the
    report and replaces its reporter configuration, presubmit_skipped
    stops it from always running; any other modifier is passed over,
    and nothing else of the presubmit changes. *)
Theorem applyModifiersPresubmit_flags (presubmit : Presubmit.t)
    (jobModifiers : list string) :
  let result := applyModifiersPresubmit presubmit jobModifiers in
  Presubmit.Optional result
  = Presubmit.Optional presubmit
    || bool_decide (ModifierPresubmitOptional ∈ jobModifiers)
  ∧ Presubmit.SkipReport result
    = Presubmit.SkipReport presubmit
      || bool_decide (ModifierHidden ∈ jobModifiers)
  ∧ Presubmit.AlwaysRun result
    = Presubmit.AlwaysRun presubmit
      && negb (bool_decide (ModifierPresubmitSkipped ∈ jobModifiers))
  ∧ Presubmit.JobBase result
    = (if bool_decide (ModifierHidden ∈ jobModifiers)
       then JobBase.withReporterConfig (Presubmit.JobBase presubmit)
              hiddenPresubmitReporter
       else Presubmit.JobBase presubmit)
  ∧ Presubmit.Trigger result = Presubmit.Trigger presubmit
  ∧ Presubmit.Branches result = Presubmit.Branches presubmit
  ∧ Presubmit.RunIfChanged result = Presubmit.RunIfChanged presubmit.
Proof. apply applyModifiersPresubmit_fields. Qed.

Lemma applyModifiersPostsubmit_fields (postsubmit : Postsubmit.t)
    (jobModifiers : list string) :
  let result := applyModifiersPostsubmit postsubmit jobModifiers in
  Postsubmit.SkipReport result
  = Postsubmit.SkipReport postsubmit
    || bool_decide (ModifierHidden ∈ jobModifiers)
  ∧ Postsubmit.JobBase result
    = (if bool_decide (ModifierHidden ∈ jobModifiers)
       then JobBase.withReporterConfig (Postsubmit.JobBase postsubmit)
              hiddenPostsubmitReporter
       else Postsubmit.JobBase postsubmit)
  ∧ Postsubmit.Branches result = Postsubmit.Branches postsubmit
  ∧ Postsubmit.RunIfChanged result = Postsubmit.RunIfChanged postsubmit
  ∧ (ModifierHidden ∉ jobModifiers → result = postsubmit).
Proof.
  intros result. subst result. unfold applyModifiersPostsubmit.
  revert postsubmit. induction jobModifiers as [|m ms IH]; intros postsubmit.
  { cbn [foldl]. rewrite !bool_decide_eq_false_2 by apply not_elem_of_nil.
    by rewrite !orb_false_r. }
  cbn [foldl]. rewrite !bool_decide_elem_of_cons.
  match goal with
  | |- context [foldl _ ?stepped ms] =>
      destruct (IH stepped) as (-> & -> & -> & -> & Hsame)
  end.
  split; [|split; [|split; [|split]]].
  5: { intros Hnot. apply not_elem_of_cons in Hnot as [Hm Hms].
       rewrite Hsame by done.
       rewrite (bool_decide_eq_false_2 (m = ModifierHidden)) by done.
       by destruct (bool_decide (m = ModifierPresubmitOptional)). }
  all: unfold ModifierPresubmitOptional, ModifierHidden,
         hiddenPostsubmitReporter.
  all: repeat case_bool_decide; simplify_eq; cbn;
         rewrite ?orb_true_r, ?orb_false_r; try done.
  all: by destruct (bool_decide _).
Qed.

(** X9. Of the modifiers only hidden changes a postsubmit: it makes it
    skip the report and replaces its reporter configuration.  A
    postsubmit cannot be made optional and cannot be skipped: with
    hidden not listed, applyModifiersPostsubmit returns the postsubmit
    as it was. *)
Theorem applyModifiersPostsubmit_hidden_only (postsubmit : Postsubmit.t)
    (jobModifiers : list string) :
  let result := applyModifiersPostsubmit postsubmit jobModifiers in
  Postsubmit.SkipReport result
  = Postsubmit.SkipReport postsubmit
    || bool_decide (ModifierHidden ∈ jobModifiers)
  ∧ Postsubmit.JobBase result
    = (if bool_decide (ModifierHidden ∈ jobModifiers)
       then JobBase.withReporterConfig (Postsubmit.JobBase postsubmit)
              hiddenPostsubmitReporter
       else Postsubmit.JobBase postsubmit)
  ∧ Postsubmit.Branches result = Postsubmit.Branches postsubmit
  ∧ Postsubmit.RunIfChanged result = Postsubmit.RunIfChanged postsubmit
  ∧ (ModifierHidden ∉ jobModifiers → result = postsubmit).
Proof. apply applyModifiersPostsubmit_fields. Qed.

(** ** mergeMaps *)

Lemma lookup_map_fold_insert (init m : gmap string string) (key : string) :
  map_fold (λ k v newMap, <[k := v]> newMap) init m !! key
  = match m !! key with Some v => Some v | None => init !! key end.
Proof.
  apply (map_fold_weak_ind
           (λ r m, r !! key
                   = match m !! key with
                     | Some v => Some v
                     | None => init !! key
                     end)).
  - by rewrite lookup_empty.
  - intros i x m' r Hi IH. destruct (decide (i = key)) as [->|Hne].
    + by rewrite !lookup_insert_eq.
    + by rewrite !lookup_insert_ne.
Qed.

Lemma lookup_foldl_mergeMaps (mps : list (gmap string string))
    (init : gmap string string) (key : string) :
  foldl (λ newMap mp, map_fold (λ k v newMap, <[k := v]> newMap) newMap mp)
    init mps !! key
  = match lastBinding key mps with
    | Some v => Some v
    | None => init !! key
    end.
Proof.
  revert init. induction mps as [|mp mps IH]; intros init; [done|].
  cbn [foldl]. rewrite IH, lookup_map_fold_insert.
  unfold lastBinding. cbn [omap list_omap].
  destruct (mp !! key) as [v|]; [|done].
  rewrite last_cons. by destruct (last _).
Qed.

(** X10. mergeMaps binds a key to the value of the last map that has
    the key, and binds no key that no map has; merging no map gives the
    empty map, and merging one map gives a map with the same bindings. *)
Theorem mergeMaps_later_wins (mps : list (gmap string string)) :
  (∀ key, mergeMaps mps !! key = lastBinding key mps)
  ∧ mergeMaps [] = ∅
  ∧ (∀ mp, mergeMaps [mp] = mp)
  ∧ (∀ earlier later key v,
       later !! key = Some v →
       mergeMaps (mps ++ [earlier; later]) !! key = Some v).
Proof.
  assert (∀ mps key, mergeMaps mps !! key = lastBinding key mps) as Hlookup.
  { intros l key. unfold mergeMaps. rewrite lookup_foldl_mergeMaps.
    rewrite lookup_empty. by destruct (lastBinding key l). }
  split; [apply Hlookup|]. split; [done|]. split.
  - intros mp. apply map_eq. intros key. rewrite Hlookup.
    unfold lastBinding. cbn [omap list_omap]. by destruct (mp !! key).
  - intros earlier later key v Hkey. rewrite Hlookup. unfold lastBinding.
    rewrite omap_app, last_app. cbn [omap list_omap]. rewrite Hkey.
    by destruct (earlier !! key).
Qed.

(** ** Requirements *)

Lemma foldl_unblocked_presets (blocked : gset string)
    (presetMap : gmap string RequirementPreset.t)
    (requirements : list string) (presets : list RequirementPreset.t) :
  foldl
    (λ presets req,
       if negb (sets.Has blocked req)
       then (presets ++ [default RequirementPreset.zero (presetMap !! req)])%list
       else presets)
    presets requirements
  = (presets
     ++ ((λ req, default RequirementPreset.zero (presetMap !! req))
         <$> filter (λ req, req ∉ blocked) requirements))%list.
Proof.
  revert presets. induction requirements as [|req reqs IH]; intros presets.
  - by rewrite app_nil_r.
  - cbn [foldl]. rewrite IH, filter_cons. unfold sets.Has.
    destruct (decide (req ∈ blocked)) as [Hin|Hnot].
    + rewrite bool_decide_eq_true_2 by done. cbn [negb].
      by rewrite decide_False by auto.
    + rewrite bool_decide_eq_false_2 by done. cbn [negb].
      rewrite decide_True by done. by rewrite <- app_assoc.
Qed.

Lemma notDrawnFrom_keys {V} (presetMap : gmap string V) (description : string)
    (names : list string) :
  length (Rules.notDrawnFrom (map_to_list presetMap).*1 description names)
  = length (filter (λ name, presetMap !! name = None) names).
Proof.
  unfold Rules.notDrawnFrom. rewrite length_fmap. f_equal.
  apply list_filter_iff. intros name.
  rewrite elem_of_map_keys, <- eq_None_not_Some. done.
Qed.

(** X11. applyRequirements exits when a requirement or an excluded
    requirement names no preset of the catalog, with one error for each
    such name; otherwise it hands the job to the presets of the
    requirements that are not excluded, in the order the requirements
    are listed, a requirement listed twice counting twice. *)
Theorem applyRequirements_known_unblocked `{External} (job : JobBase.t)
    (requirements blockedRequirements : list string)
    (presetMap : gmap string RequirementPreset.t) :
  let unknown := filter (λ name, presetMap !! name = None) in
  let applied :=
    omap (λ name, presetMap !! name)
      (filter (λ name, name ∉ blockedRequirements) requirements) in
  (unknown requirements = [] → unknown blockedRequirements = [] →
   applyRequirements job requirements blockedRequirements presetMap
   = Returned
       (let '(annotations, labels, spec) :=
          resolveRequirements (JobBase.Annotations job) (JobBase.Labels job)
            (JobBase.Spec job) applied in
        JobBase.withSpec
          (JobBase.withLabels (JobBase.withAnnotations job annotations) labels)
          spec))
  ∧ (unknown requirements ≠ [] ∨ unknown blockedRequirements ≠ [] →
     ∃ errs,
       applyRequirements job requirements blockedRequirements presetMap
       = Exited "validation failed" errs
       ∧ length errs
         = length (unknown requirements)
           + length (unknown blockedRequirements)).
Proof.
  intros unknown applied. unfold applyRequirements. cbn zeta.
  rewrite !foldl_appendInvalid. cbn [app].
  pose proof (notDrawnFrom_keys presetMap "requirements" requirements)
    as Hreqs.
  pose proof (notDrawnFrom_keys presetMap "blocked_requirements"
                blockedRequirements) as Hblocked.
  fold (unknown requirements) in Hreqs.
  fold (unknown blockedRequirements) in Hblocked.
  split.
  - intros Hr Hb. rewrite Hr in Hreqs. rewrite Hb in Hblocked.
    apply nil_length_inv in Hreqs, Hblocked. rewrite Hreqs, Hblocked.
    cbn [app]. rewrite (foldl_unblocked_presets _ _ _ []). cbn [app].
    replace ((λ req, default RequirementPreset.zero (presetMap !! req))
             <$> filter (λ req, req ∉ sets.NewString blockedRequirements)
                   requirements)
      with applied;
      [by destruct (resolveRequirements _ _ _ _) as [[? ?] ?]|].
    subst applied.
    assert (filter (λ req, req ∉ sets.NewString blockedRequirements)
              requirements
            = filter (λ name, name ∉ blockedRequirements) requirements) as ->.
    { apply list_filter_iff. intros name. unfold sets.NewString.
      by rewrite elem_of_list_to_set. }
    assert (Forall (λ name, is_Some (presetMap !! name))
              (filter (λ name, name ∉ blockedRequirements) requirements))
      as Hknown.
    { apply Forall_forall. intros name [_ Hin]%list_elem_of_filter.
      apply not_eq_None_Some. intros Hnone.
      assert (name ∈ unknown requirements) as Hu
        by (by apply list_elem_of_filter).
      rewrite Hr in Hu. by apply elem_of_nil in Hu. }
    induction Hknown as [|name names [preset Hname] _ IH]; [done|].
    cbn [omap list_omap fmap list_fmap]. rewrite Hname. cbn. by f_equal.
  - intros Hsome.
    destruct (Rules.notDrawnFrom _ "requirements" requirements
              ++ Rules.notDrawnFrom _ "blocked_requirements"
                   blockedRequirements)%list as [|e errs] eqn:Herrs.
    + apply app_eq_nil in Herrs as [Hr Hb].
      rewrite Hr in Hreqs. rewrite Hb in Hblocked.
      symmetry in Hreqs, Hblocked.
      apply nil_length_inv in Hreqs, Hblocked. by destruct Hsome.
    + eexists. split; [reflexivity|].
      rewrite <- Herrs, length_app. by rewrite Hreqs, Hblocked.
Qed.

(** ** Matrix expansion: dimensions that are not declared, or empty *)

Lemma first_undeclared {V} (matrix : gmap string V) (dimensions : list string)
    (dimension : string) :
  dimension ∈ dimensions → matrix !! dimension = None →
  ∃ before first after,
    dimensions = (before ++ first :: after)%list
    ∧ Forall (λ d, is_Some (matrix !! d)) before
    ∧ matrix !! first = None.
Proof.
  intros Hin Hnone. induction dimensions as [|d ds IH].
  { by apply elem_of_nil in Hin. }
  destruct (matrix !! d) as [v|] eqn:Hd.
  - apply elem_of_cons in Hin as [->|Hin]; [congruence|].
    destruct (IH Hin) as (before & first & after & -> & Hbefore & Hfirst).
    exists (d :: before), first, after. split; [done|]. split; [|done].
    apply Forall_cons. split; [by rewrite Hd|done].
  - exists [], d, ds. by repeat split.
Qed.

Lemma applyMatrix_combs_exit (matrix : gmap string (list string))
    (subsExps combs before after : list string) (first : string) :
  (λ exp, strings.TrimPrefix exp "matrix.")
  <$> filter (λ exp, strings.HasPrefix exp "matrix." = true) subsExps
  = (before ++ first :: after)%list →
  Forall (λ d, is_Some (matrix !! d)) before →
  matrix !! first = None →
  forEach
    (λ combs exp,
       if strings.HasPrefix exp "matrix."
       then
         let exp := strings.TrimPrefix exp "matrix." in
         match matrix !! exp with
         | Some _ => Returned (combs ++ [exp])%list
         | None => Exited exp ["dimension is not configured in the matrix"]
         end
       else Returned combs)
    combs subsExps
  = Exited first ["dimension is not configured in the matrix"].
Proof.
  intros Hdims Hbefore Hfirst. revert combs before Hdims Hbefore.
  induction subsExps as [|exp exps IH]; intros combs before Hdims Hbefore.
  { by destruct before. }
  rewrite filter_cons in Hdims. cbn [forEach]. cbn zeta.
  destruct (strings.HasPrefix exp "matrix.") eqn:Hprefix.
  - rewrite decide_True in Hdims by done. rewrite fmap_cons in Hdims.
    destruct before as [|b before].
    + cbn [app] in Hdims. injection Hdims as -> _. by rewrite Hfirst.
    + cbn [app] in Hdims. injection Hdims as -> Hdims.
      apply Forall_cons in Hbefore as [[v Hb] Hbefore]. rewrite Hb.
      cbn [mbind outcome_bind]. by eapply IH.
  - rewrite decide_False in Hdims by done.
    cbn [mbind outcome_bind]. by eapply IH.
Qed.

Lemma expansionSize_empty_dimension (matrix : gmap string (list string))
    (dimensions : list string) (dimension : string) :
  dimension ∈ dimensions → matrix !! dimension = Some [] →
  expansionSize matrix dimensions = 0.
Proof.
  intros Hin Hempty. induction dimensions as [|d ds IH].
  { by apply elem_of_nil in Hin. }
  cbn [expansionSize foldr]. apply elem_of_cons in Hin as [<-|Hin].
  - by rewrite Hempty.
  - fold (expansionSize matrix ds). rewrite IH by done. lia.
Qed.

(** X12. A template that refers to a dimension the matrix does not
    declare makes applyMatrix exit, naming the first such dimension in
    the order the template refers to them.  A template all of whose
    dimensions are declared, one of them with no value, is expanded into
    nothing: the job is dropped without an error. *)
Theorem applyMatrix_undeclared_or_empty (yamlStr : string)
    (matrix : gmap string (list string)) :
  let dimensions := referencedDimensions yamlStr in
  (∀ dimension,
     dimension ∈ dimensions → matrix !! dimension = None →
     ∃ before first after,
       dimensions = (before ++ first :: after)%list
       ∧ Forall (λ d, is_Some (matrix !! d)) before
       ∧ matrix !! first = None
       ∧ applyMatrix yamlStr matrix
         = Exited first ["dimension is not configured in the matrix"])
  ∧ (∀ dimension,
       (∀ d, d ∈ dimensions → is_Some (matrix !! d)) →
       dimension ∈ dimensions → matrix !! dimension = Some [] →
       applyMatrix yamlStr matrix = Returned []).
Proof.
  intros dimensions. split.
  - intros dimension Hin Hnone.
    destruct (first_undeclared matrix dimensions dimension Hin Hnone)
      as (before & first & after & Hdims & Hbefore & Hfirst).
    exists before, first, after. repeat (split; [done|]).
    unfold applyMatrix. cbn zeta.
    destruct (length (getVarSubstitutionExpressions yamlStr) =? 0)%nat
      eqn:Hlen.
    + apply Nat.eqb_eq, nil_length_inv in Hlen.
      subst dimensions. unfold referencedDimensions in Hdims.
      rewrite Hlen in Hdims. by destruct before.
    + by rewrite (applyMatrix_combs_exit matrix _ [] before after first).
  - intros dimension Hdeclared Hin Hempty.
    destruct (applyMatrix_returns yamlStr matrix Hdeclared)
      as (expanded & -> & Hlen & _).
    fold dimensions in Hlen.
    rewrite (expansionSize_empty_dimension matrix dimensions dimension)
      in Hlen by done.
    by apply nil_length_inv in Hlen as ->.
Qed.

(** ** References to extra repositories *)

Lemma splitFrom_present (c : ascii) (s rest current : string) :
  strings.Contains s (String c "") = false →
  strings.splitFrom (String c "") 0 current (s +:+ String c rest)
  = (current +:+ s) :: strings.splitFrom (String c "") 0 "" rest.
Proof.
  revert current. induction s as [|a s IH]; intros current Habsent.
  - rewrite append_empty_l, append_empty_r. cbn [strings.splitFrom].
    by rewrite prefix_byte_cons, bool_decide_eq_true_2.
  - rewrite Contains_byte_cons in Habsent.
    apply orb_false_elim in Habsent as [Hca Hs].
    rewrite append_cons. cbn [strings.splitFrom].
    rewrite prefix_byte_cons, Hca. rewrite IH by done.
    by rewrite append_assoc.
Qed.

(** X13. A reference written as org/repo@branch is read as the
    repository repo of the organization org at that branch instead of
    the default branch.  The path alias is that of the organization, if
    it has one, followed by the repository; an organization with a dot
    in its name gets the clone address https://org/repo, which leaves
    the branch out.  A reference with no slash is read as the repository
    of that name in the organization of that same name. *)
Theorem createExtraRef_branch_and_slash (defaultBranch org repo branch : string)
    (pathAliases : gmap string string) :
  strings.Contains org "@" = false →
  strings.Contains repo "@" = false →
  strings.Contains repo "/" = false →
  strings.Contains branch "@" = false →
  createExtraRef defaultBranch pathAliases
    (org +:+ "/" +:+ repo +:+ "@" +:+ branch)
  = Refs.mk org repo branch
      (match pathAliases !! org with
       | Some pa => pa +:+ "/" +:+ repo
       | None => ""
       end)
      (if strings.Contains org "." then "https://" +:+ org +:+ "/" +:+ repo
       else "")
  ∧ createExtraRef defaultBranch pathAliases repo
    = Refs.mk repo repo defaultBranch
        (match pathAliases !! repo with
         | Some pa => pa +:+ "/" +:+ repo
         | None => ""
         end)
        (if strings.Contains repo "." then "https://" +:+ repo else "").
Proof.
  intros Horg Hrepo Hslash Hbranch. split.
  - unfold createExtraRef. cbn zeta. unfold strings.Split.
    replace (org +:+ "/" +:+ repo +:+ "@" +:+ branch)
      with ((org +:+ "/" +:+ repo) +:+ String "@" branch)
      by (by rewrite !append_assoc).
    rewrite splitFrom_present.
    2:{ rewrite Contains_byte_append, Horg.
        change ("/" +:+ repo) with (String "/" repo).
        by rewrite Contains_byte_cons, Hrepo. }
    rewrite splitFrom_absent by done. rewrite !append_empty_l.
    cbn [length Nat.ltb Nat.leb lookup list_lookup default from_option id].
    unfold strings.LastIndex.
    change ("/" +:+ repo) with (String "/" repo).
    rewrite (lastIndexFrom_last "/" org repo) by done.
    replace (Z.to_nat (0 + Z.of_nat (String.length org) + 1))
      with (String.length (org +:+ "/")) by (rewrite length_append; simpl; lia).
    change (org +:+ String "/" repo) with (org +:+ "/" +:+ repo).
    rewrite <- (append_assoc org "/" repo), sliceFrom_append.
    rewrite (append_assoc org "/" repo), TrimSuffix_append.
    done.
  - unfold createExtraRef. cbn zeta. unfold strings.Split.
    rewrite splitFrom_absent by done. rewrite append_empty_l.
    cbn [length Nat.ltb Nat.leb lookup list_lookup default from_option id].
    unfold strings.LastIndex. rewrite lastIndexFrom_absent by done.
    cbn [Z.add Z.to_nat Z.opp Pos.to_nat Z.pos_sub]. 
    change (Z.to_nat (-1 + 1)) with 0. cbn [strings.sliceFrom].
    assert (strings.TrimSuffix repo ("/" +:+ repo) = repo) as ->; [|done].
    unfold strings.TrimSuffix, strings.HasSuffix.
    change ("/" +:+ repo) with (String "/" repo). cbn [String.length].
    assert ((S (String.length repo) <=? String.length repo)%nat = false) as ->
      by (apply Nat.leb_gt; lia).
    done.
Qed.

(** ** What ConvertJobConfig generates *)

Lemma convertPresubmit_job `{External} (cli : Client.t)
    (jobsConfig : JobsConfig.t) (branch : string) (job job' : Job.t)
    (presubmit : Presubmit.t) :
  convertPresubmit cli jobsConfig branch job = Returned (presubmit, job') →
  Job.Name job' = Job.Name job ∧ Job.Types job' = Job.Types job
  ∧ Job.GerritPostsubmitLabel job' = Job.GerritPostsubmitLabel job
  ∧ CommonConfig.Labels (Job.CommonConfig job')
    = writtenThrough (CommonConfig.Labels (Job.CommonConfig job))
        (JobBase.Labels (Presubmit.JobBase presubmit)) true.
Proof.
  unfold convertPresubmit. cbn zeta.
  destruct (createJobBase _ _ _ _ _ _ _) as [base| |]; [|done..].
  cbn [mbind outcome_bind].
  destruct (applyRequirements _ _ _ _) as [jb| |]; [|done..].
  by intros [= <- <-].
Qed.

Lemma convertPostsubmit_job `{External} (cli : Client.t)
    (jobsConfig : JobsConfig.t) (branch : string) (job job' : Job.t)
    (postsubmit : Postsubmit.t) :
  convertPostsubmit cli jobsConfig branch job = Returned (postsubmit, job') →
  Job.Name job' = Job.Name job ∧ Job.Types job' = Job.Types job.
Proof.
  unfold convertPostsubmit. cbn zeta.
  destruct (createJobBase _ _ _ _ _ _ _) as [base| |]; [|done..].
  cbn [mbind outcome_bind].
  destruct (applyRequirements _ _ _ _) as [jb| |]; [|done..].
  by intros [= <- <-].
Qed.

Lemma materializedName_Name (job job' : Job.t) (jobsConfig : JobsConfig.t)
    (branch suffix : string) :
  Job.Name job' = Job.Name job →
  materializedName job' jobsConfig branch suffix
  = materializedName job jobsConfig branch suffix.
Proof. unfold materializedName. by intros ->. Qed.

Lemma generates_Types (job job' : Job.t) :
  Job.Types job' = Job.Types job →
  (generatesPresubmit job' ↔ generatesPresubmit job)
  ∧ (generatesPostsubmit job' ↔ generatesPostsubmit job)
  ∧ (generatesPeriodic job' ↔ generatesPeriodic job).
Proof.
  unfold generatesPresubmit, generatesPostsubmit, generatesPeriodic.
  by intros ->.
Qed.

Lemma generatesPresubmit_code (job : Job.t) :
  (length (Job.Types job) =? 0)%nat
  || sets.Has (sets.NewString (Job.Types job)) TypePresubmit
  = bool_decide (generatesPresubmit job).
Proof.
  rewrite Has_NewString. apply eq_true_iff_eq.
  rewrite orb_true_iff, Nat.eqb_eq, !bool_decide_eq_true.
  unfold generatesPresubmit. by rewrite length_zero_iff_nil.
Qed.

Lemma generatesPostsubmit_code (job : Job.t) :
  (length (Job.Types job) =? 0)%nat
  || sets.Has (sets.NewString (Job.Types job)) TypePostsubmit
  = bool_decide (generatesPostsubmit job).
Proof.
  rewrite Has_NewString. apply eq_true_iff_eq.
  rewrite orb_true_iff, Nat.eqb_eq, !bool_decide_eq_true.
  unfold generatesPostsubmit. by rewrite length_zero_iff_nil.
Qed.

(** What the postsubmit and the periodic block add for a job. *)
Lemma convertExpandedJob_rest `{External} (cli : Client.t)
    (jobsConfig : JobsConfig.t) (branch : string) (acc acc' : Collected.t)
    (presubmits : list Presubmit.t) (job : Job.t) :
  ('(postsubmits, job) ←
     (if (length (Job.Types job) =? 0)%nat ||
         sets.Has (sets.NewString (Job.Types job)) TypePostsubmit
      then
        '(postsubmit, job) ← convertPostsubmit cli jobsConfig branch job;
        Returned ((Collected.postsubmits acc ++ [postsubmit])%list, job)
      else Returned (Collected.postsubmits acc, job));
   periodics ←
     (if sets.Has (sets.NewString (Job.Types job)) TypePeriodic
      then
        '(periodic, _) ← convertPeriodic cli jobsConfig branch job;
        Returned (Collected.periodics acc ++ [periodic])%list
      else Returned (Collected.periodics acc));
   Returned (Collected.mk presubmits postsubmits periodics))
  = Returned acc' →
  Collected.presubmits acc' = presubmits
  ∧ postsubmitNames (Collected.postsubmits acc')
    = (postsubmitNames (Collected.postsubmits acc)
       ++ (if decide (generatesPostsubmit job)
           then [materializedName job jobsConfig branch "_postsubmit"]
           else []))%list
  ∧ periodicNames (Collected.periodics acc')
    = (periodicNames (Collected.periodics acc)
       ++ (if decide (generatesPeriodic job)
           then [materializedName job jobsConfig branch "_periodic"]
           else []))%list.
Proof.
  rewrite generatesPostsubmit_code.
  case_bool_decide as Hgen.
  - destruct (convertPostsubmit cli jobsConfig branch job)
      as [[postsubmit job2]| |] eqn:Hblock; [|done..].
    cbn [mbind outcome_bind].
    pose proof (convertPostsubmit_job _ _ _ _ _ _ Hblock) as (Hn2 & Ht2).
    apply convertPostsubmit_returns in Hblock as (Hname & _).
    rewrite Has_NewString, Ht2.
    rewrite (decide_True (P := generatesPostsubmit job)) by done.
    case_bool_decide as Hper.
    + destruct (convertPeriodic cli jobsConfig branch job2)
        as [[periodic job3]| |] eqn:Hperiodic; [|done..].
      cbn [mbind outcome_bind]. intros [= <-].
      apply convertPeriodic_returns in Hperiodic as (Hpname & _).
      rewrite (materializedName_Name job job2) in Hpname by done.
      cbn [Collected.presubmits Collected.postsubmits Collected.periodics].
      split; [done|].
      rewrite (decide_True (P := generatesPeriodic job)) by done.
      unfold postsubmitNames, periodicNames.
      by rewrite !fmap_app, <- Hname, <- Hpname.
    + cbn [mbind outcome_bind]. intros [= <-].
      cbn [Collected.presubmits Collected.postsubmits Collected.periodics].
      split; [done|].
      rewrite (decide_False (P := generatesPeriodic job)) by done.
      unfold postsubmitNames. by rewrite fmap_app, app_nil_r, <- Hname.
  - cbn [mbind outcome_bind]. rewrite Has_NewString.
    rewrite (decide_False (P := generatesPostsubmit job)) by done.
    case_bool_decide as Hper.
    + destruct (convertPeriodic cli jobsConfig branch job)
        as [[periodic job3]| |] eqn:Hperiodic; [|done..].
      cbn [mbind outcome_bind]. intros [= <-].
      apply convertPeriodic_returns in Hperiodic as (Hpname & _).
      cbn [Collected.presubmits Collected.postsubmits Collected.periodics].
      split; [done|]. rewrite app_nil_r. split; [done|].
      rewrite (decide_True (P := generatesPeriodic job)) by done.
      unfold periodicNames. by rewrite fmap_app, <- Hpname.
    + cbn [mbind outcome_bind]. intros [= <-].
      cbn [Collected.presubmits Collected.postsubmits Collected.periodics].
      split; [done|]. rewrite app_nil_r. split; [done|].
      rewrite (decide_False (P := generatesPeriodic job)) by done.
      by rewrite app_nil_r.
Qed.

(** What one expanded job adds to the collected jobs. *)
Lemma convertExpandedJob_names `{External} (cli : Client.t)
    (jobsConfig : JobsConfig.t) (branch : string) (acc acc' : Collected.t)
    (job : Job.t) :
  convertExpandedJob cli jobsConfig branch acc job = Returned acc' →
  presubmitNames (Collected.presubmits acc')
  = (presubmitNames (Collected.presubmits acc)
     ++ (if decide (generatesPresubmit job)
         then [materializedName job jobsConfig branch ""] else []))%list
  ∧ postsubmitNames (Collected.postsubmits acc')
    = (postsubmitNames (Collected.postsubmits acc)
       ++ (if decide (generatesPostsubmit job)
           then [materializedName job jobsConfig branch "_postsubmit"]
           else []))%list
  ∧ periodicNames (Collected.periodics acc')
    = (periodicNames (Collected.periodics acc)
       ++ (if decide (generatesPeriodic job)
           then [materializedName job jobsConfig branch "_periodic"]
           else []))%list.
Proof.
  unfold convertExpandedJob.
  rewrite generatesPresubmit_code.
  case_bool_decide as Hgen.
  - destruct (convertPresubmit cli jobsConfig branch job)
      as [[presubmit job1]| |] eqn:Hblock; [|done..].
    cbn [mbind outcome_bind].
    pose proof (convertPresubmit_job _ _ _ _ _ _ Hblock) as (Hn & Ht & _).
    apply convertPresubmit_returns in Hblock as (Hname & _).
    intros (-> & Hpost & Hper)%convertExpandedJob_rest.
    pose proof (generates_Types job job1 Ht) as (_ & Hgpost & Hgper).
    rewrite (materializedName_Name job job1) in Hpost, Hper by done.
    rewrite (decide_True (P := generatesPresubmit job)) by done.
    split; [unfold presubmitNames; by rewrite fmap_app, <- Hname|].
    split.
    + rewrite Hpost. by repeat case_decide; try tauto.
    + rewrite Hper. by repeat case_decide; try tauto.
  - cbn [mbind outcome_bind].
    intros (-> & Hpost & Hper)%convertExpandedJob_rest.
    rewrite (decide_False (P := generatesPresubmit job)) by done.
    by rewrite app_nil_r.
Qed.

Lemma forEach_convertExpandedJob_names `{External} (cli : Client.t)
    (jobsConfig : JobsConfig.t) (branch : string) (jobs : list Job.t)
    (acc acc' : Collected.t) :
  forEach (convertExpandedJob cli jobsConfig branch) acc jobs = Returned acc' →
  presubmitNames (Collected.presubmits acc')
  = (presubmitNames (Collected.presubmits acc)
     ++ ((λ job, materializedName job jobsConfig branch "")
         <$> filter generatesPresubmit jobs))%list
  ∧ postsubmitNames (Collected.postsubmits acc')
    = (postsubmitNames (Collected.postsubmits acc)
       ++ ((λ job, materializedName job jobsConfig branch "_postsubmit")
           <$> filter generatesPostsubmit jobs))%list
  ∧ periodicNames (Collected.periodics acc')
    = (periodicNames (Collected.periodics acc)
       ++ ((λ job, materializedName job jobsConfig branch "_periodic")
           <$> filter generatesPeriodic jobs))%list.
Proof.
  revert acc. induction jobs as [|job jobs IH]; intros acc; cbn [forEach].
  { intros [= <-]. by rewrite !app_nil_r. }
  destruct (convertExpandedJob cli jobsConfig branch acc job)
    as [acc1| |] eqn:Hjob; [|done..].
  cbn [mbind outcome_bind]. intros (Hpre & Hpost & Hper)%IH.
  apply convertExpandedJob_names in Hjob as (Hpre1 & Hpost1 & Hper1).
  rewrite Hpre, Hpost, Hper, Hpre1, Hpost1, Hper1, !filter_cons.
  rewrite <- !app_assoc.
  by repeat case_decide.
Qed.

Lemma insert_onlyUnder {V} (key : string) (collected : list V)
    (generated : gmap string (list V)) :
  onlyUnder key generated →
  onlyUnder key
    (if (0 <? length collected)%nat then <[key := collected]> generated
     else generated)
  ∧ (default [] (generated !! key) = [] ∨ collected ≠ [] →
     default []
       ((if (0 <? length collected)%nat then <[key := collected]> generated
         else generated) !! key)
     = collected).
Proof.
  intros [Hother Hkey]. destruct collected as [|x collected]; cbn.
  - split; [done|]. by intros [?|?].
  - split; [split|].
    + intros other Hne. rewrite lookup_insert_ne by done. by apply Hother.
    + by rewrite lookup_insert_eq.
    + intros _. by rewrite lookup_insert_eq.
Qed.

Lemma convertParentJob_names `{External} (cli : Client.t)
    (jobsConfig : JobsConfig.t) (branch : string)
    (state state' : Collected.t * JobConfig.t) (parentJob : Job.t) :
  reflectsCollected jobsConfig state →
  convertParentJob cli jobsConfig branch state parentJob = Returned state' →
  ∃ jobs,
    applyMatrixJob parentJob (JobsConfig.Matrix jobsConfig) = Returned jobs
    ∧ forEach (convertExpandedJob cli jobsConfig branch) state.1 jobs
      = Returned state'.1
    ∧ reflectsCollected jobsConfig state'.
Proof.
  destruct state as [acc output]. cbn [fst snd].
  intros (Hpre & Hprekey & Hpost & Hpostkey & Hper). cbn [fst snd] in *.
  unfold convertParentJob.
  destruct (applyMatrixJob parentJob (JobsConfig.Matrix jobsConfig))
    as [jobs| |]; [|done..].
  cbn [mbind outcome_bind].
  destruct (forEach (convertExpandedJob cli jobsConfig branch) acc jobs)
    as [acc1| |] eqn:Hloop; [|done..].
  cbn [mbind outcome_bind]. cbn zeta. intros [= <-].
  exists jobs. split; [done|]. split; [done|].
  apply forEach_convertExpandedJob_names in Hloop as (Hn1 & Hn2 & Hn3).
  unfold reflectsCollected. cbn [fst snd JobConfig.PresubmitsStatic
    JobConfig.PostsubmitsStatic JobConfig.Periodics].
  fold (repositoryKey jobsConfig).
  destruct (insert_onlyUnder (repositoryKey jobsConfig)
              (Collected.presubmits acc1)
              (JobConfig.PresubmitsStatic output) Hprekey) as [Hk1 Hl1].
  destruct (insert_onlyUnder (repositoryKey jobsConfig)
              (Collected.postsubmits acc1)
              (JobConfig.PostsubmitsStatic output) Hpostkey) as [Hk2 Hl2].
  assert (∀ (names names' added : list string),
            names' = (names ++ added)%list → names' = [] → names = [])
    as Hgrows.
  { intros names names' added -> Hnil. by apply app_eq_nil in Hnil as [-> _]. }
  split; [|split; [done|split; [|split; [done|]]]].
  - apply Hl1. destruct (Collected.presubmits acc1) eqn:Hacc1; [left|by right].
    rewrite Hpre.
    assert (presubmitNames (Collected.presubmits acc) = []) as Hnil.
    { by eapply Hgrows; [exact Hn1|]. }
    by apply fmap_nil_inv in Hnil.
  - apply Hl2. destruct (Collected.postsubmits acc1) eqn:Hacc1; [left|by right].
    rewrite Hpost. 
    assert (postsubmitNames (Collected.postsubmits acc) = []) as Hnil.
    { by eapply Hgrows; [exact Hn2|]. }
    by apply fmap_nil_inv in Hnil.
  - destruct (Collected.periodics acc1) eqn:Hacc1; [|done]. cbn.
    rewrite Hper.
    assert (periodicNames (Collected.periodics acc) = []) as Hnil.
    { by eapply Hgrows; [exact Hn3|]. }
    by apply fmap_nil_inv in Hnil.
Qed.

Lemma forEach_app {A B} (body : A → B → outcome A) (acc : A) (xs ys : list B) :
  forEach body acc (xs ++ ys)
  = (acc ← forEach body acc xs; forEach body acc ys).
Proof.
  revert acc. induction xs as [|x xs IH]; intros acc; [done|].
  cbn [app forEach]. destruct (body acc x); cbn [mbind outcome_bind]; [|done..].
  apply IH.
Qed.

Lemma forEach_convertParentJob_names `{External} (cli : Client.t)
    (jobsConfig : JobsConfig.t) (branch : string) (parentJobs : list Job.t)
    (state state' : Collected.t * JobConfig.t) :
  reflectsCollected jobsConfig state →
  forEach (convertParentJob cli jobsConfig branch) state parentJobs
  = Returned state' →
  ∃ expanded,
    Forall2
      (λ parentJob jobs,
         applyMatrixJob parentJob (JobsConfig.Matrix jobsConfig)
         = Returned jobs)
      parentJobs expanded
    ∧ forEach (convertExpandedJob cli jobsConfig branch) state.1
        (concat expanded)
      = Returned state'.1
    ∧ reflectsCollected jobsConfig state'.
Proof.
  revert state. induction parentJobs as [|parentJob parentJobs IH];
    intros state Hstate; cbn [forEach].
  { intros [= <-]. exists []. split; [constructor|]. by split. }
  destruct (convertParentJob cli jobsConfig branch state parentJob)
    as [state1| |] eqn:Hparent; [|done..].
  cbn [mbind outcome_bind]. intros Hrest.
  destruct (convertParentJob_names _ _ _ _ _ _ Hstate Hparent)
    as (jobs & Hjobs & Hloop & Hstate1).
  destruct (IH state1 Hstate1 Hrest) as (expanded & Hexpanded & Hloops & Hfinal).
  exists (jobs :: expanded). split; [by constructor|]. split; [|done].
  cbn [concat]. rewrite forEach_app, Hloop. by cbn [mbind outcome_bind].
Qed.

(** X14. When ConvertJobConfig returns, the generated configuration
    holds, under the key org/repo and under no other key, one presubmit
    for each expanded job that has no types or the type presubmit, and
    one postsubmit for each that has no types or the type postsubmit;
    and it holds one periodic for each expanded job that has the type
    periodic.  They come in the order of the catalog's jobs and of their
    expansion, and are named after the job, the repository, the branch
    unless it is master, and the kind.  No key is bound to an empty
    list. *)
Theorem ConvertJobConfig_generates_by_type `{External} (cli : Client.t)
    (jobsConfig : JobsConfig.t) (branch : string) (output : JobConfig.t) :
  ConvertJobConfig cli jobsConfig branch = Returned output →
  ∃ expanded,
    Forall2
      (λ parentJob jobs,
         applyMatrixJob parentJob (JobsConfig.Matrix jobsConfig)
         = Returned jobs)
      (JobsConfig.Jobs jobsConfig) expanded
    ∧ presubmitNames
        (default []
           (JobConfig.PresubmitsStatic output !! repositoryKey jobsConfig))
      = (λ job, materializedName job jobsConfig branch "")
        <$> filter generatesPresubmit (concat expanded)
    ∧ postsubmitNames
        (default []
           (JobConfig.PostsubmitsStatic output !! repositoryKey jobsConfig))
      = (λ job, materializedName job jobsConfig branch "_postsubmit")
        <$> filter generatesPostsubmit (concat expanded)
    ∧ periodicNames (JobConfig.Periodics output)
      = (λ job, materializedName job jobsConfig branch "_periodic")
        <$> filter generatesPeriodic (concat expanded)
    ∧ onlyUnder (repositoryKey jobsConfig) (JobConfig.PresubmitsStatic output)
    ∧ onlyUnder (repositoryKey jobsConfig)
        (JobConfig.PostsubmitsStatic output).
Proof.
  unfold ConvertJobConfig.
  destruct (forEach _ _ _) as [[acc out]| |] eqn:Hloop; [|done..].
  cbn [mbind outcome_bind]. intros [= <-].
  apply forEach_convertParentJob_names in Hloop
    as (expanded & Hexpanded & Hjobs & Hpre & Hprekey & Hpost & Hpostkey & Hper).
  2: { unfold reflectsCollected, onlyUnder. cbn.
       repeat split; try done; intros; by rewrite lookup_empty. }
  cbn [fst snd] in *.
  apply forEach_convertExpandedJob_names in Hjobs as (Hn1 & Hn2 & Hn3).
  exists expanded. split; [done|].
  by rewrite Hpre, Hpost, Hper, Hn1, Hn2, Hn3.
Qed.

(** ** When a presubmit runs *)

Lemma convertPresubmit_flags `{External} (cli : Client.t)
    (jobsConfig : JobsConfig.t) (branch : string) (job job' : Job.t)
    (presubmit : Presubmit.t) :
  convertPresubmit cli jobsConfig branch job = Returned (presubmit, job') →
  let common := Job.CommonConfig job in
  Presubmit.RunIfChanged presubmit = CommonConfig.Regex common
  ∧ Presubmit.AlwaysRun presubmit
    = bool_decide (CommonConfig.Regex common = "")
      && negb (bool_decide
                 (ModifierPresubmitSkipped ∈ CommonConfig.Modifiers common))
  ∧ Presubmit.Optional presubmit
    = bool_decide (ModifierPresubmitOptional ∈ CommonConfig.Modifiers common)
  ∧ Presubmit.SkipReport presubmit
    = bool_decide (ModifierHidden ∈ CommonConfig.Modifiers common)
  ∧ Presubmit.Branches presubmit = ["^" +:+ branch +:+ "$"].
Proof.
  unfold convertPresubmit. cbn zeta.
  destruct (createJobBase _ _ _ _ _ _ _) as [base| |]; [|done..].
  cbn [mbind outcome_bind].
  match goal with
  | |- context [applyRequirements
                  (Presubmit.JobBase (applyModifiersPresubmit ?p ?m))] =>
      pose proof (applyModifiersPresubmit_fields p m)
        as (Hopt & Hskip & Halways & _ & _ & Hbranches & Hrun);
      cbv zeta in Hopt, Hskip, Halways, Hbranches, Hrun;
      set (modified := applyModifiersPresubmit p m) in *
  end.
  destruct (applyRequirements _ _ _ _) as [jb| |]; [|done..].
  intros [= <- <-].
  cbn [Presubmit.withJobBase Presubmit.RunIfChanged Presubmit.AlwaysRun
         Presubmit.Optional Presubmit.SkipReport Presubmit.Branches].
  rewrite Hopt, Hskip, Halways, Hbranches, Hrun. clear.
  unfold when, whenFound.
  destruct (bool_decide (CommonConfig.Regex (Job.CommonConfig job) = ""))
    eqn:Hregex; cbn [negb].
  - apply bool_decide_eq_true in Hregex. rewrite Hregex.
    by repeat case_match.
  - by repeat case_match.
Qed.

(** X15. A generated presubmit runs on the one branch it is generated
    for.  It always runs unless the job declares a regular expression
    of changed files or the modifier presubmit_skipped; with a regular
    expression it runs if a changed file matches, and is never set to
    run always as well.  It is optional exactly when the job lists
    presubmit_optional, and its report is skipped exactly when the job
    lists hidden. *)
Theorem presubmit_run_conditions `{External} (cli : Client.t)
    (jobsConfig : JobsConfig.t) (branch : string) :
  (∀ job presubmit job',
     convertPresubmit cli jobsConfig branch job = Returned (presubmit, job') →
     let common := Job.CommonConfig job in
     Presubmit.RunIfChanged presubmit = CommonConfig.Regex common
     ∧ Presubmit.AlwaysRun presubmit
       = bool_decide (CommonConfig.Regex common = "")
         && negb (bool_decide
                    (ModifierPresubmitSkipped ∈ CommonConfig.Modifiers common))
     ∧ Presubmit.Optional presubmit
       = bool_decide
           (ModifierPresubmitOptional ∈ CommonConfig.Modifiers common)
     ∧ Presubmit.SkipReport presubmit
       = bool_decide (ModifierHidden ∈ CommonConfig.Modifiers common)
     ∧ Presubmit.Branches presubmit = ["^" +:+ branch +:+ "$"])
  ∧ (∀ output key presubmits,
       ConvertJobConfig cli jobsConfig branch = Returned output →
       JobConfig.PresubmitsStatic output !! key = Some presubmits →
       Forall
         (λ presubmit,
            Presubmit.Branches presubmit = ["^" +:+ branch +:+ "$"]
            ∧ (Presubmit.RunIfChanged presubmit ≠ "" →
               Presubmit.AlwaysRun presubmit = false))
         presubmits).
Proof.
  split; [intros job presubmit job'; apply convertPresubmit_flags|].
  intros output key presubmits Hrun Hkey.
  apply ConvertJobConfig_fromBlocks in Hrun as (Hpresubmits & _).
  specialize (Hpresubmits key presubmits Hkey).
  eapply Forall_impl; [exact Hpresubmits|].
  intros presubmit (job & job' & Hblock).
  apply convertPresubmit_flags in Hblock as (Hregex & Halways & _ & _ & Hb).
  split; [done|]. rewrite Hregex, Halways. intros Hne.
  by rewrite bool_decide_eq_false_2.
Qed.

(** ** The label map of a job is shared by what is generated from it *)

Lemma createJobBase_Labels cli baseConfig jobConfig job name branch resources jb :
  createJobBase cli baseConfig jobConfig job name branch resources
  = Returned jb →
  JobBase.Labels jb = CommonConfig.Labels (Job.CommonConfig job).
Proof.
  unfold createJobBase. destruct (_ && _); [done|]. by intros [= <-].
Qed.

Lemma applyRequirements_Labels `{External} (job jb : JobBase.t)
    (requirements blocked : list string)
    (presetMap : gmap string RequirementPreset.t) :
  applyRequirements job requirements blocked presetMap = Returned jb →
  ∃ annotations spec presets,
    JobBase.Labels jb
    = (resolveRequirements annotations (JobBase.Labels job) spec presets).1.2.
Proof.
  unfold applyRequirements. cbn zeta.
  destruct (foldl _ (foldl _ [] requirements) blocked); [|done].
  destruct (resolveRequirements _ _ _ _) as [[annotations labels] spec] eqn:Hr.
  intros [= <-]. do 3 eexists. by rewrite Hr.
Qed.

Lemma convertPostsubmit_Labels `{External} (cli : Client.t)
    (jobsConfig : JobsConfig.t) (branch : string) (job job' : Job.t)
    (postsubmit : Postsubmit.t) :
  convertPostsubmit cli jobsConfig branch job = Returned (postsubmit, job') →
  ∃ annotations spec presets,
    JobBase.Labels (Postsubmit.JobBase postsubmit)
    = (resolveRequirements annotations
         (when (negb (bool_decide (Job.GerritPostsubmitLabel job = "")))
            (insert GerritReportLabel (Job.GerritPostsubmitLabel job))
            (CommonConfig.Labels (Job.CommonConfig job)))
         spec presets).1.2.
Proof.
  unfold convertPostsubmit. cbn zeta.
  destruct (createJobBase _ _ _ _ _ _ _) as [base| |] eqn:Hbase; [|done..].
  apply createJobBase_Labels in Hbase.
  cbn [mbind outcome_bind].
  match goal with
  | |- context [applyRequirements
                  (Postsubmit.JobBase (applyModifiersPostsubmit ?p ?m))] =>
      pose proof (applyModifiersPostsubmit_fields p m) as (_ & Hjb & _);
      cbv zeta in Hjb;
      set (modified := applyModifiersPostsubmit p m) in *
  end.
  destruct (applyRequirements _ _ _ _) as [jb| |] eqn:Hreq; [|done..].
  apply applyRequirements_Labels in Hreq
    as (annotations & spec & presets & Hlabels).
  intros [= <- <-]. exists annotations, spec, presets.
  cbn [Postsubmit.withJobBase Postsubmit.JobBase]. rewrite Hlabels, Hjb.
  do 2 f_equal. rewrite <- Hbase. clear.
  unfold when, whenFound. by repeat case_match.
Qed.

Lemma convertPresubmit_Labels `{External} (cli : Client.t)
    (jobsConfig : JobsConfig.t) (branch : string) (job job' : Job.t)
    (presubmit : Presubmit.t) :
  convertPresubmit cli jobsConfig branch job = Returned (presubmit, job') →
  ∃ annotations spec presets,
    JobBase.Labels (Presubmit.JobBase presubmit)
    = (resolveRequirements annotations
         (when (negb (bool_decide (Job.GerritPresubmitLabel job = "")))
            (insert GerritReportLabel (Job.GerritPresubmitLabel job))
            (CommonConfig.Labels (Job.CommonConfig job)))
         spec presets).1.2.
Proof.
  unfold convertPresubmit. cbn zeta.
  destruct (createJobBase _ _ _ _ _ _ _) as [base| |] eqn:Hbase; [|done..].
  apply createJobBase_Labels in Hbase.
  cbn [mbind outcome_bind].
  match goal with
  | |- context [applyRequirements
                  (Presubmit.JobBase (applyModifiersPresubmit ?p ?m))] =>
      pose proof (applyModifiersPresubmit_fields p m) as (_ & _ & _ & Hjb & _);
      cbv zeta in Hjb;
      set (modified := applyModifiersPresubmit p m) in *
  end.
  destruct (applyRequirements _ _ _ _) as [jb| |] eqn:Hreq; [|done..].
  apply applyRequirements_Labels in Hreq
    as (annotations & spec & presets & Hlabels).
  intros [= <- <-]. exists annotations, spec, presets.
  cbn [Presubmit.withJobBase Presubmit.JobBase]. rewrite Hlabels, Hjb.
  do 2 f_equal. rewrite <- Hbase. clear.
  unfold when, whenFound. by repeat case_match.
Qed.

(** X16. A job that has labels shares its label map with what is
    generated from it.  After the presubmit block the job's labels are
    those of the presubmit, with the Gerrit report label of the
    presubmit and with what the requirement presets left; the
    postsubmit block starts from these labels, not from the labels the
    job declares.  A job without labels gets a map of its own for each
    generated job, and stays without labels. *)
Theorem job_labels_shared `{External} (cli : Client.t)
    (jobsConfig : JobsConfig.t) (branch : string) (job job' : Job.t)
    (presubmit : Presubmit.t) :
  convertPresubmit cli jobsConfig branch job = Returned (presubmit, job') →
  (∃ annotations spec presets,
     JobBase.Labels (Presubmit.JobBase presubmit)
     = (resolveRequirements annotations
          (when (negb (bool_decide (Job.GerritPresubmitLabel job = "")))
             (insert GerritReportLabel (Job.GerritPresubmitLabel job))
             (CommonConfig.Labels (Job.CommonConfig job)))
          spec presets).1.2)
  ∧ (CommonConfig.Labels (Job.CommonConfig job) ≠ ∅ →
     CommonConfig.Labels (Job.CommonConfig job')
     = JobBase.Labels (Presubmit.JobBase presubmit))
  ∧ (CommonConfig.Labels (Job.CommonConfig job) = ∅ →
     CommonConfig.Labels (Job.CommonConfig job') = ∅)
  ∧ (∀ postsubmit job'',
       convertPostsubmit cli jobsConfig branch job'
       = Returned (postsubmit, job'') →
       ∃ annotations spec presets,
         JobBase.Labels (Postsubmit.JobBase postsubmit)
         = (resolveRequirements annotations
              (when (negb (bool_decide (Job.GerritPostsubmitLabel job = "")))
                 (insert GerritReportLabel (Job.GerritPostsubmitLabel job))
                 (CommonConfig.Labels (Job.CommonConfig job')))
              spec presets).1.2).
Proof.
  intros Hblock.
  pose proof (convertPresubmit_job _ _ _ _ _ _ Hblock)
    as (_ & _ & Hgerrit & Hlabels).
  unfold writtenThrough in Hlabels. cbn [andb] in Hlabels.
  split; [by eapply convertPresubmit_Labels|]. split; [|split].
  - intros Hne. rewrite Hlabels.
    assert ((size (CommonConfig.Labels (Job.CommonConfig job)) =? 0)%nat
            = false) as ->; [|done].
    apply Nat.eqb_neq. by intros ?%map_size_empty_inv.
  - intros Hempty. rewrite Hlabels, Hempty. by rewrite map_size_empty.
  - intros postsubmit job'' Hpost. rewrite <- Hgerrit.
    by apply convertPostsubmit_Labels in Hpost.
Qed.

(** ** The first generator: validation *)

Lemma foldl_malformed (message : string → string) (repos err : list string) :
  foldl
    (λ err repo,
       if negb (length (strings.Split repo "/") =? 2)%nat
       then multierror.Append err (message repo) else err)
    err repos
  = (err ++ (message <$> filter (λ repo, Rules.slashes repo ≠ 1) repos))%list.
Proof.
  revert err. induction repos as [|repo repos IH]; intros err; simpl.
  - by rewrite app_nil_r.
  - rewrite IH, filter_cons. unfold strings.Split.
    rewrite length_splitFrom_slash.
    destruct (decide (Rules.slashes repo ≠ 1)) as [Hne|Heq].
    + assert ((S (Rules.slashes repo) =? 2)%nat = false) as ->
        by (apply Nat.eqb_neq; lia).
      cbn [negb]. unfold multierror.Append. by rewrite <- app_assoc.
    + assert ((S (Rules.slashes repo) =? 2)%nat = true) as ->
        by (apply Nat.eqb_eq; lia).
      done.
Qed.

Lemma fmap_nil_iff {A B} (f : A → B) (l : list A) : f <$> l = [] ↔ l = [].
Proof. split; [apply fmap_nil_inv|by intros ->]. Qed.

Lemma notDrawnFrom_nil (options : list string) (description : string)
    (inputs : list string) :
  Rules.notDrawnFrom options description inputs = []
  ↔ Forall (λ input, input ∈ options) inputs.
Proof.
  unfold Rules.notDrawnFrom. rewrite fmap_nil_iff.
  induction inputs as [|input inputs IH].
  - split; [constructor|done].
  - rewrite filter_cons, Forall_cons. case_decide as Hin.
    + split; [done|]. by intros [? _].
    + rewrite IH. tauto.
Qed.

Lemma legacy_validateJob_valid (jobConfig : LegacyGenerator.JobConfig.t)
    (err : list string) (job : Legacy.Job.t) :
  ∃ complaints,
    LegacyGenerator.validateJob jobConfig err job = (err ++ complaints)%list
    ∧ (complaints = [] ↔ legacyValidJob jobConfig job).
Proof.
  unfold LegacyGenerator.validateJob. cbn zeta.
  rewrite foldl_malformed.
  unfold appendInvalid at 1.
  rewrite validate_spec, !foldl_appendInvalid.
  set (resources :=
         if negb (bool_decide (Legacy.Job.Resources job = ""))
         then match LegacyGenerator.JobConfig.Resources jobConfig
                    !! Legacy.Job.Resources job with
              | None =>
                  ["job '" +:+ Legacy.Job.Name job +:+
                   "' has nonexistant resource '" +:+
                   Legacy.Job.Resources job +:+ "'"]
              | Some _ => []
              end
         else []).
  assert ((if negb (bool_decide (Legacy.Job.Resources job = ""))
           then match LegacyGenerator.JobConfig.Resources jobConfig
                      !! Legacy.Job.Resources job with
                | None =>
                    multierror.Append err
                      ("job '" +:+ Legacy.Job.Name job +:+
                       "' has nonexistant resource '" +:+
                       Legacy.Job.Resources job +:+ "'")
                | Some _ => err
                end
           else err) = (err ++ resources)%list) as ->.
  { subst resources. destruct (negb _); [|by rewrite app_nil_r].
    destruct (_ !! _); [by rewrite app_nil_r|done]. }
  assert (resources = []
          ↔ Legacy.Job.Resources job = ""
            ∨ is_Some (LegacyGenerator.JobConfig.Resources jobConfig
                         !! Legacy.Job.Resources job)) as Hresources.
  { subst resources. case_bool_decide as Hr; cbn [negb].
    - split; [by left|done].
    - destruct (_ !! _) eqn:Hlookup.
      + split; [by right|done].
      + split; [done|]. intros [?|[? ?]]; done. }
  set (type :=
         if decide (Legacy.Job.Type_ job ∈ [TypePostsubmit; TypePresubmit; ""])
         then []
         else [Rules.invalidOption [TypePostsubmit; TypePresubmit; ""] "type"
                 (Legacy.Job.Type_ job)]).
  eexists (resources
           ++ Rules.notDrawnFrom _ "status" (Legacy.Job.Modifiers job)
           ++ Rules.notDrawnFrom _ "requirements"
                (Legacy.Job.Requirements job)
           ++ type
           ++ (_ <$> filter (λ repo, Rules.slashes repo ≠ 1)
                       (Legacy.Job.Repos job)))%list.
  split.
  - subst type. case_decide; unfold multierror.Append;
      by rewrite <- ?app_assoc.
  - unfold legacyValidJob.
    rewrite !app_nil, Hresources, !notDrawnFrom_nil, fmap_nil_iff.
    assert (type = []
            ↔ Legacy.Job.Type_ job ∈ [TypePostsubmit; TypePresubmit; ""])
      as ->.
    { subst type. by case_decide. }
    assert (filter (λ repo, Rules.slashes repo ≠ 1) (Legacy.Job.Repos job) = []
            ↔ Forall (λ repo, Rules.slashes repo = 1) (Legacy.Job.Repos job))
      as ->; [|done].
    induction (Legacy.Job.Repos job) as [|repo repos IH].
    + split; [constructor|done].
    + rewrite filter_cons, Forall_cons. case_decide as Hrepo.
      * split; [done|]. by intros [? _].
      * rewrite IH. assert (Rules.slashes repo = 1) by lia. tauto.
Qed.

Lemma legacy_foldl_validateJob (jobConfig : LegacyGenerator.JobConfig.t)
    (jobs : list Legacy.Job.t) (err : list string) :
  foldl (LegacyGenerator.validateJob jobConfig) err jobs = []
  ↔ err = [] ∧ Forall (legacyValidJob jobConfig) jobs.
Proof.
  revert err. induction jobs as [|job jobs IH]; intros err; cbn [foldl].
  - split; [by intros ->|by intros [-> _]].
  - destruct (legacy_validateJob_valid jobConfig err job)
      as (complaints & -> & Hvalid).
    rewrite IH, app_nil, Hvalid, Forall_cons. tauto.
Qed.

Lemma legacy_validationErrors_nil (jobConfig : LegacyGenerator.JobConfig.t) :
  LegacyGenerator.validationErrors jobConfig = []
  ↔ legacyValidCatalog jobConfig.
Proof.
  unfold LegacyGenerator.validationErrors, legacyValidCatalog. cbn zeta.
  rewrite legacy_foldl_validateJob.
  destruct (_ !! DefaultResource) eqn:Hdefault.
  - split; [by intros [_ ?]|by intros [_ ?]].
  - split; [by intros [? _]|]. by intros [[? ?] _].
Qed.

(** X17. The validator of the first generator returns exactly for the
    catalogs that declare the default resources and whose jobs all
    refer to declared resources, list modifiers among hidden, optional
    and skipped, list requirements among kind, root and gcp, have the
    type postsubmit, presubmit or none, and write each extra repository
    with one slash.  For any other catalog it exits, with at least one
    error. *)
Theorem legacy_ValidateJobConfig_returns
    (jobConfig : LegacyGenerator.JobConfig.t) :
  (LegacyGenerator.ValidateJobConfig jobConfig = Returned ()
   ↔ legacyValidCatalog jobConfig)
  ∧ (¬ legacyValidCatalog jobConfig →
     ∃ e errs,
       LegacyGenerator.ValidateJobConfig jobConfig
       = Exited "validation failed" (e :: errs)).
Proof.
  pose proof (legacy_validationErrors_nil jobConfig) as Herrors.
  unfold LegacyGenerator.ValidateJobConfig. split.
  - rewrite <- Herrors.
    destruct (LegacyGenerator.validationErrors jobConfig); by split.
  - intros Hinvalid. rewrite <- Herrors in Hinvalid.
    destruct (LegacyGenerator.validationErrors jobConfig) as [|e errs];
      [done|]. by exists e, errs.
Qed.

(** ** The first generator: requirements *)

Lemma mjoin_replicate_S {A} (n : nat) (l : list A) :
  mjoin (replicate (S n) l) = (l ++ mjoin (replicate n l))%list.
Proof. done. Qed.

Lemma legacy_applyRequirement_gcp (job : LegacyGenerator.JobBase.t) :
  LegacyGenerator.applyRequirement job "gcp"
  = Some (LegacyGenerator.JobBase.withLabels
            (LegacyGenerator.JobBase.withMaxConcurrency job 5)
            (<["preset-service-account" := "true"]>
               (LegacyGenerator.JobBase.Labels job))).
Proof. done. Qed.

Lemma legacy_applyRequirement_root (job : LegacyGenerator.JobBase.t)
    (spec : LegacyGenerator.PodSpec.t)
    (c : LegacyGenerator.MountedContainer.t)
    (rest : list LegacyGenerator.MountedContainer.t) :
  LegacyGenerator.JobBase.Spec job = Some spec →
  LegacyGenerator.PodSpec.Containers spec = c :: rest →
  LegacyGenerator.applyRequirement job "root"
  = Some (LegacyGenerator.JobBase.withSpec job
            (Some (LegacyGenerator.PodSpec.mk
                     (LegacyGenerator.PodSpec.NodeSelector spec)
                     (LegacyGenerator.privileged c :: rest)
                     (LegacyGenerator.PodSpec.Volumes spec)))).
Proof.
  intros Hspec Hc. unfold LegacyGenerator.applyRequirement.
  rewrite (bool_decide_eq_false_2 ("root" = LegacyGenerator.RequirementGCP))
    by done.
  rewrite (bool_decide_eq_true_2 ("root" = LegacyGenerator.RequirementRoot))
    by done.
  unfold LegacyGenerator.onFirstContainer. rewrite Hspec. cbn. by rewrite Hc.
Qed.

Lemma legacy_applyRequirement_kind (job : LegacyGenerator.JobBase.t)
    (spec : LegacyGenerator.PodSpec.t)
    (c : LegacyGenerator.MountedContainer.t)
    (rest : list LegacyGenerator.MountedContainer.t) :
  LegacyGenerator.JobBase.Spec job = Some spec →
  LegacyGenerator.PodSpec.Containers spec = c :: rest →
  LegacyGenerator.applyRequirement job "kind"
  = Some (LegacyGenerator.JobBase.withSpec job
            (Some (LegacyGenerator.PodSpec.mk
                     (LegacyGenerator.PodSpec.NodeSelector spec)
                     (LegacyGenerator.mounting
                        LegacyGenerator.kindVolumeMounts c :: rest)
                     (LegacyGenerator.PodSpec.Volumes spec
                      ++ LegacyGenerator.kindVolumes)))).
Proof.
  intros Hspec Hc. unfold LegacyGenerator.applyRequirement.
  rewrite (bool_decide_eq_false_2 ("kind" = LegacyGenerator.RequirementGCP))
    by done.
  rewrite (bool_decide_eq_false_2 ("kind" = LegacyGenerator.RequirementRoot))
    by done.
  rewrite (bool_decide_eq_true_2 ("kind" = LegacyGenerator.RequirementKind))
    by done.
  unfold LegacyGenerator.onFirstContainer. rewrite Hspec. cbn. by rewrite Hc.
Qed.

Lemma legacy_applyRequirement_other (job : LegacyGenerator.JobBase.t)
    (req : string) :
  req ≠ "gcp" → req ≠ "root" → req ≠ "kind" →
  LegacyGenerator.applyRequirement job req = Some job.
Proof.
  intros Hgcp Hroot Hkind. unfold LegacyGenerator.applyRequirement.
  by rewrite !bool_decide_eq_false_2.
Qed.

Lemma legacy_applyRequirements_effect (requirements : list string)
    (job : LegacyGenerator.JobBase.t) (spec : LegacyGenerator.PodSpec.t)
    (c : LegacyGenerator.MountedContainer.t)
    (rest : list LegacyGenerator.MountedContainer.t) :
  LegacyGenerator.JobBase.Spec job = Some spec →
  LegacyGenerator.PodSpec.Containers spec = c :: rest →
  let kinds := timesListed LegacyGenerator.RequirementKind requirements in
  let gcp := bool_decide (LegacyGenerator.RequirementGCP ∈ requirements) in
  let root := bool_decide (LegacyGenerator.RequirementRoot ∈ requirements) in
  ∃ jb spec' c',
    LegacyGenerator.applyRequirements job requirements = Some jb
    ∧ LegacyGenerator.JobBase.Spec jb = Some spec'
    ∧ LegacyGenerator.PodSpec.Containers spec' = c' :: rest
    ∧ LegacyGenerator.JobBase.MaxConcurrency jb
      = (if gcp then 5%Z else LegacyGenerator.JobBase.MaxConcurrency job)
    ∧ LegacyGenerator.JobBase.Labels jb
      = (if gcp
         then <["preset-service-account" := "true"]>
                (LegacyGenerator.JobBase.Labels job)
         else LegacyGenerator.JobBase.Labels job)
    ∧ LegacyGenerator.PodSpec.Volumes spec'
      = (LegacyGenerator.PodSpec.Volumes spec
         ++ mjoin (replicate kinds LegacyGenerator.kindVolumes))%list
    ∧ LegacyGenerator.MountedContainer.VolumeMounts c'
      = (LegacyGenerator.MountedContainer.VolumeMounts c
         ++ mjoin (replicate kinds LegacyGenerator.kindVolumeMounts))%list
    ∧ LegacyGenerator.MountedContainer.Container c'
      = (if root
         then LegacyGenerator.MountedContainer.Container
                (LegacyGenerator.privileged c)
         else LegacyGenerator.MountedContainer.Container c)
    ∧ LegacyGenerator.PodSpec.NodeSelector spec'
      = LegacyGenerator.PodSpec.NodeSelector spec
    ∧ LegacyGenerator.JobBase.Name jb = LegacyGenerator.JobBase.Name job
    ∧ LegacyGenerator.JobBase.Annotations jb
      = LegacyGenerator.JobBase.Annotations job
    ∧ LegacyGenerator.JobBase.UtilityConfig jb
      = LegacyGenerator.JobBase.UtilityConfig job.
Proof.
  revert job spec c.
  induction requirements as [|req reqs IH]; intros job spec c Hspec Hc.
  { cbn zeta. exists job, spec, c. cbn.
    rewrite !bool_decide_eq_false_2 by apply not_elem_of_nil.
    by rewrite !app_nil_r. }
  cbn zeta. unfold LegacyGenerator.applyRequirements.
  cbn [LegacyGenerator.forEachOrPanic].
  unfold timesListed. rewrite filter_cons, !bool_decide_elem_of_cons.
  unfold LegacyGenerator.RequirementGCP, LegacyGenerator.RequirementRoot,
    LegacyGenerator.RequirementKind in *.
  destruct (decide (req = "gcp")) as [->|Hgcp];
    [|destruct (decide (req = "root")) as [->|Hroot];
      [|destruct (decide (req = "kind")) as [->|Hkind]]].
  - rewrite legacy_applyRequirement_gcp.
    cbn [mbind option_bind].
    match goal with
    | |- context [LegacyGenerator.forEachOrPanic _ ?stepped reqs] =>
        destruct (IH stepped spec c Hspec Hc)
          as (jb & spec' & c' & Hrun & Hs & Hcs & Hmax & Hlabels & Hvol
              & Hmounts & Hcont & Hns & Hname & Hann & Hutil)
    end.
    exists jb, spec', c'. unfold LegacyGenerator.applyRequirements in Hrun.
    rewrite Hrun, decide_False by done.
    cbn [LegacyGenerator.JobBase.MaxConcurrency LegacyGenerator.JobBase.Labels
           LegacyGenerator.JobBase.withLabels
           LegacyGenerator.JobBase.withMaxConcurrency] in Hmax, Hlabels.
    rewrite (bool_decide_eq_true_2 ("gcp" = "gcp")) by done.
    rewrite (bool_decide_eq_false_2 ("gcp" = "root")) by done. cbn [orb].
    repeat split; try done.
    + rewrite Hmax. by destruct (bool_decide _).
    + rewrite Hlabels. destruct (bool_decide _); [|done].
      by rewrite insert_insert_eq.
  - rewrite (legacy_applyRequirement_root job spec c rest) by done.
    cbn [mbind option_bind].
    match goal with
    | |- context [LegacyGenerator.forEachOrPanic _ ?stepped reqs] =>
        destruct (IH stepped _ (LegacyGenerator.privileged c) eq_refl eq_refl)
          as (jb & spec' & c' & Hrun & Hs & Hcs & Hmax & Hlabels & Hvol
              & Hmounts & Hcont & Hns & Hname & Hann & Hutil)
    end.
    exists jb, spec', c'. unfold LegacyGenerator.applyRequirements in Hrun.
    rewrite Hrun, decide_False by done.
    rewrite (bool_decide_eq_false_2 ("root" = "gcp")) by done.
    rewrite (bool_decide_eq_true_2 ("root" = "root")) by done. cbn [orb].
    repeat split; try done.
    rewrite Hcont. case_bool_decide; reflexivity.
  - rewrite (legacy_applyRequirement_kind job spec c rest) by done.
    cbn [mbind option_bind].
    match goal with
    | |- context [LegacyGenerator.forEachOrPanic _ ?stepped reqs] =>
        destruct (IH stepped _
                    (LegacyGenerator.mounting
                       LegacyGenerator.kindVolumeMounts c)
                    eq_refl eq_refl)
          as (jb & spec' & c' & Hrun & Hs & Hcs & Hmax & Hlabels & Hvol
              & Hmounts & Hcont & Hns & Hname & Hann & Hutil)
    end.
    exists jb, spec', c'. unfold LegacyGenerator.applyRequirements in Hrun.
    rewrite Hrun.
    rewrite (bool_decide_eq_false_2 ("kind" = "gcp")) by done.
    rewrite (bool_decide_eq_false_2 ("kind" = "root")) by done. cbn [orb].
    cbn [length]. rewrite !mjoin_replicate_S, !app_assoc.
    by repeat split.
  - rewrite legacy_applyRequirement_other by done.
    cbn [mbind option_bind].
    destruct (IH job spec c Hspec Hc)
      as (jb & spec' & c' & Hrun & Hrest).
    exists jb, spec', c'. unfold LegacyGenerator.applyRequirements in Hrun.
    rewrite Hrun.
    rewrite (bool_decide_eq_false_2 (req = "gcp")) by done.
    rewrite (bool_decide_eq_false_2 (req = "root")) by done. cbn [orb].
    by split.
Qed.

Lemma legacy_applyRequirements_panics (requirements : list string)
    (job : LegacyGenerator.JobBase.t) :
  LegacyGenerator.JobBase.Spec job = None →
  LegacyGenerator.RequirementRoot ∈ requirements
  ∨ LegacyGenerator.RequirementKind ∈ requirements →
  LegacyGenerator.applyRequirements job requirements = None.
Proof.
  unfold LegacyGenerator.RequirementRoot, LegacyGenerator.RequirementKind.
  revert job. induction requirements as [|req reqs IH]; intros job Hspec Hin.
  { destruct Hin as [Hin|Hin]; by apply elem_of_nil in Hin. }
  unfold LegacyGenerator.applyRequirements.
  cbn [LegacyGenerator.forEachOrPanic].
  destruct (decide (req = "gcp")) as [->|Hgcp];
    [|destruct (decide (req = "root")) as [->|Hroot];
      [|destruct (decide (req = "kind")) as [->|Hkind]]].
  - rewrite legacy_applyRequirement_gcp. cbn [mbind option_bind].
    apply IH; [done|].
    destruct Hin as [Hin|Hin]; apply elem_of_cons in Hin as [?|?];
      try done; [by left|by right].
  - unfold LegacyGenerator.applyRequirement, LegacyGenerator.onFirstContainer.
    rewrite Hspec. done.
  - unfold LegacyGenerator.applyRequirement. rewrite Hspec. done.
  - rewrite legacy_applyRequirement_other by done. cbn [mbind option_bind].
    apply IH; [done|].
    destruct Hin as [Hin|Hin]; apply elem_of_cons in Hin as [?|?];
      try done; [by left|by right].
Qed.

(** X18. The requirements of the first generator act on a job one
    after the other.  gcp, however often it is listed, sets the maximal
    concurrency to 5 and the label preset-service-account; root makes
    the first container privileged; kind adds its two volumes to the
    pod and their two mounts to the first container each time it is
    listed, so a job that lists kind twice gets each volume twice.
    Nothing else of the job changes.  A job without a pod panics on
    root and on kind. *)
Theorem legacy_applyRequirements_effects (requirements : list string)
    (job : LegacyGenerator.JobBase.t) :
  let kinds := timesListed LegacyGenerator.RequirementKind requirements in
  let gcp := bool_decide (LegacyGenerator.RequirementGCP ∈ requirements) in
  let root := bool_decide (LegacyGenerator.RequirementRoot ∈ requirements) in
  (∀ spec c rest,
     LegacyGenerator.JobBase.Spec job = Some spec →
     LegacyGenerator.PodSpec.Containers spec = c :: rest →
     ∃ jb spec' c',
       LegacyGenerator.applyRequirements job requirements = Some jb
       ∧ LegacyGenerator.JobBase.Spec jb = Some spec'
       ∧ LegacyGenerator.PodSpec.Containers spec' = c' :: rest
       ∧ LegacyGenerator.JobBase.MaxConcurrency jb
         = (if gcp then 5%Z else LegacyGenerator.JobBase.MaxConcurrency job)
       ∧ LegacyGenerator.JobBase.Labels jb
         = (if gcp
            then <["preset-service-account" := "true"]>
                   (LegacyGenerator.JobBase.Labels job)
            else LegacyGenerator.JobBase.Labels job)
       ∧ LegacyGenerator.PodSpec.Volumes spec'
         = (LegacyGenerator.PodSpec.Volumes spec
            ++ mjoin (replicate kinds LegacyGenerator.kindVolumes))%list
       ∧ LegacyGenerator.MountedContainer.VolumeMounts c'
         = (LegacyGenerator.MountedContainer.VolumeMounts c
            ++ mjoin (replicate kinds LegacyGenerator.kindVolumeMounts))%list
       ∧ LegacyGenerator.MountedContainer.Container c'
         = (if root
            then LegacyGenerator.MountedContainer.Container
                   (LegacyGenerator.privileged c)
            else LegacyGenerator.MountedContainer.Container c)
       ∧ LegacyGenerator.PodSpec.NodeSelector spec'
         = LegacyGenerator.PodSpec.NodeSelector spec
       ∧ LegacyGenerator.JobBase.Name jb = LegacyGenerator.JobBase.Name job
       ∧ LegacyGenerator.JobBase.Annotations jb
         = LegacyGenerator.JobBase.Annotations job
       ∧ LegacyGenerator.JobBase.UtilityConfig jb
         = LegacyGenerator.JobBase.UtilityConfig job)
  ∧ (LegacyGenerator.JobBase.Spec job = None →
     LegacyGenerator.RequirementRoot ∈ requirements
     ∨ LegacyGenerator.RequirementKind ∈ requirements →
     LegacyGenerator.applyRequirements job requirements = None).
Proof.
  intros kinds gcp root. split.
  - intros spec c rest. apply legacy_applyRequirements_effect.
  - apply legacy_applyRequirements_panics.
Qed.

(** ** The first generator: conversion *)

Lemma legacy_createExtraRefs_returns (branch : string) (repos : list string)
    (refs : list Refs.t) :
  Forall (λ repo, Rules.slashes repo = 1) repos →
  ∃ refs',
    LegacyGenerator.forEachOrPanic (LegacyGenerator.createExtraRef branch)
      refs repos
    = Some refs'.
Proof.
  intros Hvalid. revert refs.
  induction Hvalid as [|repo repos Hrepo _ IH]; intros refs.
  { by eexists. }
  cbn [LegacyGenerator.forEachOrPanic].
  assert (∃ refs1,
            LegacyGenerator.createExtraRef branch refs repo = Some refs1)
    as [refs1 ->].
  { unfold LegacyGenerator.createExtraRef. cbn zeta.
    pose proof (length_splitFrom_slash repo "") as Hlen.
    fold (strings.Split repo "/") in Hlen. rewrite Hrepo in Hlen.
    destruct (strings.Split repo "/") as [|org [|name [|? ?]]]; try done.
    by eexists. }
  cbn [mbind option_bind]. apply IH.
Qed.

Lemma legacy_createJobBase_returns (job : Legacy.Job.t)
    (name repo branch : string)
    (resources : gmap string ResourceRequirements.t) :
  Forall (λ repo, Rules.slashes repo = 1) (Legacy.Job.Repos job) →
  ∃ jb spec c,
    LegacyGenerator.createJobBase job name repo branch resources = Some jb
    ∧ LegacyGenerator.JobBase.Name jb = name
    ∧ LegacyGenerator.JobBase.Spec jb = Some spec
    ∧ LegacyGenerator.PodSpec.Containers spec = [c].
Proof.
  intros Hrepos. unfold LegacyGenerator.createJobBase. cbn zeta.
  destruct (legacy_createExtraRefs_returns branch _ [] Hrepos) as [refs Hrefs].
  unfold LegacyGenerator.createExtraRefs. rewrite Hrefs.
  cbn [mbind option_bind].
  destruct (Legacy.Job.Timeout job); by do 3 eexists.
Qed.

Lemma legacy_applyModifiersPresubmit_JobBase
    (presubmit : LegacyGenerator.Presubmit.t) (jobModifiers : list string) :
  LegacyGenerator.Presubmit.JobBase
    (LegacyGenerator.applyModifiersPresubmit presubmit jobModifiers)
  = LegacyGenerator.Presubmit.JobBase presubmit.
Proof.
  unfold LegacyGenerator.applyModifiersPresubmit. revert presubmit.
  induction jobModifiers as [|m ms IH]; intros presubmit; [done|].
  cbn [foldl]. rewrite IH. by repeat case_bool_decide.
Qed.

Lemma legacy_applyModifiersPostsubmit_JobBase
    (postsubmit : LegacyGenerator.Postsubmit.t) (jobModifiers : list string) :
  LegacyGenerator.Postsubmit.JobBase
    (LegacyGenerator.applyModifiersPostsubmit postsubmit jobModifiers)
  = LegacyGenerator.Postsubmit.JobBase postsubmit.
Proof.
  unfold LegacyGenerator.applyModifiersPostsubmit. revert postsubmit.
  induction jobModifiers as [|m ms IH]; intros postsubmit; [done|].
  cbn [foldl]. rewrite IH. by repeat case_bool_decide.
Qed.

(** What the blocks make of a job whose extra repositories are
    well-formed. *)
Lemma legacy_convertPresubmit_returns
    (jobConfig : LegacyGenerator.JobConfig.t) (branch : string)
    (job : Legacy.Job.t) :
  Forall (λ repo, Rules.slashes repo = 1) (Legacy.Job.Repos job) →
  ∃ presubmit,
    LegacyGenerator.convertPresubmit jobConfig branch job = Some presubmit
    ∧ LegacyGenerator.JobBase.Name
        (LegacyGenerator.Presubmit.JobBase presubmit)
      = Legacy.Job.Name job +:+ "-" +:+ branch
    ∧ LegacyGenerator.JobBase.Annotations
        (LegacyGenerator.Presubmit.JobBase presubmit)
      = {[TestGridDashboard :=
            LegacyGenerator.testgridJobPrefixOf jobConfig
            +:+ "-presubmits-" +:+ branch]}.
Proof.
  intros Hrepos. unfold LegacyGenerator.convertPresubmit. cbn zeta.
  destruct (legacy_createJobBase_returns job
              (Legacy.Job.Name job +:+ "-" +:+ branch)
              (LegacyGenerator.JobConfig.Repo jobConfig) branch
              (LegacyGenerator.JobConfig.Resources jobConfig) Hrepos)
    as (jb & spec & c & Hbase & Hname & Hspec & Hc).
  pose proof Hbase as Hann. unfold LegacyGenerator.createJobBase in Hann.
  cbn zeta in Hann.
  destruct (LegacyGenerator.createExtraRefs _ _) as [refs|]; [|done].
  cbn [mbind option_bind] in Hann.
  assert (LegacyGenerator.JobBase.Annotations jb = ∅) as Hempty.
  { destruct (Legacy.Job.Timeout job); by injection Hann as <-. }
  rewrite Hbase. cbn [mbind option_bind].
  rewrite legacy_applyModifiersPresubmit_JobBase.
  cbn [LegacyGenerator.Presubmit.withJobBase
         LegacyGenerator.Presubmit.JobBase].
  match goal with
  | |- context [LegacyGenerator.applyRequirements ?base ?reqs] =>
      destruct (legacy_applyRequirements_effect reqs base spec c []
                  Hspec Hc)
        as (jb' & _ & _ & -> & _ & _ & _ & _ & _ & _ & _ & _ & Hname' & Hann'
            & _)
  end.
  cbn [mbind option_bind]. eexists. split; [done|].
  cbn [LegacyGenerator.Presubmit.withJobBase
         LegacyGenerator.Presubmit.JobBase].
  rewrite Hname', Hann'.
  cbn [LegacyGenerator.JobBase.withAnnotations LegacyGenerator.JobBase.Name
         LegacyGenerator.JobBase.Annotations].
  by rewrite Hempty, insert_empty.
Qed.

Lemma legacy_convertPostsubmit_returns
    (jobConfig : LegacyGenerator.JobConfig.t) (branch : string)
    (job : Legacy.Job.t) :
  Forall (λ repo, Rules.slashes repo = 1) (Legacy.Job.Repos job) →
  ∃ postsubmit,
    LegacyGenerator.convertPostsubmit jobConfig branch job = Some postsubmit
    ∧ LegacyGenerator.JobBase.Name
        (LegacyGenerator.Postsubmit.JobBase postsubmit)
      = legacyPostsubmitName job +:+ "-" +:+ branch
    ∧ LegacyGenerator.JobBase.Annotations
        (LegacyGenerator.Postsubmit.JobBase postsubmit)
      = <[TestGridNumFailures := "1"]>
          (<[TestGridAlertEmail := "istio-oncall@googlegroups.com"]>
             {[TestGridDashboard :=
                 LegacyGenerator.testgridJobPrefixOf jobConfig
                 +:+ "-postsubmits-" +:+ branch]}).
Proof.
  intros Hrepos. unfold LegacyGenerator.convertPostsubmit. cbn zeta.
  assert ((if bool_decide (Legacy.Job.PostsubmitName job = "")
           then Legacy.Job.Name job else Legacy.Job.PostsubmitName job)
          = legacyPostsubmitName job) as ->.
  { unfold legacyPostsubmitName. by case_bool_decide; case_decide. }
  destruct (legacy_createJobBase_returns job
              (legacyPostsubmitName job +:+ "-" +:+ branch)
              (LegacyGenerator.JobConfig.Repo jobConfig) branch
              (LegacyGenerator.JobConfig.Resources jobConfig) Hrepos)
    as (jb & spec & c & Hbase & Hname & Hspec & Hc).
  pose proof Hbase as Hann. unfold LegacyGenerator.createJobBase in Hann.
  cbn zeta in Hann.
  destruct (LegacyGenerator.createExtraRefs _ _) as [refs|]; [|done].
  cbn [mbind option_bind] in Hann.
  assert (LegacyGenerator.JobBase.Annotations jb = ∅) as Hempty.
  { destruct (Legacy.Job.Timeout job); by injection Hann as <-. }
  rewrite Hbase. cbn [mbind option_bind].
  rewrite legacy_applyModifiersPostsubmit_JobBase.
  cbn [LegacyGenerator.Postsubmit.withJobBase
         LegacyGenerator.Postsubmit.JobBase].
  match goal with
  | |- context [LegacyGenerator.applyRequirements ?base ?reqs] =>
      destruct (legacy_applyRequirements_effect reqs base spec c []
                  Hspec Hc)
        as (jb' & _ & _ & -> & _ & _ & _ & _ & _ & _ & _ & _ & Hname' & Hann'
            & _)
  end.
  cbn [mbind option_bind]. eexists. split; [done|].
  cbn [LegacyGenerator.Postsubmit.withJobBase
         LegacyGenerator.Postsubmit.JobBase].
  rewrite Hname', Hann'.
  cbn [LegacyGenerator.JobBase.withAnnotations LegacyGenerator.JobBase.Name
         LegacyGenerator.JobBase.Annotations].
  by rewrite Hempty, insert_empty.
Qed.

(** What one job adds, its extra repositories being well-formed. *)
Lemma legacy_convertJob_returns (jobConfig : LegacyGenerator.JobConfig.t)
    (branch : string) (state : LegacyGenerator.Converted.t)
    (job : Legacy.Job.t) :
  Forall (λ repo, Rules.slashes repo = 1) (Legacy.Job.Repos job) →
  ∃ presubmits postsubmits,
    LegacyGenerator.convertJob jobConfig branch state job
    = Some
        (LegacyGenerator.Converted.mk
           (LegacyGenerator.Converted.presubmits state ++ presubmits)
           (LegacyGenerator.Converted.postsubmits state ++ postsubmits)
           (LegacyGenerator.ProwJobConfig.mk
              (<[legacyRepositoryKey jobConfig :=
                   (LegacyGenerator.Converted.presubmits state
                    ++ presubmits)%list]>
                 (LegacyGenerator.ProwJobConfig.Presubmits
                    (LegacyGenerator.Converted.output state)))
              (<[legacyRepositoryKey jobConfig :=
                   (LegacyGenerator.Converted.postsubmits state
                    ++ postsubmits)%list]>
                 (LegacyGenerator.ProwJobConfig.Postsubmits
                    (LegacyGenerator.Converted.output state)))))
    ∧ legacyPresubmitNames presubmits
      = (if decide (legacyPresubmitJob job)
         then [Legacy.Job.Name job +:+ "-" +:+ branch] else [])
    ∧ legacyPostsubmitNames postsubmits
      = (if decide (legacyPostsubmitJob job)
         then [legacyPostsubmitName job +:+ "-" +:+ branch] else [])
    ∧ Forall
        (λ presubmit,
           LegacyGenerator.JobBase.Annotations
             (LegacyGenerator.Presubmit.JobBase presubmit)
           = legacyPresubmitAnnotations jobConfig branch)
        presubmits
    ∧ Forall
        (λ postsubmit,
           LegacyGenerator.JobBase.Annotations
             (LegacyGenerator.Postsubmit.JobBase postsubmit)
           = legacyPostsubmitAnnotations jobConfig branch)
        postsubmits.
Proof.
  intros Hrepos. unfold LegacyGenerator.convertJob. cbn zeta.
  destruct (legacy_convertPresubmit_returns jobConfig branch
              (LegacyGenerator.withEntrypoint job) Hrepos)
    as (presubmit & -> & Hprename & Hpreann).
  destruct (legacy_convertPostsubmit_returns jobConfig branch
              (LegacyGenerator.withEntrypoint job) Hrepos)
    as (postsubmit & -> & Hpostname & Hpostann).
  cbn [LegacyGenerator.withEntrypoint Legacy.Job.Type_].
  exists (if decide (legacyPresubmitJob job) then [presubmit] else []),
    (if decide (legacyPostsubmitJob job) then [postsubmit] else []).
  unfold legacyPresubmitJob, legacyPostsubmitJob, legacyRepositoryKey.
  split; [|split; [|split; [|split]]].
  - repeat case_bool_decide; repeat case_decide; cbn [orb mbind option_bind];
      try tauto; by rewrite ?app_nil_r.
  - case_decide; [|done]. cbn. by rewrite Hprename.
  - case_decide; [|done]. cbn. rewrite Hpostname.
    by unfold legacyPostsubmitName.
  - case_decide; by repeat constructor.
  - case_decide; by repeat constructor.
Qed.

Lemma legacy_forEach_convertJob (jobConfig : LegacyGenerator.JobConfig.t)
    (branch : string) (jobs : list Legacy.Job.t)
    (state : LegacyGenerator.Converted.t) :
  Forall
    (λ job, Forall (λ repo, Rules.slashes repo = 1) (Legacy.Job.Repos job))
    jobs →
  ∃ presubmits postsubmits output,
    LegacyGenerator.forEachOrPanic
      (LegacyGenerator.convertJob jobConfig branch) state jobs
    = Some
        (LegacyGenerator.Converted.mk
           (LegacyGenerator.Converted.presubmits state ++ presubmits)
           (LegacyGenerator.Converted.postsubmits state ++ postsubmits)
           output)
    ∧ legacyPresubmitNames presubmits
      = (λ job, Legacy.Job.Name job +:+ "-" +:+ branch)
        <$> filter legacyPresubmitJob jobs
    ∧ legacyPostsubmitNames postsubmits
      = (λ job, legacyPostsubmitName job +:+ "-" +:+ branch)
        <$> filter legacyPostsubmitJob jobs
    ∧ Forall
        (λ presubmit,
           LegacyGenerator.JobBase.Annotations
             (LegacyGenerator.Presubmit.JobBase presubmit)
           = legacyPresubmitAnnotations jobConfig branch)
        presubmits
    ∧ Forall
        (λ postsubmit,
           LegacyGenerator.JobBase.Annotations
             (LegacyGenerator.Postsubmit.JobBase postsubmit)
           = legacyPostsubmitAnnotations jobConfig branch)
        postsubmits
    ∧ (jobs = [] → output = LegacyGenerator.Converted.output state)
    ∧ (jobs ≠ [] →
       LegacyGenerator.ProwJobConfig.Presubmits output
         !! legacyRepositoryKey jobConfig
       = Some (LegacyGenerator.Converted.presubmits state ++ presubmits)%list
       ∧ LegacyGenerator.ProwJobConfig.Postsubmits output
           !! legacyRepositoryKey jobConfig
         = Some (LegacyGenerator.Converted.postsubmits state
                 ++ postsubmits)%list).
Proof.
  intros Hjobs. revert state.
  induction Hjobs as [|job jobs Hjob _ IH]; intros state.
  { exists [], [], (LegacyGenerator.Converted.output state).
    cbn [LegacyGenerator.forEachOrPanic]. rewrite !app_nil_r.
    destruct state. by repeat split. }
  cbn [LegacyGenerator.forEachOrPanic].
  destruct (legacy_convertJob_returns jobConfig branch state job Hjob)
    as (pre1 & post1 & -> & Hn1 & Hm1 & Ha1 & Hb1).
  cbn [mbind option_bind].
  match goal with
  | |- context [LegacyGenerator.forEachOrPanic _ ?state1 jobs] =>
      destruct (IH state1)
        as (pre2 & post2 & output & -> & Hn2 & Hm2 & Ha2 & Hb2 & Hnil & Hcons)
  end.
  cbn [LegacyGenerator.Converted.presubmits
         LegacyGenerator.Converted.postsubmits
         LegacyGenerator.Converted.output] in *.
  exists (pre1 ++ pre2)%list, (post1 ++ post2)%list, output.
  rewrite !app_assoc. split; [done|].
  unfold legacyPresubmitNames, legacyPostsubmitNames in *.
  rewrite !fmap_app, Hn1, Hn2, Hm1, Hm2, !filter_cons.
  split; [by destruct (decide (legacyPresubmitJob job))|].
  split; [by destruct (decide (legacyPostsubmitJob job))|].
  split; [by apply Forall_app|]. split; [by apply Forall_app|].
  split; [done|]. intros _.
  destruct jobs as [|job' jobs'].
  - rewrite Hnil by done.
    cbn [LegacyGenerator.ProwJobConfig.Presubmits
           LegacyGenerator.ProwJobConfig.Postsubmits].
    rewrite !lookup_insert_eq.
    cbn [filter list_filter fmap list_fmap] in Hn2, Hm2.
    apply fmap_nil_inv in Hn2, Hm2. subst pre2 post2.
    by rewrite !app_nil_r.
  - by destruct Hcons as [Hp Hq].
Qed.

(** X19. A catalog the validator of the first generator returns for is
    converted without a panic.  The generated configuration holds,
    under the key org/repo, a presubmit named job-branch for each job of
    type presubmit or of no type, and a postsubmit for each job of type
    postsubmit or of no type, named after the postsubmit name the job
    declares, or after the job; the jobs come in the order of the
    catalog.  Each presubmit carries the dashboard annotation of the
    repository's presubmits and nothing else, each postsubmit that of
    its postsubmits with the alert address and the alert threshold.  A
    catalog without jobs gives an empty configuration; one with jobs
    binds the key in both maps, to an empty list if need be. *)
Theorem legacy_ConvertJobConfig_of_valid
    (jobConfig : LegacyGenerator.JobConfig.t) (branch : string) :
  LegacyGenerator.ValidateJobConfig jobConfig = Returned () →
  ∃ output presubmits postsubmits,
    LegacyGenerator.ConvertJobConfig jobConfig branch = Some output
    ∧ legacyPresubmitNames presubmits
      = (λ job, Legacy.Job.Name job +:+ "-" +:+ branch)
        <$> filter legacyPresubmitJob
              (LegacyGenerator.JobConfig.Jobs jobConfig)
    ∧ legacyPostsubmitNames postsubmits
      = (λ job, legacyPostsubmitName job +:+ "-" +:+ branch)
        <$> filter legacyPostsubmitJob
              (LegacyGenerator.JobConfig.Jobs jobConfig)
    ∧ Forall
        (λ presubmit,
           LegacyGenerator.JobBase.Annotations
             (LegacyGenerator.Presubmit.JobBase presubmit)
           = legacyPresubmitAnnotations jobConfig branch)
        presubmits
    ∧ Forall
        (λ postsubmit,
           LegacyGenerator.JobBase.Annotations
             (LegacyGenerator.Postsubmit.JobBase postsubmit)
           = legacyPostsubmitAnnotations jobConfig branch)
        postsubmits
    ∧ (LegacyGenerator.JobConfig.Jobs jobConfig = [] →
       output = LegacyGenerator.ProwJobConfig.mk ∅ ∅)
    ∧ (LegacyGenerator.JobConfig.Jobs jobConfig ≠ [] →
       LegacyGenerator.ProwJobConfig.Presubmits output
         !! legacyRepositoryKey jobConfig = Some presubmits
       ∧ LegacyGenerator.ProwJobConfig.Postsubmits output
           !! legacyRepositoryKey jobConfig = Some postsubmits).
Proof.
  intros Hvalid.
  assert (legacyValidCatalog jobConfig) as [_ Hjobs].
  { apply legacy_validationErrors_nil.
    unfold LegacyGenerator.ValidateJobConfig in Hvalid.
    by destruct (LegacyGenerator.validationErrors jobConfig). }
  assert (Forall
            (λ job,
               Forall (λ repo, Rules.slashes repo = 1) (Legacy.Job.Repos job))
            (LegacyGenerator.JobConfig.Jobs jobConfig)) as Hrepos.
  { eapply Forall_impl; [exact Hjobs|]. by intros job (_ & _ & _ & _ & ?). }
  destruct (legacy_forEach_convertJob jobConfig branch _
              (LegacyGenerator.Converted.mk [] []
                 (LegacyGenerator.ProwJobConfig.mk ∅ ∅)) Hrepos)
    as (presubmits & postsubmits & output & Hrun & Hn & Hm & Ha & Hb & Hnil
        & Hcons).
  exists output, presubmits, postsubmits.
  unfold LegacyGenerator.ConvertJobConfig. rewrite Hrun.
  cbn [mbind option_bind LegacyGenerator.Converted.output
         LegacyGenerator.Converted.presubmits
         LegacyGenerator.Converted.postsubmits app] in *.
  repeat (split; [done|]). done.
Qed.

(** ** joinEnv *)

Lemma ascii_compare_spec (a b : ascii) :
  CompareSpec (a = b) (N_of_ascii a < N_of_ascii b)%N
    (N_of_ascii b < N_of_ascii a)%N (Ascii.compare a b).
Proof.
  unfold Ascii.compare.
  destruct (N.compare_spec (N_of_ascii a) (N_of_ascii b)) as [Heq| |];
    constructor; try done.
  apply (f_equal ascii_of_N) in Heq. by rewrite !ascii_N_embedding in Heq.
Qed.

Lemma string_compare_refl (s : string) : String.compare s s = Eq.
Proof.
  induction s as [|a s IH]; [done|]. cbn [String.compare].
  destruct (ascii_compare_spec a a); try done; lia.
Qed.

Lemma string_leb_trans (s t u : string) :
  String.leb s t = true → String.leb t u = true → String.leb s u = true.
Proof.
  unfold String.leb. revert t u.
  induction s as [|a s IH]; intros [|b t] [|c u]; cbn [String.compare];
    try done.
  destruct (ascii_compare_spec a b) as [->| |]; [| |done].
  - destruct (ascii_compare_spec b c) as [->| |]; [|done..]. apply IH.
  - intros _.
    destruct (ascii_compare_spec b c) as [->| |]; [| |done].
    + intros _. destruct (ascii_compare_spec a c) as [->| |]; try done; lia.
    + intros _. destruct (ascii_compare_spec a c) as [->| |]; try done; lia.
Qed.

Lemma string_leb_ne_ltb (s t : string) :
  String.leb s t = true → s ≠ t → String.ltb s t = true.
Proof.
  unfold String.leb, String.ltb. intros Hle Hne.
  destruct (String.compare s t) eqn:Hcompare; [|done..].
  by apply String.compare_eq_iff in Hcompare.
Qed.

Lemma joinEnv_envMap (entries : list EnvVar.t)
    (envMap : gmap string (string + string)) (name : string) :
  foldl (λ envMap e, <[EnvVar.Name e := envMapValue e]> envMap) envMap entries
    !! name
  = match last (filter (λ e, EnvVar.Name e = name) entries) with
    | Some e => Some (envMapValue e)
    | None => envMap !! name
    end.
Proof.
  revert envMap. induction entries as [|e entries IH]; intros envMap; [done|].
  cbn [foldl]. rewrite IH, filter_cons.
  destruct (decide (EnvVar.Name e = name)) as [<-|Hne].
  - rewrite last_cons, lookup_insert_eq. by destruct (last _).
  - by rewrite lookup_insert_ne.
Qed.

Lemma foldl_foldl_concat {A B} (f : A → B → A) (a : A) (ls : list (list B)) :
  foldl (λ a l, foldl f a l) a ls = foldl f a (concat ls).
Proof.
  revert a. induction ls as [|l ls IH]; intros a; [done|].
  cbn [foldl concat]. by rewrite foldl_app, IH.
Qed.

Lemma joinEnv_res (envMap : gmap string (string + string)) :
  map_fold (λ k v res, (res ++ [envMapEntry k v])%list) [] envMap
  ≡ₚ (λ kv, envMapEntry kv.1 kv.2) <$> map_to_list envMap.
Proof.
  rewrite map_fold_foldr.
  induction (map_to_list envMap) as [|[k v] kvs IH]; [done|].
  cbn [foldr uncurry fmap list_fmap fst snd]. rewrite IH.
  by rewrite Permutation_app_comm.
Qed.

#[local] Instance nameNotAfter_trans : Transitive nameNotAfter.
Proof. intros a b c. apply string_leb_trans. Qed.

#[local] Instance nameNotAfter_total : Total nameNotAfter.
Proof. intros a b. apply String.leb_total. Qed.

Lemma StronglySorted_strict (l : list EnvVar.t) :
  StronglySorted nameNotAfter l →
  NoDup (EnvVar.Name <$> l) →
  StronglySorted
    (λ a b, String.ltb (EnvVar.Name a) (EnvVar.Name b) = true) l.
Proof.
  induction 1 as [|a l Hsorted IH Hall]; [constructor|].
  rewrite fmap_cons, NoDup_cons. intros [Hfresh Hnodup].
  constructor; [by apply IH|].
  apply Forall_forall. intros b Hb.
  apply string_leb_ne_ltb.
  - by eapply Forall_forall in Hall.
  - intros Heq. apply Hfresh. rewrite Heq. by apply list_elem_of_fmap_2.
Qed.

(** X20. joinEnv returns one variable for each name that occurs in the
    lists it is given: the last variable of that name, the lists being
    taken one after the other, so that a later list overrides an
    earlier one.  A variable that has a source for its value is
    returned without a value.  The variables come in the strictly
    increasing order of their names. *)
Theorem joinEnv_last_wins_sorted (envs : list (list EnvVar.t)) :
  (∀ e,
     e ∈ joinEnv envs
     ↔ ∃ declared,
         lastNamed (EnvVar.Name e) envs = Some declared
         ∧ e = joined declared)
  ∧ StronglySorted
      (λ a b, String.ltb (EnvVar.Name a) (EnvVar.Name b) = true)
      (joinEnv envs)
  ∧ NoDup (EnvVar.Name <$> joinEnv envs).
Proof.
  unfold joinEnv. cbn zeta. rewrite foldl_foldl_concat.
  set (envMap :=
         foldl (λ envMap e, <[EnvVar.Name e := envMapValue e]> envMap) ∅
           (concat envs)).
  assert (sortByName
            (map_fold (λ k v res, (res ++ [envMapEntry k v])%list) [] envMap)
          ≡ₚ (λ kv, envMapEntry kv.1 kv.2) <$> map_to_list envMap) as Hperm.
  { unfold sortByName. by rewrite merge_sort_Permutation, joinEnv_res. }
  assert (∀ k v, EnvVar.Name (envMapEntry k v) = k) as Hname
    by (by intros k [v|v]).
  assert (NoDup
            (EnvVar.Name
             <$> sortByName
                   (map_fold (λ k v res, (res ++ [envMapEntry k v])%list) []
                      envMap))) as Hnodup.
  { rewrite Hperm, <- list_fmap_compose.
    replace ((EnvVar.Name ∘ (λ kv, envMapEntry kv.1 kv.2)) <$> map_to_list envMap)
      with ((map_to_list envMap).*1);
      [apply NoDup_fst_map_to_list|].
    clear Hperm.
    induction (map_to_list envMap) as [|[k v] kvs IH]; [done|].
    rewrite !fmap_cons. cbn [compose fst snd]. by rewrite Hname, <- IH. }
  split; [|split; [|done]].
  - intros e. rewrite Hperm, list_elem_of_fmap. unfold lastNamed. split.
    + intros ([k v] & -> & Hkv%elem_of_map_to_list). cbn [fst snd].
      rewrite Hname. subst envMap. rewrite joinEnv_envMap in Hkv.
      destruct (last _) as [declared|] eqn:Hlast; [|done].
      injection Hkv as <-. exists declared. split; [done|].
      assert (declared ∈ filter (λ e, EnvVar.Name e = k) (concat envs))
        as [Hk _]%list_elem_of_filter.
      { apply last_Some in Hlast as [l' ->]. set_solver. }
      unfold joined. by rewrite Hk.
    + intros (declared & Hlast & ->).
      exists (EnvVar.Name declared, envMapValue declared). split; [done|].
      apply elem_of_map_to_list. subst envMap. rewrite joinEnv_envMap.
      assert (EnvVar.Name (joined declared) = EnvVar.Name declared) as Hjoined
        by apply Hname.
      rewrite Hjoined in Hlast.
      by rewrite Hlast.
  - apply StronglySorted_strict; [|done].
    unfold sortByName. apply (StronglySorted_merge_sort _).
Qed.

(** ** Write and CheckConfig *)

Lemma CheckConfig_nil `{Disk} (jobs : JobConfig.t)
    (currentConfigFile header : string) (d : disk) :
  diffOfEqualOnly →
  CheckConfig jobs currentConfigFile header d = None
  ↔ ∃ newConfig,
      marshalJobConfig jobs = inl newConfig
      ∧ readFileOn d currentConfigFile
        = inl ((headerOrDefault header +:+ lineFeed) +:+ newConfig).
Proof.
  intros Hdiff. unfold CheckConfig.
  destruct (readFileOn d currentConfigFile) as [current|err].
  - destruct (marshalJobConfig jobs) as [newConfig|err].
    + cbn zeta. case_bool_decide as Hsame.
      * split; [done|]. intros (? & [= <-] & [= ->]).
        destruct Hsame. by apply Hdiff.
      * split; [intros _|done]. exists newConfig. split; [done|].
        f_equal. symmetry. apply Hdiff. by destruct (decide (cmpDiff
          ((headerOrDefault header +:+ lineFeed) +:+ newConfig) current = "")).
    + split; [done|]. by intros (? & ? & _).
  - split; [done|]. by intros (? & _ & ?).
Qed.

(** X21. CheckConfig returns nil exactly when the file holds the header,
    a line feed and the marshalled configuration, the header being the
    default one when none is given; so it returns nil on the disk that
    a returning call of Write with the same arguments leaves, and calls
    with no header and with the default header end alike. *)
Theorem CheckConfig_accepts_what_Write_wrote `{Disk} (jobs : JobConfig.t)
    (fname header : string) (d : disk) :
  diffOfEqualOnly →
  (CheckConfig jobs fname header d = None
   ↔ ∃ newConfig,
       marshalJobConfig jobs = inl newConfig
       ∧ readFileOn d fname
         = inl ((headerOrDefault header +:+ lineFeed) +:+ newConfig))
  ∧ (keepsWritten →
     ∀ written,
       Write jobs fname header d = Returned written →
       CheckConfig jobs fname header written = None)
  ∧ CheckConfig jobs fname "" d = CheckConfig jobs fname DefaultAutogenHeader d
  ∧ Write jobs fname "" d = Write jobs fname DefaultAutogenHeader d.
Proof.
  intros Hdiff. split; [by apply CheckConfig_nil|]. split; [|done].
  intros Hkeeps written Hwrite. apply CheckConfig_nil; [done|].
  unfold Write in Hwrite.
  destruct (marshalJobConfig jobs) as [bs|err]; [|done].
  exists bs. split; [done|]. cbn zeta in Hwrite.
  destruct (MkdirAll d (filepathDir fname)) as [made|err]; [|done].
  destruct (WriteFile made fname _) as [d'|err] eqn:Hwritten; [|done].
  injection Hwrite as <-. by eapply Hkeeps.
Qed.

Lemma SampleDisk_diffOfEqualOnly : diffOfEqualOnly (H := SampleDisk.os).
Proof.
  intros a b. cbn. unfold SampleDisk.diff. case_bool_decide; [done|].
  split; [|done]. by destruct a.
Qed.

Lemma CheckConfig_accepts_what_Write_wrote_witness :
  diffOfEqualOnly (H := SampleDisk.os)
  ∧ CheckConfig (H := SampleDisk.os) JobConfig.zero "jobs.gen.yaml" ""
      (<["jobs.gen.yaml" := DefaultAutogenHeader +:+ lineFeed]> ∅)
    = None.
Proof.
  split; [exact SampleDisk_diffOfEqualOnly|].
  apply (proj1 (CheckConfig_accepts_what_Write_wrote (H := SampleDisk.os)
                  JobConfig.zero "jobs.gen.yaml" "" 
                  (<["jobs.gen.yaml" := DefaultAutogenHeader +:+ lineFeed]> ∅)
                  SampleDisk_diffOfEqualOnly)).
  exists "". split; reflexivity.
Defined.

(** ** The schedule of a periodic job *)

(** X22. The schedule of a periodic job is the schedule of the preset of
    its last requirement whose preset has one, and the job's own
    schedule when no requirement has such a preset; a requirement that
    names no preset changes nothing. *)
Theorem periodicCron_last_preset (presets : gmap string RequirementPreset.t)
    (cron : string) (requirements : list string) :
  periodicCron presets cron requirements
  = default cron
      (last (filter (λ cronstr, cronstr ≠ "")
               (omap (λ requirement,
                        RequirementPreset.Cron <$> presets !! requirement)
                  requirements))).
Proof.
  unfold periodicCron. revert cron.
  induction requirements as [|requirement requirements IH] using rev_ind;
    intros cron; [done|].
  rewrite foldl_app, omap_app, filter_app, last_app.
  cbn [foldl omap list_omap]. rewrite IH.
  destruct (presets !! requirement) as [preset|] eqn:Hpreset;
    cbn [default fmap option_fmap option_map].
  - rewrite filter_cons, filter_nil.
    unfold id.
    destruct (decide (RequirementPreset.Cron preset ≠ "")) as [Hset|Hset].
    + by rewrite bool_decide_eq_true_2.
    + by rewrite bool_decide_eq_false_2.
  - rewrite filter_nil. cbn [last].
    by rewrite bool_decide_eq_false_2 by (by intros []).
Qed.

(** ** The properties on the sample catalogs *)

(** The file nested.yaml read over the configuration of base.yaml. *)
Lemma ReadBase_merges_common_only_witness :
  ReadFile (Files := SampleFiles.files) "nested.yaml" = inl "nested"
  ∧ unmarshalBaseConfig (Files := SampleFiles.files) "nested"
    = inl SampleFiles.nested
  ∧ ∃ merged,
      ReadBase (H := SampleFiles.files) (Some SampleFiles.base) "nested.yaml"
      = Returned merged
      ∧ BaseConfig.AutogenHeader merged = "# generated"
      ∧ BaseConfig.PathAliases merged = {["org" := "example.com"]}.
Proof.
  split; [reflexivity|]. split; [reflexivity|].
  destruct (proj2 (ReadBase_merges_common_only (H := SampleFiles.files)
                     SampleFiles.base "nested.yaml" "nested"
                     SampleFiles.nested eq_refl eq_refl))
    as (merged & Hmerged & _ & Hheader & Haliases & _).
  exists merged. split; [exact Hmerged|]. split; [exact Hheader|].
  exact Haliases.
Defined.

(** The catalog of jobs.yaml, which declares no branch. *)
Lemma ReadJobsConfig_defaults_to_master_witness :
  ReadFile (Files := SampleFiles.files) "jobs.yaml" = inl "jobs"
  ∧ unmarshalJobsConfig (Files := SampleFiles.files) "jobs"
    = inl SampleFiles.catalog
  ∧ ∃ jobsConfig,
      ReadJobsConfig (H := SampleFiles.files) (Catalog.client false false)
        "jobs.yaml"
      = Returned jobsConfig
      ∧ JobsConfig.Branches jobsConfig = ["master"].
Proof.
  split; [reflexivity|]. split; [reflexivity|].
  destruct (ReadJobsConfig_defaults_to_master (H := SampleFiles.files)
              (Catalog.client false false) "jobs.yaml" "jobs"
              SampleFiles.catalog eq_refl eq_refl)
    as (jobsConfig & Hread & Hbranches & _).
  exists jobsConfig. split; [exact Hread|]. exact Hbranches.
Defined.

(** The reference istio/test-infra@release-1.9 and the reference tools. *)
Lemma createExtraRef_branch_and_slash_witness :
  strings.Contains "istio" "@" = false
  ∧ strings.Contains "test-infra" "@" = false
  ∧ strings.Contains "test-infra" "/" = false
  ∧ strings.Contains "release-1.9" "@" = false
  ∧ createExtraRef "master" ∅ "istio/test-infra@release-1.9"
    = Refs.mk "istio" "test-infra" "release-1.9" "" ""
  ∧ createExtraRef "master" ∅ "test-infra"
    = Refs.mk "test-infra" "test-infra" "master" "" "".
Proof.
  do 4 (split; [reflexivity|]).
  exact (createExtraRef_branch_and_slash "master" "istio" "test-infra"
           "release-1.9" ∅ eq_refl eq_refl eq_refl eq_refl).
Defined.

(** The catalog org/sample with the job [unit], for the branch master. *)
Lemma ConvertJobConfig_generates_by_type_witness :
  ∃ output,
    ConvertJobConfig (H := Sample.collaborators) (Catalog.client false false)
      (Catalog.sample [Catalog.unit]) "master"
    = Returned output
    ∧ onlyUnder "org/sample" (JobConfig.PresubmitsStatic output)
    ∧ onlyUnder "org/sample" (JobConfig.PostsubmitsStatic output).
Proof.
  assert (∃ output,
            ConvertJobConfig (H := Sample.collaborators)
              (Catalog.client false false) (Catalog.sample [Catalog.unit])
              "master"
            = Returned output) as [output Hreturned]
    by (vm_compute; eexists; reflexivity).
  exists output. split; [exact Hreturned|].
  destruct (ConvertJobConfig_generates_by_type (H := Sample.collaborators)
              (Catalog.client false false) (Catalog.sample [Catalog.unit])
              "master" output Hreturned)
    as (expanded & _ & _ & _ & _ & Hpresubmits & Hpostsubmits).
  split; [exact Hpresubmits|exact Hpostsubmits].
Defined.

(** The job [unit] with the label team. *)
Lemma job_labels_shared_witness :
  ∃ presubmit job',
    convertPresubmit (H := Sample.collaborators) (Catalog.client false false)
      (Catalog.sample [SampleJobs.labelled]) "master" SampleJobs.labelled
    = Returned (presubmit, job')
    ∧ CommonConfig.Labels (Job.CommonConfig job')
      = JobBase.Labels (Presubmit.JobBase presubmit).
Proof.
  assert (∃ presubmit job',
            convertPresubmit (H := Sample.collaborators)
              (Catalog.client false false)
              (Catalog.sample [SampleJobs.labelled]) "master"
              SampleJobs.labelled
            = Returned (presubmit, job')) as (presubmit & job' & Hreturned)
    by (vm_compute; eexists _, _; reflexivity).
  exists presubmit, job'. split; [exact Hreturned|].
  apply (proj1 (proj2 (job_labels_shared (H := Sample.collaborators)
                         (Catalog.client false false)
                         (Catalog.sample [SampleJobs.labelled]) "master"
                         SampleJobs.labelled job' presubmit Hreturned))).
  intros Hempty.
  apply (f_equal (λ labels : gmap string string, labels !! "team")) in Hempty.
  vm_compute in Hempty. discriminate Hempty.
Defined.

(** The catalog org/sample of the first generator, for the branch
    master. *)
Lemma legacy_ConvertJobConfig_of_valid_witness :
  LegacyGenerator.ValidateJobConfig SampleJobs.legacy = Returned ()
  ∧ ∃ output,
      LegacyGenerator.ConvertJobConfig SampleJobs.legacy "master" = Some output.
Proof.
  assert (LegacyGenerator.ValidateJobConfig SampleJobs.legacy = Returned ())
    as Hvalid by (vm_compute; reflexivity).
  split; [exact Hvalid|].
  destruct (legacy_ConvertJobConfig_of_valid SampleJobs.legacy "master" Hvalid)
    as (output & _ & _ & Hconverted & _).
  exists output. exact Hconverted.
Defined.
